(** * Options-chain engine: session OHLC, O/H/L/C merge, previous-day store,
      intraday store, cache warming, quote batching, analysis fields, max pain
      and Black-Scholes Greeks

    A shallow embedding of [services/kite_api_service.py] (class
    [KiteAPIService]) and [services/greeks_calculator.py] (class
    [GreeksCalculator]).

    Conventions of the embedding:
    - prices and strikes are Python floats that the code only compares,
      adds and multiplies; they are rationals [Q] here, and the Greeks, which
      need [log], [sqrt], [exp] and the normal distribution, are over [R];
    - a [date] is its proleptic Gregorian ordinal ([date.toordinal()]), a
      [datetime] is a number of microseconds, both in [Z];
    - Python dictionaries keyed by instrument token are [gmap Z _];
    - a value that may be [None] or a missing key is an [option];
    - the upstream brokerage client ([self.kite]) is a function of the whole
      history of earlier requests, and every request and [time.sleep] is
      appended to an explicit log. *)

From Stdlib Require Import ZArith QArith Qminmax Qabs Qround Reals Psatz String List.
From Equations Require Import Equations.
From stdpp Require Import gmap sorting pretty.
Import ListNotations.

Local Open Scope Z_scope.

(** ** Floats as rationals *)

(** [float(v) > 0] *)
Definition Qpositive (v : Q) : bool := negb (Qle_bool v 0).

(** [a < b] on floats *)
Definition Qltb (a b : Q) : bool := negb (Qle_bool b a).

(** Python truthiness of a number: [0] and [0.0] are falsy. *)
Definition truthy (v : Q) : bool := negb (Qeq_bool v 0).

(** ** Data model *)

(** A [{'open','high','low','close'}] dictionary of the session aggregate. *)
Record session_rec := {
  s_open : Q;
  s_high : Q;
  s_low : Q;
  s_close : Q
}.

(** An O/H/L/C dictionary read with [.get]: every field may be absent or
    [None] (the quote's ['ohlc'] entry, a reconstructed intraday record). *)
Record ohlc := {
  o_open : option Q;
  o_high : option Q;
  o_low : option Q;
  o_close : option Q
}.

(** The fields of an upstream quote that the merge reads. [q_last_price] is
    [None] when the upstream sends [null]. *)
Record quote := {
  q_last_price : option Q;
  q_ohlc : option ohlc;
  q_oi : Z
}.

(** A cached previous-day record [{'for_day','prev_open',...}]. *)
Record prevday_rec := {
  for_day : Z;
  prev_open : option Q;
  prev_high : option Q;
  prev_low : option Q;
  prev_close : option Q
}.

(** A daily candle of [historical_data]. *)
Record candle := {
  c_date : Z;
  c_open : option Q;
  c_high : option Q;
  c_low : option Q;
  c_close : option Q
}.

(** The mutable fields of [KiteAPIService] that the modelled methods touch. *)
Record KiteAPIService := {
  _session_ohlc : gmap Z session_rec;
  _session_day : option Z;
  _option_prev_day_cache : gmap Z prevday_rec;
  _rate_limit_prevday_cooldown_until : option Z;
  _rate_limit_intraday_cooldown_until : option Z
}.

(** The state [__init__] leaves when no disk cache file exists. *)
Definition init_service : KiteAPIService :=
  {| _session_ohlc := ∅;
     _session_day := None;
     _option_prev_day_cache := ∅;
     _rate_limit_prevday_cooldown_until := None;
     _rate_limit_intraday_cooldown_until := None |}.

Definition set_session (self : KiteAPIService) (d : option Z)
    (m : gmap Z session_rec) : KiteAPIService :=
  {| _session_ohlc := m;
     _session_day := d;
     _option_prev_day_cache := _option_prev_day_cache self;
     _rate_limit_prevday_cooldown_until := _rate_limit_prevday_cooldown_until self;
     _rate_limit_intraday_cooldown_until := _rate_limit_intraday_cooldown_until self |}.

Definition set_prev_day_cache (self : KiteAPIService)
    (m : gmap Z prevday_rec) : KiteAPIService :=
  {| _session_ohlc := _session_ohlc self;
     _session_day := _session_day self;
     _option_prev_day_cache := m;
     _rate_limit_prevday_cooldown_until := _rate_limit_prevday_cooldown_until self;
     _rate_limit_intraday_cooldown_until := _rate_limit_intraday_cooldown_until self |}.

Definition set_prevday_cooldown (self : KiteAPIService)
    (until : option Z) : KiteAPIService :=
  {| _session_ohlc := _session_ohlc self;
     _session_day := _session_day self;
     _option_prev_day_cache := _option_prev_day_cache self;
     _rate_limit_prevday_cooldown_until := until;
     _rate_limit_intraday_cooldown_until := _rate_limit_intraday_cooldown_until self |}.

(** ** Session OHLC aggregator *)

(** [_reset_session_if_needed]; [today] is [datetime.now().date()]. *)
Definition _reset_session_if_needed (today : Z) (self : KiteAPIService)
    : KiteAPIService :=
  if decide (_session_day self = Some today) then self
  else set_session self (Some today) ∅.

(** [_update_session_ohlc(token, ltp)]. The guard [not ltp or ltp <= 0]
    comes before the day check. *)
Definition _update_session_ohlc (today : Z) (token : Z) (ltp : option Q)
    (self : KiteAPIService) : KiteAPIService :=
  match ltp with
  | None => self
  | Some p =>
    if negb (truthy p) || Qle_bool p 0 then self
    else
      let self1 := _reset_session_if_needed today self in
      match _session_ohlc self1 !! token with
      | None =>
        set_session self1 (_session_day self1)
          (<[token := {| s_open := p; s_high := p; s_low := p; s_close := p |}]>
             (_session_ohlc self1))
      | Some rec =>
        let high := if Qltb (s_high rec) p then p else s_high rec in
        let low := if Qltb p (s_low rec) then p else s_low rec in
        set_session self1 (_session_day self1)
          (<[token := {| s_open := s_open rec; s_high := high;
                         s_low := low; s_close := p |}]>
             (_session_ohlc self1))
      end
  end.

(** One observation: the clock's date, the token and the price seen. *)
Definition observation : Type := Z * Z * option Q.

Definition observe (self : KiteAPIService) (ob : observation) : KiteAPIService :=
  let '(today, token, ltp) := ob in _update_session_ohlc today token ltp self.

(** ** First-positive merge of O/H/L/C *)

(** [_first_positive], applied to its arguments as a list. *)
Fixpoint _first_positive (vals : list (option Q)) : option Q :=
  match vals with
  | [] => None
  | v :: rest =>
    match v with
    | Some x => if Qpositive x then Some x else _first_positive rest
    | None => _first_positive rest
    end
  end.

(** The O/H/L/C and last price of one side of a chain row. *)
Record side_fields := {
  f_ltp : option Q;
  f_open : option Q;
  f_high : option Q;
  f_low : option Q;
  f_close : option Q
}.

(** [quote.get('last_price', 0)] on [all_quotes.get(token) or {}] *)
Definition quote_ltp (q : option quote) : option Q :=
  match q with
  | Some q => q_last_price q
  | None => Some 0%Q
  end.

(** [d.get(field)] on a dictionary that may be the empty one, [{}]. *)
Definition dict_get {A : Type} (f : A -> option Q) (d : option A) : option Q :=
  match d with
  | Some x => f x
  | None => None
  end.

(** [quote.get('ohlc', {}) or {}] followed by [.get(field)] *)
Definition quote_ohlc_get (f : ohlc -> option Q) (q : option quote) : option Q :=
  dict_get f (match q with Some x => q_ohlc x | None => None end).

(** [session.get(field)] on a session record or [{}]. *)
Definition session_get (f : session_rec -> Q) (d : option session_rec) : option Q :=
  dict_get (fun r => Some (f r)) d.

(** The Call side of the per-strike loop of [get_option_chain]. *)
Definition merge_ce (today : Z) (ce_token : Z) (all_quotes : gmap Z quote)
    (today_intraday_map : gmap Z ohlc) (self : KiteAPIService)
    : KiteAPIService * side_fields :=
  let ce_quote := all_quotes !! ce_token in
  let ce_ltp := quote_ltp ce_quote in
  let self' := _update_session_ohlc today ce_token ce_ltp self in
  let ce_session := _session_ohlc self' !! ce_token in
  let ce_intraday := today_intraday_map !! ce_token in
  let ce_open := _first_positive
    [dict_get o_open ce_intraday; quote_ohlc_get o_open ce_quote;
     session_get s_open ce_session; ce_ltp] in
  let ce_high := _first_positive
    [dict_get o_high ce_intraday; quote_ohlc_get o_high ce_quote;
     session_get s_high ce_session; ce_open; ce_ltp] in
  let ce_low := _first_positive
    [dict_get o_low ce_intraday; quote_ohlc_get o_low ce_quote;
     session_get s_low ce_session; ce_open; ce_ltp] in
  let ce_close := _first_positive
    [dict_get o_close ce_intraday; quote_ohlc_get o_close ce_quote;
     session_get s_close ce_session; ce_ltp] in
  (self',
   {| f_ltp := ce_ltp; f_open := ce_open; f_high := ce_high; f_low := ce_low;
      f_close := match ce_close with Some c => Some c | None => ce_ltp end |}).

(** The Put side of the same loop. *)
Definition merge_pe (today : Z) (pe_token : Z) (all_quotes : gmap Z quote)
    (today_intraday_map : gmap Z ohlc) (self : KiteAPIService)
    : KiteAPIService * side_fields :=
  let pe_quote := all_quotes !! pe_token in
  let pe_ltp := quote_ltp pe_quote in
  let self' := _update_session_ohlc today pe_token pe_ltp self in
  let pe_session := _session_ohlc self' !! pe_token in
  let pe_intraday := today_intraday_map !! pe_token in
  (self',
   {| f_ltp := pe_ltp;
      f_open := _first_positive
        [dict_get o_open pe_intraday; session_get s_open pe_session;
         quote_ohlc_get o_open pe_quote; pe_ltp];
      f_high := _first_positive
        [dict_get o_high pe_intraday; session_get s_high pe_session;
         quote_ohlc_get o_high pe_quote; pe_ltp];
      f_low := _first_positive
        [dict_get o_low pe_intraday; session_get s_low pe_session;
         quote_ohlc_get o_low pe_quote; pe_ltp];
      f_close := _first_positive
        [dict_get o_close pe_intraday; session_get s_close pe_session;
         quote_ohlc_get o_close pe_quote; pe_ltp] |}).

(** ** Upstream client, clock and request log *)

(** What the process does to the outside world, in order. *)
Inductive io_event :=
| EvHistorical (token from_day to_day : Z)
| EvQuote (tokens : list Z)
| EvSleep (seconds : Q).

(** [kite.historical_data(token, from, to, 'day')]: candles, or an exception
    with its message [str(e)]. *)
Inductive hist_response :=
| HistCandles (candles : list candle)
| HistRaise (msg : string).

(** [kite.quote(tokens)]: a dictionary, some other value, or an exception. *)
Inductive quote_response :=
| QuoteDict (quotes : gmap Z quote)
| QuoteNotDict
| QuoteRaise (msg : string).

(** The upstream: each answer may depend on everything requested so far. *)
Record KiteConnect := {
  historical_data : list io_event -> Z -> Z -> Z -> hist_response;
  kite_quote : list io_event -> list Z -> quote_response
}.

Record world := {
  w_self : KiteAPIService;
  w_log : list io_event
}.

(** Computations that read and update the service and talk to the upstream. *)
Definition io (A : Type) : Type := world -> A * world.

Definition io_ret {A : Type} (a : A) : io A := fun w => (a, w).

Definition io_bind {A B : Type} (c : io A) (k : A -> io B) : io B :=
  fun w => let '(a, w') := c w in k a w'.

Notation "x <- c ;; k" := (io_bind c (fun x => k))
  (at level 100, c at next level, right associativity).
Notation "c ;;; k" := (io_bind c (fun _ => k))
  (at level 100, k at level 200, right associativity).

Definition get_self : io KiteAPIService := fun w => (w_self w, w).

Definition put_self (s : KiteAPIService) : io unit :=
  fun w => (tt, {| w_self := s; w_log := w_log w |}).

Definition emit (e : io_event) : io unit :=
  fun w => (tt, {| w_self := w_self w; w_log := w_log w ++ [e] |}).

(** [time.sleep(seconds)] *)
Definition sleep (seconds : Q) : io unit := emit (EvSleep seconds).

Definition call_historical (kite : KiteConnect) (token from_day to_day : Z)
    : io hist_response :=
  fun w =>
    (historical_data kite (w_log w) token from_day to_day,
     {| w_self := w_self w;
        w_log := w_log w ++ [EvHistorical token from_day to_day] |}).

Definition call_quote (kite : KiteConnect) (tokens : list Z) : io quote_response :=
  fun w =>
    (kite_quote kite (w_log w) tokens,
     {| w_self := w_self w; w_log := w_log w ++ [EvQuote tokens] |}).

(** [needle in msg] *)
Definition contains (needle msg : string) : bool :=
  match index 0 needle msg with
  | Some _ => true
  | None => false
  end.

(** [timedelta(seconds=n)] in microseconds. *)
Definition timedelta_seconds (n : Z) : Z := n * 1000000.

(** ** Previous trading day *)

(** [date.weekday()]: Monday is 0 and Sunday is 6; ordinal 1 was a Monday. *)
Definition weekday (d : Z) : Z := (d + 6) mod 7.

(** The loop [while d.weekday() >= 5: d -= timedelta(days=1)]. *)
Equations? weekend_rollback (d : Z) : Z by wf (Z.to_nat (weekday d)) lt :=
  weekend_rollback d with Z_le_gt_dec 5 (weekday d) => {
    | left _ => weekend_rollback (d - 1);
    | right _ => d }.
Proof.
  unfold weekday in *.
  apply Z2Nat.inj_lt; try (apply Z.mod_pos_bound; lia).
  assert (H7 : d + 6 = (d - 1 + 6) + 1) by lia.
  pose proof (Z.mod_pos_bound (d - 1 + 6) 7 ltac:(lia)) as Hb.
  pose proof (Z.mod_pos_bound (d + 6) 7 ltac:(lia)) as Hb'.
  pose proof (Z.div_mod (d - 1 + 6) 7 ltac:(lia)) as Hd.
  pose proof (Z.div_mod (d + 6) 7 ltac:(lia)) as Hd'.
  lia.
Qed.

(** [_get_previous_trading_day]; [today] is [datetime.now().date()]. *)
Definition _get_previous_trading_day (today : Z) : Z :=
  weekend_rollback (today - 1).

(** ** Previous-day OHLC store *)

(** [sorted(candles, key=lambda c: c['date'])]: stable, ascending. *)
Fixpoint insert_by_date (c : candle) (l : list candle) : list candle :=
  match l with
  | [] => [c]
  | x :: rest =>
    if c_date c <=? c_date x then c :: l else x :: insert_by_date c rest
  end.

Definition sorted_by_date (candles : list candle) : list candle :=
  fold_right insert_by_date [] candles.

(** The scan over [reversed(candles_sorted)]: the candle of
    [prev_trading_day], else the latest one before it. *)
Fixpoint choose_candle (prev_trading_day : Z) (cs : list candle) : option candle :=
  match cs with
  | [] => None
  | c :: rest =>
    if c_date c =? prev_trading_day then Some c
    else if c_date c <? prev_trading_day then Some c
    else choose_candle prev_trading_day rest
  end.

(** [cache_rec and cache_rec.get('for_day') == prev_trading_day] *)
Definition cached_for (prev_trading_day : Z) (cache : gmap Z prevday_rec)
    (token : Z) : option prevday_rec :=
  match cache !! token with
  | Some rec => if for_day rec =? prev_trading_day then Some rec else None
  | None => None
  end.

(** ['Too many requests' in msg] *)
Definition is_too_many_requests (msg : string) : bool :=
  contains "Too many requests" msg.

(** The [for token in tokens] loop of [get_previous_day_option_ohlc]; the
    loop variables [result] and [fetched_count] are arguments. Writing the
    record to disk ([_persist_prevday_record]) swallows its own errors and is
    left out; so is [_ensure_session], which only refreshes the credentials.
    Candles are well-formed, so the only exception of the [try] block is the
    one raised by the request. *)
Fixpoint prevday_loop (kite : KiteConnect)
    (prev_trading_day fetch_from fetch_to now max_fetch : Z)
    (tokens : list Z) (result : gmap Z prevday_rec) (fetched_count : Z)
    : io (gmap Z prevday_rec) :=
  match tokens with
  | [] => io_ret result
  | token :: rest =>
    let continue := prevday_loop kite prev_trading_day fetch_from fetch_to
                      now max_fetch rest in
    self <- get_self ;;
    match cached_for prev_trading_day (_option_prev_day_cache self) token with
    | Some cache_rec => continue (<[token := cache_rec]> result) fetched_count
    | None =>
      if max_fetch <=? fetched_count then continue result fetched_count
      else
        r <- call_historical kite token fetch_from fetch_to ;;
        match r with
        | HistCandles candles =>
          match choose_candle prev_trading_day (rev (sorted_by_date candles)) with
          | Some chosen =>
            let rec := {| for_day := prev_trading_day;
                          prev_open := c_open chosen;
                          prev_high := c_high chosen;
                          prev_low := c_low chosen;
                          prev_close := c_close chosen |} in
            put_self (set_prev_day_cache self
                        (<[token := rec]> (_option_prev_day_cache self))) ;;;
            continue (<[token := rec]> result) (fetched_count + 1)
          | None => continue result fetched_count
          end
        | HistRaise msg =>
          if is_too_many_requests msg then
            put_self (set_prevday_cooldown self
                        (Some (now + timedelta_seconds 180))) ;;;
            io_ret result
          else continue result fetched_count
        end
    end
  end.

(** [now < self._rate_limit_prevday_cooldown_until], when it is set. *)
Definition prevday_cooldown_active (now : Z) (self : KiteAPIService) : bool :=
  match _rate_limit_prevday_cooldown_until self with
  | Some until => now <? until
  | None => false
  end.

(** [get_previous_day_option_ohlc(tokens, max_fetch)]; [today] and [now] are
    the clock at the call. *)
Definition get_previous_day_option_ohlc (kite : KiteConnect) (today now : Z)
    (tokens : list Z) (max_fetch : Z) : io (gmap Z prevday_rec) :=
  match tokens with
  | [] => io_ret ∅
  | _ =>
    let prev_trading_day := _get_previous_trading_day today in
    let fetch_from := prev_trading_day - 7 in
    let fetch_to := today in
    self <- get_self ;;
    if prevday_cooldown_active now self then io_ret ∅
    else prevday_loop kite prev_trading_day fetch_from fetch_to now max_fetch
           tokens ∅ 0
  end.

(** ** Quote batching of [get_option_chain] *)

Definition batch_size : nat := 400.

(** [range(0, n, batch_size)] *)
Definition batch_starts (n : nat) : list nat :=
  map (fun k => (k * batch_size)%nat)
      (seq 0 (Nat.div (n + batch_size - 1) batch_size)).

(** ['Too many requests' in msg or '429' in msg] *)
Definition is_quote_rate_limit (msg : string) : bool :=
  contains "Too many requests" msg || contains "429" msg.

(** [if isinstance(batch_quotes, dict): all_quotes.update(batch_quotes)] *)
Definition update_quotes (all_quotes : gmap Z quote) (r : quote_response)
    : gmap Z quote :=
  match r with
  | QuoteDict batch_quotes => batch_quotes ∪ all_quotes
  | _ => all_quotes
  end.

(** The body of the loop for one batch. *)
Definition fetch_quote_batch (kite : KiteConnect) (batch_tokens : list Z)
    (all_quotes : gmap Z quote) : io (gmap Z quote) :=
  r <- call_quote kite batch_tokens ;;
  all_quotes' <-
    match r with
    | QuoteRaise msg =>
      if is_quote_rate_limit msg then
        sleep 1 ;;;
        r2 <- call_quote kite batch_tokens ;;
        io_ret (update_quotes all_quotes r2)
      else io_ret all_quotes
    | _ => io_ret (update_quotes all_quotes r)
    end ;;
  sleep (15 # 100) ;;;
  io_ret all_quotes'.

Fixpoint quote_loop (kite : KiteConnect) (batches : list (list Z))
    (all_quotes : gmap Z quote) : io (gmap Z quote) :=
  match batches with
  | [] => io_ret all_quotes
  | batch_tokens :: rest =>
    all_quotes' <- fetch_quote_batch kite batch_tokens all_quotes ;;
    quote_loop kite rest all_quotes'
  end.

(** The quote-fetch loop: [instrument_tokens[i:i + batch_size]] for each
    start [i]. *)
Definition fetch_all_quotes (kite : KiteConnect) (instrument_tokens : list Z)
    : io (gmap Z quote) :=
  quote_loop kite
    (map (fun i => firstn batch_size (skipn i instrument_tokens))
         (batch_starts (length instrument_tokens)))
    ∅.

(** ** Max pain *)

(** The fields of a chain row that [_calculate_max_pain] reads. *)
Record chain_row := {
  strike_price : Q;
  ce_oi : Z;
  pe_oi : Z
}.

(** The inner loop: [total_pain] after the rows, starting from [acc]. *)
Definition add_row_pain (strike : Q) (total_pain : Q) (row : chain_row) : Q :=
  let row_strike := strike_price row in
  let total_pain1 :=
    if Qltb row_strike strike
    then (total_pain + inject_Z (ce_oi row) * (strike - row_strike))%Q
    else total_pain in
  if Qltb strike row_strike
  then (total_pain1 + inject_Z (pe_oi row) * (row_strike - strike))%Q
  else total_pain1.

Definition total_pain_at (option_chain_data : list chain_row) (strike : Q) : Q :=
  fold_left (add_row_pain strike) option_chain_data 0%Q.

(** [min(values, key=lambda x: x[1])]: the first pair with the least key;
    [None] stands for the [ValueError] on an empty list. *)
Fixpoint min_by_pain (best : Q * Q) (values : list (Q * Q)) : Q * Q :=
  match values with
  | [] => best
  | x :: rest =>
    if Qltb (snd x) (snd best) then min_by_pain x rest
    else min_by_pain best rest
  end.

Definition py_min_by_pain (values : list (Q * Q)) : option (Q * Q) :=
  match values with
  | [] => None
  | x :: rest => Some (min_by_pain x rest)
  end.

(** [_calculate_max_pain(option_chain_data, strikes)]; the [except] branch
    returns 0. *)
Definition _calculate_max_pain (option_chain_data : list chain_row)
    (strikes : list Q) : Q :=
  let max_pain_values :=
    map (fun strike => (strike, total_pain_at option_chain_data strike)) strikes in
  match py_min_by_pain max_pain_values with
  | Some best => fst best
  | None => 0%Q
  end.

(** ** Coverage of the previous-day cache and background warming *)

(** [_prevday_cache_coverage(tokens)]: the share of the tokens that have a
    cached record of the previous trading day. *)
Definition _prevday_cache_coverage (today : Z) (tokens : list Z)
    (self : KiteAPIService) : Q :=
  match tokens with
  | [] => 1%Q
  | _ =>
    let prev_trading_day := _get_previous_trading_day today in
    let covered :=
      fold_left
        (fun covered t =>
           match cached_for prev_trading_day (_option_prev_day_cache self) t with
           | Some _ => covered + 1
           | None => covered
           end) tokens 0 in
    (inject_Z covered / inject_Z (Z.max 1 (Z.of_nat (length tokens))))%Q
  end.

(** [enumerate(lst)], counting from [idx]. *)
Fixpoint enumerate_from (idx : nat) (lst : list Z) : list (nat * Z) :=
  match lst with
  | [] => []
  | val :: rest => (idx, val) :: enumerate_from (S idx) rest
  end.

(** The local function [shard(lst, parts)] of [_ensure_prevday_warm]:
    [shards[idx % parts].append(val)] for each element in turn. *)
Definition shard (lst : list Z) (parts : nat) : list (list Z) :=
  if (parts <=? 1)%nat then [lst]
  else
    fold_left
      (fun (shards : list (list Z)) (iv : nat * Z) =>
         alter (fun s => s ++ [snd iv]) (fst iv mod parts)%nat shards)
      (enumerate_from 0 lst) (replicate parts []).

(** An entry of [self._prevday_warm_jobs]. *)
Record warm_job := {
  running : bool;
  started_at : Z
}.

(** [str(n)] for a natural number. *)
Definition str_nat (n : nat) : string := pretty n.

(** [f"{symbol}:{expiry or 'nearest'}:{len(ordered_tokens)}#{i}"] *)
Definition warm_job_key (symbol : string) (expiry : option string)
    (count i : nat) : string :=
  (symbol ++ ":" ++
   match expiry with
   | Some e => if String.eqb e "" then "nearest" else e
   | None => "nearest"
   end ++ ":" ++ str_nat count ++ "#" ++ str_nat i)%string.

(** The loop over the shards in [_ensure_prevday_warm]: an empty shard and
    a shard whose job is running are passed over; for the others the job is
    entered as running and a worker thread is started. The result lists the
    workers started, with their token lists. *)
Fixpoint launch_shards (symbol : string) (expiry : option string)
    (count : nat) (now : Z) (i : nat) (shards : list (list Z))
    (jobs : gmap string warm_job)
    : gmap string warm_job * list (string * list Z) :=
  match shards with
  | [] => (jobs, [])
  | shard_tokens :: rest =>
    let continue := launch_shards symbol expiry count now (S i) rest in
    match shard_tokens with
    | [] => continue jobs
    | _ =>
      let job_key := warm_job_key symbol expiry count i in
      match jobs !! job_key with
      | Some job =>
        if running job then continue jobs
        else
          let '(jobs', started) :=
            continue (<[job_key := {| running := true; started_at := now |}]> jobs) in
          (jobs', (job_key, shard_tokens) :: started)
      | None =>
        let '(jobs', started) :=
          continue (<[job_key := {| running := true; started_at := now |}]> jobs) in
        (jobs', (job_key, shard_tokens) :: started)
      end
    end
  end.

(** [_ensure_prevday_warm(symbol, expiry, ordered_tokens)]: the job table
    after the call and the workers it started. [jobs] is
    [self._prevday_warm_jobs]. What the workers then do is not part of this
    function. *)
Definition _ensure_prevday_warm (today now : Z) (symbol : string)
    (expiry : option string) (ordered_tokens : list Z)
    (self : KiteAPIService) (jobs : gmap string warm_job)
    : gmap string warm_job * list (string * list Z) :=
  let coverage := _prevday_cache_coverage today ordered_tokens self in
  if Qle_bool (7 # 10) coverage
     || match ordered_tokens with [] => true | _ => false end
  then (jobs, [])
  else
    let parts := 3%nat in
    launch_shards symbol expiry (length ordered_tokens) now 0
      (shard ordered_tokens parts) jobs.

(** ** Summary metrics of [get_option_chain] *)

(** [min(l, key=key)]: the first element with the least key. *)
Fixpoint min_by_key {A : Type} (key : A -> Q) (best : A) (l : list A) : A :=
  match l with
  | [] => best
  | x :: rest =>
    if Qltb (key x) (key best) then min_by_key key x rest
    else min_by_key key best rest
  end.

(** [None] stands for the [ValueError] of [min] on an empty list. *)
Definition py_min_key {A : Type} (key : A -> Q) (l : list A) : option A :=
  match l with
  | [] => None
  | x :: rest => Some (min_by_key key x rest)
  end.

(** [min(strikes, key=lambda x: abs(x - spot_price))] *)
Definition atm_strike (strikes : list Q) (spot_price : Q) : option Q :=
  py_min_key (fun x => Qabs (x - spot_price)) strikes.

(** ** Intraday OHLC from minute candles *)

(** Datetimes are microseconds; the date of a datetime is its day number. *)
Definition us_per_day : Z := 86400 * 1000000.

(** [now.date()] *)
Definition date_of (now : Z) : Z := now / us_per_day.

(** [now.replace(hour=9, minute=15, second=0, microsecond=0)] *)
Definition market_open_of (now : Z) : Z :=
  date_of now * us_per_day + timedelta_seconds (9 * 3600 + 15 * 60).

(** The field [.seconds] of a [timedelta]: the seconds within the day, the
    days being kept apart. *)
Definition td_seconds (delta : Z) : Z := (delta mod us_per_day) / 1000000.

(** A record of [self._option_today_cache]. *)
Record today_rec := {
  t_day : Z;
  t_open : option Q;
  t_high : Q;
  t_low : Q;
  t_close : option Q;
  fetched_at : Z
}.

(** The state that [get_current_day_option_ohlc] reads and writes, and the
    minute-candle requests made so far, as (token, from, to). *)
Record intraday_state := {
  i_self : KiteAPIService;
  _option_today_cache : gmap Z today_rec;
  i_requests : list (Z * Z * Z)
}.

(** [kite.historical_data(token, from, to, 'minute')]: the answer may depend
    on the requests made before. *)
Definition minute_source : Type := list (Z * Z * Z) -> Z -> Z -> Z -> hist_response.

Definition set_intraday_cooldown (self : KiteAPIService)
    (until : option Z) : KiteAPIService :=
  {| _session_ohlc := _session_ohlc self;
     _session_day := _session_day self;
     _option_prev_day_cache := _option_prev_day_cache self;
     _rate_limit_prevday_cooldown_until := _rate_limit_prevday_cooldown_until self;
     _rate_limit_intraday_cooldown_until := until |}.

(** [now < self._rate_limit_intraday_cooldown_until], when it is set. *)
Definition intraday_cooldown_active (now : Z) (self : KiteAPIService) : bool :=
  match _rate_limit_intraday_cooldown_until self with
  | Some until => now <? until
  | None => false
  end.

(** [max(...)] and [min(...)] of a non-empty sequence: the first greatest
    and the first least element. *)
Definition py_max (first : Q) (rest : list Q) : Q :=
  fold_left (fun best x => if Qltb best x then x else best) rest first.

Definition py_min (first : Q) (rest : list Q) : Q :=
  fold_left (fun best x => if Qltb x best then x else best) rest first.

(** [[c[field] for c in candles]]; [None] stands for the [KeyError] of a
    candle without the field. *)
Fixpoint fields_of (field : candle -> option Q) (candles : list candle)
    : option (list Q) :=
  match candles with
  | [] => Some []
  | c :: rest =>
    match field c, fields_of field rest with
    | Some v, Some vs => Some (v :: vs)
    | _, _ => None
    end
  end.

(** The record built from the minute candles of a token. [None] when there
    are no candles ([if not candles: continue]) and when a candle lacks its
    high or low: the [KeyError] is caught by the [except] branch, its message
    is no rate-limit message, and the loop goes on. *)
Definition today_record (now : Z) (candles : list candle) : option today_rec :=
  match candles with
  | [] => None
  | first :: _ =>
    let last := List.last candles first in
    match fields_of c_high candles, fields_of c_low candles with
    | Some (h :: hs), Some (l :: ls) =>
      Some {| t_day := date_of now;
              t_open := c_open first;
              t_high := py_max h hs;
              t_low := py_min l ls;
              t_close := c_close last;
              fetched_at := now |}
    | _, _ => None
    end
  end.

(** [cache_rec and (now - cache_rec.get('fetched_at', now)).seconds
    < max_age_sec and cache_rec.get('day') == now.date()] *)
Definition fresh_today (now max_age_sec : Z) (cache : gmap Z today_rec)
    (token : Z) : option today_rec :=
  match cache !! token with
  | Some cache_rec =>
    if (td_seconds (now - fetched_at cache_rec) <? max_age_sec)
       && (t_day cache_rec =? date_of now)
    then Some cache_rec else None
  | None => None
  end.

Definition log_minute_request (token from_time to_time : Z)
    (st : intraday_state) : intraday_state :=
  {| i_self := i_self st;
     _option_today_cache := _option_today_cache st;
     i_requests := i_requests st ++ [(token, from_time, to_time)] |}.

Definition store_today (token : Z) (rec : today_rec)
    (st : intraday_state) : intraday_state :=
  {| i_self := i_self st;
     _option_today_cache := <[token := rec]> (_option_today_cache st);
     i_requests := i_requests st |}.

Definition cool_intraday (until : Z) (st : intraday_state) : intraday_state :=
  {| i_self := set_intraday_cooldown (i_self st) (Some until);
     _option_today_cache := _option_today_cache st;
     i_requests := i_requests st |}.

(** The [for token in tokens] loop of [get_current_day_option_ohlc]; the
    loop variable [result] is an argument. *)
Fixpoint today_loop (minute : minute_source) (now market_open max_age_sec : Z)
    (tokens : list Z) (result : gmap Z today_rec) (st : intraday_state)
    : gmap Z today_rec * intraday_state :=
  match tokens with
  | [] => (result, st)
  | token :: rest =>
    let continue := today_loop minute now market_open max_age_sec rest in
    match fresh_today now max_age_sec (_option_today_cache st) token with
    | Some cache_rec => continue (<[token := cache_rec]> result) st
    | None =>
      let r := minute (i_requests st) token market_open now in
      let st := log_minute_request token market_open now st in
      match r with
      | HistCandles candles =>
        match today_record now candles with
        | Some rec => continue (<[token := rec]> result) (store_today token rec st)
        | None => continue result st
        end
      | HistRaise msg =>
        if is_too_many_requests msg
        then (result, cool_intraday (now + timedelta_seconds 90) st)
        else continue result st
      end
    end
  end.

(** [get_current_day_option_ohlc(tokens, max_age_sec)]; [now] is the clock
    at the call. [_ensure_session] only refreshes the credentials and is left
    out. *)
Definition get_current_day_option_ohlc (minute : minute_source) (now : Z)
    (tokens : list Z) (max_age_sec : Z) (st : intraday_state)
    : gmap Z today_rec * intraday_state :=
  match tokens with
  | [] => (∅, st)
  | _ =>
    if intraday_cooldown_active now (i_self st) then (∅, st)
    else
      let market_open := market_open_of now in
      if now <? market_open then (∅, st)
      else if (400 <? length tokens)%nat then (∅, st)
      else today_loop minute now market_open max_age_sec tokens ∅ st
  end.

(** ** Tokens nearest to the spot, in [get_option_chain] *)

(** [sorted(l, key=key)]: stable, ascending. *)
Fixpoint insert_by_key {A : Type} (key : A -> Q) (x : A) (l : list A) : list A :=
  match l with
  | [] => [x]
  | y :: rest =>
    if Qle_bool (key x) (key y) then x :: l else y :: insert_by_key key x rest
  end.

Definition sorted_by_key {A : Type} (key : A -> Q) (l : list A) : list A :=
  fold_right (insert_by_key key) [] l.

(** [abs(token_strike_map.get(int(t), 0) - spot_price)] *)
Definition distance_to_spot (token_strike_map : gmap Z Q) (spot_price : Q)
    (t : Z) : Q :=
  Qabs (default 0%Q (token_strike_map !! t) - spot_price).

Definition MAX_TODAY_TOKENS : nat := 150.

(** [sorted_today_tokens[:MAX_TODAY_TOKENS]] *)
Definition prioritized_today_tokens (token_strike_map : gmap Z Q)
    (spot_price : Q) (all_tokens : list Z) : list Z :=
  firstn MAX_TODAY_TOKENS
    (sorted_by_key (distance_to_spot token_strike_map spot_price) all_tokens).

(** The intraday step of [get_option_chain]:
    [get_current_day_option_ohlc(prioritized_today_tokens, max_age_sec=180)]. *)
Definition today_intraday_map (minute : minute_source) (now : Z)
    (token_strike_map : gmap Z Q) (spot_price : Q) (all_tokens : list Z)
    (st : intraday_state) : gmap Z today_rec * intraday_state :=
  get_current_day_option_ohlc minute now
    (prioritized_today_tokens token_strike_map spot_price all_tokens) 180 st.

(** ** Analysis fields of a chain row *)

(** [round(x)] to the nearest integer, halves to the even one. *)
Definition round_half_even (x : Q) : Z :=
  let f := Qfloor x in
  let d := (x - inject_Z f)%Q in
  if Qltb d (1 # 2) then f
  else if Qltb (1 # 2) d then f + 1
  else if Z.even f then f else f + 1.

(** [round(x, 2)] *)
Definition round2 (x : Q) : Q :=
  (inject_Z (round_half_even (x * 100)) / 100)%Q.

(** [max(0, x)] and [min(100, x)] *)
Definition max0 (x : Q) : Q := if Qltb 0 x then x else 0%Q.
Definition min100 (x : Q) : Q := if Qltb x 100 then x else 100%Q.

(** The dictionary that [_calculate_analysis_fields] returns. *)
Record analysis_fields := {
  intrinsic : Q;
  time_val : Q;
  buy_percent : Q;
  sell_percent : Q;
  tp1 : Q;
  tp2 : Q;
  tp3 : Q;
  stop_loss : Q;
  signal_type : string;
  signal_strength : Z;
  signal_quality : string;
  signal_confidence : string
}.

(** The signal read off the Greeks, before the adjustment for time decay. *)
Definition greeks_signal (option_type : string) (delta theta : Q) : string * Z :=
  let is_ce := String.eqb option_type "CE" in
  let is_pe := String.eqb option_type "PE" in
  if Qltb (7 # 10) (Qabs delta) then
    if is_ce && Qltb (7 # 10) delta then ("BUY"%string, 5)
    else if is_pe && Qltb (7 # 10) (Qabs delta) then ("BUY"%string, 5)
    else ("HOLD"%string, 3)
  else if Qltb (5 # 10) (Qabs delta) then
    if is_ce && Qltb (5 # 10) delta then ("BUY"%string, 4)
    else if is_pe && Qltb (5 # 10) (Qabs delta) then ("BUY"%string, 4)
    else ("HOLD"%string, 3)
  else if Qltb (3 # 10) (Qabs delta) then
    if is_ce && Qltb (3 # 10) delta then ("HOLD"%string, 3)
    else if is_pe && Qltb (3 # 10) (Qabs delta) then ("HOLD"%string, 3)
    else ("HOLD"%string, 3)
  else if Qltb (5 # 100) (Qabs theta) then ("SELL"%string, 2)
  else ("HOLD"%string, 3).

(** The quality and the confidence, from gamma and vega. *)
Definition greeks_quality (gamma vega : Q) : string * string :=
  if Qltb (1 # 100) gamma && Qltb (1 # 10) vega
  then ("strong"%string, "high"%string)
  else if Qltb (5 # 1000) gamma || Qltb (5 # 100) vega
  then ("moderate"%string, "medium"%string)
  else ("weak"%string, "low"%string).

(** The adjustment for time decay. *)
Definition decay_adjusted (theta : Q) (signal : string * Z) : string * Z :=
  let '(signal_type, signal_strength) := signal in
  if Qltb (5 # 100) (Qabs theta) then
    if 3 <? signal_strength then (signal_type, Z.max 1 (signal_strength - 1))
    else if signal_strength <=? 3 then ("SELL"%string, Z.max 1 (signal_strength - 1))
    else (signal_type, signal_strength)
  else (signal_type, signal_strength).

Local Open Scope Q_scope.

(** [_calculate_analysis_fields]; the arguments are numbers, so the [try]
    block raises nothing and the fallback dictionary is not reached. *)
Definition _calculate_analysis_fields (option_type : string)
    (ltp spot_price strike delta gamma theta vega time_to_expiry : Q)
    : analysis_fields :=
  let is_ce := String.eqb option_type "CE" in
  let intrinsic :=
    if is_ce then max0 (spot_price - strike) else max0 (strike - spot_price) in
  let time_val := max0 (ltp - intrinsic) in
  let buy_percent :=
    min100 (max0 (if is_ce then delta * 100 else Qabs delta * 100)) in
  let sell_percent := 100 - buy_percent in
  let price_move_1 := spot_price * (1 # 100) in
  let price_move_2 := spot_price * (2 # 100) in
  let price_move_3 := spot_price * (3 # 100) in
  let '(tp1, tp2, tp3) :=
    if is_ce then
      (ltp + delta * price_move_1,
       ltp + delta * price_move_2 + (1 # 2) * gamma * price_move_2 * price_move_2,
       ltp + delta * price_move_3 + (1 # 2) * gamma * price_move_3 * price_move_3)
    else
      (ltp + Qabs delta * price_move_1,
       ltp + Qabs delta * price_move_2
       + (1 # 2) * gamma * price_move_2 * price_move_2,
       ltp + Qabs delta * price_move_3
       + (1 # 2) * gamma * price_move_3 * price_move_3) in
  let stop_loss := max0 (ltp - Qabs theta * 2 - ltp * (1 # 10)) in
  let '(signal_quality, signal_confidence) := greeks_quality gamma vega in
  let '(signal_type, signal_strength) :=
    decay_adjusted theta (greeks_signal option_type delta theta) in
  let signal_strength := (Z.max 1 (Z.min 5 signal_strength))%Z in
  {| intrinsic := round2 intrinsic;
     time_val := round2 time_val;
     buy_percent := round2 buy_percent;
     sell_percent := round2 sell_percent;
     tp1 := round2 tp1;
     tp2 := round2 tp2;
     tp3 := round2 tp3;
     stop_loss := round2 stop_loss;
     signal_type := signal_type;
     signal_strength := signal_strength;
     signal_quality := signal_quality;
     signal_confidence := signal_confidence |}.

Local Close Scope Q_scope.

(** ** Black-Scholes pricing and Greeks ([GreeksCalculator]) *)

Module GreeksCalculator.

Local Open Scope R_scope.

(** *** The standard normal distribution of [scipy.stats.norm]

    [norm.pdf] is the Gaussian density. [norm.cdf] is its distribution
    function: one half plus the area under the bell curve between 0 and [x],
    scaled so that the whole half line weighs one half. The area over the
    half line, [gauss_half_mass], is obtained as a least upper bound (its
    closed form, [sqrt (PI / 2)], is not needed here). *)

Definition gauss (t : R) : R := exp (- (t * t) / 2).

Lemma gauss_continuity : continuity gauss.
Proof.
  unfold gauss.
  apply (continuity_comp (fun t => - (t * t) / 2) exp).
  - reg.
  - apply derivable_continuous, derivable_exp.
Qed.

Lemma gauss_integrable (a b : R) : Riemann_integrable gauss a b.
Proof.
  destruct (Rle_dec a b) as [Hab | Hab].
  - apply continuity_implies_RiemannInt; [exact Hab |].
    intros x _. apply gauss_continuity.
  - apply RiemannInt_P1, continuity_implies_RiemannInt; [lra |].
    intros x _. apply gauss_continuity.
Defined.

(** The area under the bell curve between 0 and [x]. *)
Definition gauss_area (x : R) : R := RiemannInt (gauss_integrable 0 x).

(** An exponential that dominates the bell curve and is easy to integrate. *)
Definition exp_tail (t : R) : R := exp (/ 2 - t).

Definition exp_tail_prim (t : R) : R := - exp (/ 2 - t).

Lemma gauss_le_exp_tail (t : R) : gauss t <= exp_tail t.
Proof.
  unfold gauss, exp_tail.
  destruct (Req_dec (- (t * t) / 2) (/ 2 - t)) as [-> | Hne]; [lra |].
  left. apply exp_increasing.
  assert (0 <= (t - 1) * (t - 1)) by (apply Rle_0_sqr).
  lra.
Qed.

Lemma exp_tail_prim_lim (t : R) : derivable_pt_lim exp_tail_prim t (exp_tail t).
Proof.
  unfold exp_tail_prim, exp_tail.
  assert (D1 : derivable_pt_lim (fun u => / 2 - u) t (0 - 1)).
  { apply (derivable_pt_lim_minus (fct_cte (/ 2)) id).
    - apply derivable_pt_lim_const.
    - apply derivable_pt_lim_id. }
  pose proof (derivable_pt_lim_comp (fun u => / 2 - u) exp t _ _ D1
                (derivable_pt_lim_exp (/ 2 - t))) as D2.
  pose proof (derivable_pt_lim_opp _ _ _ D2) as D3.
  replace (exp (/ 2 - t)) with (- (exp (/ 2 - t) * (0 - 1))) by lra.
  exact D3.
Qed.

Lemma exp_tail_prim_derivable : derivable exp_tail_prim.
Proof. intros t. exists (exp_tail t). apply exp_tail_prim_lim. Defined.

Lemma exp_tail_continuity : continuity exp_tail.
Proof.
  unfold exp_tail.
  apply (continuity_comp (fun t => / 2 - t) exp).
  - reg.
  - apply derivable_continuous, derivable_exp.
Qed.

Definition exp_tail_C1 : C1_fun :=
  @mkC1 exp_tail_prim exp_tail_prim_derivable exp_tail_continuity.

Lemma exp_tail_integrable (a b : R) : a <= b -> Riemann_integrable exp_tail a b.
Proof.
  intros Hab. apply continuity_implies_RiemannInt; [exact Hab |].
  intros x _. apply exp_tail_continuity.
Qed.

Lemma gauss_area_le (x : R) : 0 <= x -> gauss_area x <= exp (/ 2).
Proof.
  intros Hx. unfold gauss_area.
  apply Rle_trans with (RiemannInt (exp_tail_integrable 0 x Hx)).
  - apply RiemannInt_P19; [exact Hx |]. intros t _. apply gauss_le_exp_tail.
  - assert (E : RiemannInt (exp_tail_integrable 0 x Hx)
                = exp_tail_prim x - exp_tail_prim 0)
      by exact (@RiemannInt_P33 exp_tail_C1 0 x (exp_tail_integrable 0 x Hx) Hx).
    rewrite E. unfold exp_tail_prim.
    pose proof (exp_pos (/ 2 - x)). replace (/ 2 - 0) with (/ 2) by lra. lra.
Qed.

Lemma gauss_area_ge (x : R) : 0 <= x -> 0 <= gauss_area x.
Proof.
  intros Hx. unfold gauss_area.
  pose proof (@RiemannInt_P19 _ _ 0 x (RiemannInt_P14 0 x 0)
                (gauss_integrable 0 x) Hx) as H.
  rewrite RiemannInt_P15 in H.
  replace (0 * (x - 0)) with 0 in H by lra. apply H.
  intros t _. unfold fct_cte, gauss. left. apply exp_pos.
Qed.

Lemma gauss_area_1 : exp (- / 2) <= gauss_area 1.
Proof.
  unfold gauss_area.
  pose proof (@RiemannInt_P19 _ _ 0 1 (RiemannInt_P14 0 1 (exp (- / 2)))
                (gauss_integrable 0 1) Rle_0_1) as H.
  rewrite RiemannInt_P15 in H.
  replace (exp (- / 2) * (1 - 0)) with (exp (- / 2)) in H by lra. apply H.
  intros t Ht. unfold fct_cte, gauss.
  destruct (Req_dec (- / 2) (- (t * t) / 2)) as [-> | Hne]; [lra |].
  left. apply exp_increasing. nra.
Qed.


Definition gauss_areas (y : R) : Prop := exists x, 0 <= x /\ y = gauss_area x.

Lemma gauss_areas_bound : bound gauss_areas.
Proof.
  exists (exp (/ 2)). intros y [x [Hx ->]]. apply gauss_area_le, Hx.
Qed.

Lemma gauss_areas_inhabited : exists y, gauss_areas y.
Proof. exists (gauss_area 0), 0. split; [lra | reflexivity]. Qed.

(** The area under the bell curve over the whole half line. *)
Definition gauss_half_mass : R :=
  proj1_sig (completeness gauss_areas gauss_areas_bound gauss_areas_inhabited).

(** [norm.cdf(x)] *)
Definition norm_cdf (x : R) : R :=
  if Rle_dec 0 x then / 2 + gauss_area x / (2 * gauss_half_mass)
  else / 2 - gauss_area (- x) / (2 * gauss_half_mass).

(** [norm.pdf(x)] *)
Definition norm_pdf (x : R) : R := exp (- (x * x) / 2) / sqrt (2 * PI).

(** *** The formulas

    [_safe_float] is the identity on the floats the callers pass, so the
    arguments are reals. Where Python would divide by a zero float, the
    quotient here is the total one of [R]; no statement below depends on it. *)

Inductive option_type := CE | PE.

Definition Rleb (a b : R) : bool := if Rle_dec a b then true else false.

Definition Rltb (a b : R) : bool := if Rlt_dec a b then true else false.

Definition _d1 (S K T r sigma : R) : R :=
  if Rleb T 0 || Rleb sigma 0 || Rleb S 0 || Rleb K 0 then 0
  else (ln (S / K) + (r + 0.5 * sigma ^ 2) * T) / (sigma * sqrt T).

Definition _d2 (S K T r sigma : R) : R :=
  if Rleb T 0 || Rleb sigma 0 || Rleb S 0 || Rleb K 0 then 0
  else _d1 S K T r sigma - sigma * sqrt T.

Definition black_scholes_call (S K T r sigma : R) : R :=
  if Rleb T 0 then Rmax (S - K) 0
  else
    let d1 := _d1 S K T r sigma in
    let d2 := _d2 S K T r sigma in
    let call_price := S * norm_cdf d1 - K * exp (- r * T) * norm_cdf d2 in
    Rmax call_price 0.

Definition black_scholes_put (S K T r sigma : R) : R :=
  if Rleb T 0 then Rmax (K - S) 0
  else
    let d1 := _d1 S K T r sigma in
    let d2 := _d2 S K T r sigma in
    let put_price := K * exp (- r * T) * norm_cdf (- d2) - S * norm_cdf (- d1) in
    Rmax put_price 0.

Definition calculate_delta (S K T r sigma : R) (option_type : option_type) : R :=
  if Rleb T 0 then
    match option_type with
    | CE => if Rltb K S then 1 else 0
    | PE => if Rltb S K then -1 else 0
    end
  else
    let d1 := _d1 S K T r sigma in
    match option_type with
    | CE => norm_cdf d1
    | PE => norm_cdf d1 - 1
    end.

Definition calculate_gamma (S K T r sigma : R) : R :=
  if Rleb T 0 || Rleb sigma 0 then 0
  else
    let d1 := _d1 S K T r sigma in
    norm_pdf d1 / (S * sigma * sqrt T).

Definition calculate_vega (S K T r sigma : R) : R :=
  if Rleb T 0 then 0
  else
    let d1 := _d1 S K T r sigma in
    S * norm_pdf d1 * sqrt T / 100.

Definition calculate_theta (S K T r sigma : R) (option_type : option_type) : R :=
  if Rleb T 0 then 0
  else
    let d1 := _d1 S K T r sigma in
    let d2 := _d2 S K T r sigma in
    let theta :=
      match option_type with
      | CE => - S * norm_pdf d1 * sigma / (2 * sqrt T)
              - r * K * exp (- r * T) * norm_cdf d2
      | PE => - S * norm_pdf d1 * sigma / (2 * sqrt T)
              + r * K * exp (- r * T) * norm_cdf (- d2)
      end in
    theta / 365.

Definition calculate_rho (S K T r sigma : R) (option_type : option_type) : R :=
  if Rleb T 0 then 0
  else
    let d2 := _d2 S K T r sigma in
    let rho :=
      match option_type with
      | CE => K * T * exp (- r * T) * norm_cdf d2
      | PE => - K * T * exp (- r * T) * norm_cdf (- d2)
      end in
    rho / 100.

End GreeksCalculator.

(** ** The other methods of [GreeksCalculator] *)

Module GreeksReport.

Import GreeksCalculator.
Local Open Scope R_scope.

(** [calculate_time_to_expiry(expiry_date)]: the dates are day numbers and
    [today] is [date.today()]. *)
Definition calculate_time_to_expiry (expiry_date today : Z) : R :=
  let days_to_expiry := (expiry_date - today)%Z in
  Rmax (IZR days_to_expiry / 365) 0.001.

(** The Newton-Raphson loop of [calculate_implied_volatility_estimate]:
    [n] rounds are left and [sigma] is the current guess. *)
Fixpoint newton_rounds (n : nat) (option_price S K T r : R)
    (option_type : option_type) (sigma : R) : R :=
  match n with
  | O => sigma
  | Datatypes.S n' =>
    let theo_price :=
      match option_type with
      | CE => black_scholes_call S K T r sigma
      | PE => black_scholes_put S K T r sigma
      end in
    let vega := calculate_vega S K T r sigma in
    let price_diff := theo_price - option_price in
    if Rltb (Rabs price_diff) 0.01 || Rltb vega 0.001 then sigma
    else
      let sigma := sigma - price_diff / (vega * 100) in
      let sigma := Rmax sigma 0.01 in
      newton_rounds n' option_price S K T r option_type sigma
  end.

(** [calculate_implied_volatility_estimate] *)
Definition calculate_implied_volatility_estimate
    (option_price S K T r : R) (option_type : option_type) : R :=
  if Rleb option_price 0 || Rleb S 0 || Rleb K 0 || Rleb T 0 then 0.2
  else Rmax (newton_rounds 10 option_price S K T r option_type 0.2) 0.01.

(** The dictionary of [calculate_all_greeks]. *)
Record greeks := {
  delta : R;
  gamma : R;
  vega : R;
  theta : R;
  rho : R;
  iv : R
}.

(** [calculate_all_greeks]; a missing [sigma] or [option_price] is 0, as
    [_safe_float] makes it. *)
Definition calculate_all_greeks (S K T r sigma : R) (option_type : option_type)
    (option_price : R) : greeks :=
  if Rleb S 0 || Rleb K 0 || Rleb T 0 then
    {| delta := 0; gamma := 0; vega := 0; theta := 0; rho := 0; iv := 0 |}
  else
    let sigma :=
      if Rleb sigma 0 then
        if Rltb 0 option_price
        then calculate_implied_volatility_estimate option_price S K T r option_type
        else 0.2
      else sigma in
    {| delta := calculate_delta S K T r sigma option_type;
       gamma := calculate_gamma S K T r sigma;
       vega := calculate_vega S K T r sigma;
       theta := calculate_theta S K T r sigma option_type;
       rho := calculate_rho S K T r sigma option_type;
       iv := sigma |}.

(** The dictionary of [calculate_analytics]. *)
Record analytics := {
  intrinsic : R;
  time_value : R;
  wtb_percent : R;
  wtt_percent : R;
  target_price : R;
  stop_loss : R
}.

(** [calculate_analytics] *)
Definition calculate_analytics (S K option_price : R)
    (option_type : option_type) : analytics :=
  let intrinsic :=
    match option_type with
    | CE => Rmax 0 (S - K)
    | PE => Rmax 0 (K - S)
    end in
  let time_value := Rmax 0 (option_price - intrinsic) in
  let wtb_percent :=
    if Rltb 0 option_price then intrinsic / option_price * 100 else 0 in
  let wtt_percent :=
    if Rltb 0 option_price then time_value / option_price * 100 else 0 in
  {| intrinsic := intrinsic;
     time_value := time_value;
     wtb_percent := wtb_percent;
     wtt_percent := wtt_percent;
     target_price := option_price * 1.4;
     stop_loss := option_price * 0.7 |}.

(** [calculate_entry_signal] *)
Definition calculate_entry_signal (delta iv wtb_percent : R) : string :=
  if Rltb 50 wtb_percent && Rltb 0.6 (Rabs delta) && Rltb iv 0.3 then "BUY"
  else if Rltb wtb_percent 20 && Rltb (Rabs delta) 0.3 then "SELL"
  else "HOLD".

End GreeksReport.

(** ** Notions used to state the properties *)

(** Every record keeps its low at or below its high. *)
Definition session_ok (self : KiteAPIService) : Prop :=
  forall token rec,
    _session_ohlc self !! token = Some rec -> (s_low rec <= s_high rec)%Q.

(** Session records hold positive prices only. *)
Definition session_positive (self : KiteAPIService) : Prop :=
  forall token rec,
    _session_ohlc self !! token = Some rec -> (0 < s_low rec)%Q.

(** The specified rule for one field: the first strictly positive source in
    the order reconstructed-intraday, quote-reported, session aggregate, last
    traded price. *)
Definition spec_merge_field (intraday quote_reported session ltp : option Q)
    : option Q :=
  match
    List.filter
      (fun v => match v with Some x => Qpositive x | None => false end)
      [intraday; quote_reported; session; ltp]
  with
  | v :: _ => v
  | [] => None
  end.

Section PainSpec.

Local Open Scope Q_scope.

(** The specified pain of a candidate strike at one row, and over all rows:
    call-side pain when the candidate is above the row's strike, put-side
    pain when it is below, each weighted by the row's open interest. *)
Definition spec_row_pain (candidate : Q) (row : chain_row) : Q :=
  (if Qltb (strike_price row) candidate
   then inject_Z (ce_oi row) * (candidate - strike_price row) else 0)
  + (if Qltb candidate (strike_price row)
     then inject_Z (pe_oi row) * (strike_price row - candidate) else 0).

Definition spec_pain (rows : list chain_row) (candidate : Q) : Q :=
  fold_right (fun row acc => spec_row_pain candidate row + acc) 0 rows.

(** Open interest concentrated at [s0]: rows at that strike carry positive
    call and put open interest, every other row carries none. *)
Definition concentrated_at (s0 : Q) (rows : list chain_row) : Prop :=
  (exists row, In row rows /\ strike_price row == s0) /\
  forall row, In row rows ->
    (strike_price row == s0 -> (0 < ce_oi row)%Z /\ (0 < pe_oi row)%Z) /\
    (~ strike_price row == s0 -> ce_oi row = 0%Z /\ pe_oi row = 0%Z).

End PainSpec.

Definition cache_of (w : world) : gmap Z prevday_rec :=
  _option_prev_day_cache (w_self w).

Definition cooldown_of (w : world) : option Z :=
  _rate_limit_prevday_cooldown_until (w_self w).

(** The world after one more request or sleep. *)
Definition logged (e : io_event) (w : world) : world :=
  {| w_self := w_self w; w_log := w_log w ++ [e] |}.

(** The record built from the chosen candle. *)
Definition record_of (prev_trading_day : Z) (chosen : candle) : prevday_rec :=
  {| for_day := prev_trading_day;
     prev_open := c_open chosen;
     prev_high := c_high chosen;
     prev_low := c_low chosen;
     prev_close := c_close chosen |}.

(** The world after a record was stored in the in-memory cache. *)
Definition stored (token : Z) (rec : prevday_rec) (w : world) : world :=
  {| w_self := set_prev_day_cache (w_self w) (<[token := rec]> (cache_of w));
     w_log := w_log w |}.

(** The world after the cooldown was engaged. *)
Definition cooled (until : Z) (w : world) : world :=
  {| w_self := set_prevday_cooldown (w_self w) (Some until);
     w_log := w_log w |}.

(** The number of daily-candle requests for a token in a log. *)
Definition fetches_of (token : Z) (log : list io_event) : nat :=
  length (List.filter
            (fun e => match e with
                      | EvHistorical t _ _ => t =? token
                      | _ => false
                      end) log).

(** The positive prices observed for a token, in order. *)
Definition prices_for (token : Z) (obs : list observation) : list Q :=
  flat_map (fun ob : observation =>
              match ob with
              | (_, t, Some p) => if (t =? token) && Qpositive p then [p] else []
              | (_, _, None) => []
              end) obs.

(** A record sums up a non-empty run of prices: first, last, and the extremes. *)
Definition summarises (rec : session_rec) (ps : list Q) : Prop :=
  (exists rest, ps = s_open rec :: rest) /\
  (exists front, ps = front ++ [s_close rec]) /\
  (forall p, In p ps -> (s_low rec <= p <= s_high rec)%Q) /\
  In (s_high rec) ps /\ In (s_low rec) ps.

(** The session record of a token sums up the prices [ps]; with no record,
    [ps] is empty. *)
Definition tracks (token : Z) (self : KiteAPIService) (ps : list Q) : Prop :=
  match _session_ohlc self !! token with
  | None => ps = []
  | Some rec => summarises rec ps
  end.

(** The tracked day is [today], or nothing is tracked yet. *)
Definition on_day (today : Z) (self : KiteAPIService) : Prop :=
  _session_day self = Some today \/ _session_ohlc self = ∅.

(** Ordered by date. *)
Definition date_le (a b : candle) : Prop := c_date a <= c_date b.

(** The batches of the quote loop. *)
Definition quote_batches (instrument_tokens : list Z) : list (list Z) :=
  map (fun i => firstn batch_size (skipn i instrument_tokens))
      (batch_starts (length instrument_tokens)).

(** The tokens of a list, counted with repetitions, that have a cached
    record of the day. *)
Definition covered_count (prev : Z) (cache : gmap Z prevday_rec)
    (tokens : list Z) : Z :=
  Z.of_nat (length (List.filter
                      (fun t => match cached_for prev cache t with
                                | Some _ => true
                                | None => false
                                end) tokens)).

(** The elements of a list whose position is [k] modulo [parts], in order. *)
Definition stride (parts k : nat) (lst : list Z) : list Z :=
  map snd (List.filter (fun iv : nat * Z => (fst iv mod parts =? k)%nat)
             (enumerate_from 0 lst)).

(** The token lists of the quote requests of a log, in order. *)
Definition quote_requests (log : list io_event) : list (list Z) :=
  flat_map (fun e => match e with EvQuote tokens => [tokens] | _ => [] end) log.

(** A candle request. *)
Definition is_historical (e : io_event) : bool :=
  match e with EvHistorical _ _ _ => true | _ => false end.

(** The requests for the batches when [retried] tells which of them were
    asked twice. *)
Fixpoint requests_with_retries (batches : list (list Z)) (retried : list bool)
    : list (list Z) :=
  match batches, retried with
  | batch :: rest, r :: rs =>
    (if r then [batch; batch] else [batch]) ++ requests_with_retries rest rs
  | _, _ => []
  end.

(** What a run of the loop over [tokens] may do, from [(result, st)] to
    [(result', st')]. *)
Definition today_effect (now market_open : Z) (tokens : list Z)
    (result : gmap Z today_rec) (st : intraday_state)
    (result' : gmap Z today_rec) (st' : intraday_state) : Prop :=
  (_session_ohlc (i_self st') = _session_ohlc (i_self st) /\
   _session_day (i_self st') = _session_day (i_self st) /\
   _option_prev_day_cache (i_self st') = _option_prev_day_cache (i_self st) /\
   _rate_limit_prevday_cooldown_until (i_self st')
   = _rate_limit_prevday_cooldown_until (i_self st)) /\
  (i_self st' = i_self st \/
   _rate_limit_intraday_cooldown_until (i_self st')
   = Some (now + timedelta_seconds 90)) /\
  (exists ext,
     i_requests st' = i_requests st ++ ext /\
     (length ext <= length tokens)%nat /\
     Forall (fun r => In (fst (fst r)) tokens /\ snd (fst r) = market_open
                      /\ snd r = now) ext) /\
  (forall t,
     result' !! t = result !! t \/
     (In t tokens /\
      exists rec, result' !! t = Some rec /\
                  _option_today_cache st' !! t = Some rec /\
                  t_day rec = date_of now)) /\
  (forall t,
     _option_today_cache st' !! t = _option_today_cache st !! t \/
     (In t tokens /\
      exists rec, result' !! t = Some rec /\
                  _option_today_cache st' !! t = Some rec /\
                  t_day rec = date_of now /\ fetched_at rec = now)).

(** The option leans the way of its kind by more than a half. *)
Definition bullish (option_type : string) (delta : Q) : Prop :=
  (option_type = "CE"%string /\ (1 # 2 < delta)%Q) \/
  (option_type = "PE"%string /\ (1 # 2 < Qabs delta)%Q).

(** Time decay is high. *)
Definition decaying (theta : Q) : Prop := (5 # 100 < Qabs theta)%Q.

(** [bullish], as a boolean. *)
Definition bullishb (option_type : string) (delta : Q) : bool :=
  (String.eqb option_type "CE" && Qltb (1 # 2) delta)
  || (String.eqb option_type "PE" && Qltb (1 # 2) (Qabs delta)).

(** ** Upstreams and states used as examples *)

Definition fresh_world : world := {| w_self := init_service; w_log := [] |}.

Definition friday_rec : prevday_rec :=
  {| for_day := 739555; prev_open := Some (4 # 1)%Q; prev_high := Some (6 # 1)%Q;
     prev_low := Some (3 # 1)%Q; prev_close := Some (5 # 1)%Q |}.

(** An upstream that answers every daily-candle request with one candle of
    Friday 2025-10-31, except for token 2, which it rate-limits. *)
Definition throttled_kite : KiteConnect :=
  {| historical_data := fun _ token _ _ =>
       if token =? 2 then HistRaise "Too many requests"
       else HistCandles [ {| c_date := 739555; c_open := Some (4 # 1)%Q;
                             c_high := Some (6 # 1)%Q; c_low := Some (3 # 1)%Q;
                             c_close := Some (5 # 1)%Q |} ];
     kite_quote := fun _ _ => QuoteDict ∅ |}.

(** An upstream with a daily candle for token 1 only; every other token has
    no candles in the window. *)
Definition patchy_kite : KiteConnect :=
  {| historical_data := fun _ token _ _ =>
       if token =? 1
       then HistCandles [ {| c_date := 739555; c_open := Some (4 # 1)%Q;
                             c_high := Some (6 # 1)%Q; c_low := Some (3 # 1)%Q;
                             c_close := Some (5 # 1)%Q |} ]
       else HistCandles [];
     kite_quote := fun _ _ => QuoteDict ∅ |}.


(** ** Minute-candle upstream and states used as examples *)

(** 10:00 on Monday 3 November 2025, in microseconds. *)
Definition monday_10am : Z := 739558 * us_per_day + timedelta_seconds 36000.

(** 09:00 on the same day, before the market opens. *)
Definition monday_9am : Z := 739558 * us_per_day + timedelta_seconds 32400.

Definition minute_candle (o h l c : Q) : candle :=
  {| c_date := 0; c_open := Some o; c_high := Some h; c_low := Some l;
     c_close := Some c |}.

(** An upstream with three minute candles for every token but token 2, for
    which it answers with a rate-limit error. *)
Definition minute_feed : minute_source :=
  fun _ token _ _ =>
    if token =? 2 then HistRaise "Too many requests"
    else HistCandles [ minute_candle (10 # 1) (12 # 1) (9 # 1) (11 # 1);
                       minute_candle (11 # 1) (15 # 1) (11 # 1) (14 # 1);
                       minute_candle (14 # 1) (14 # 1) (8 # 1) (13 # 1) ].

Definition fresh_intraday : intraday_state :=
  {| i_self := init_service; _option_today_cache := ∅; i_requests := [] |}.

(** * Properties *)

(** ** Sample runs *)

Example batch_starts_900 : batch_starts 900 = [0; 400; 800]%nat.
Proof. vm_compute. reflexivity. Qed.

Example rate_limit_messages :
  is_too_many_requests "Too many requests" = true /\
  is_too_many_requests "HTTP 429" = false /\
  is_quote_rate_limit "HTTP 429" = true /\
  is_quote_rate_limit "Connection reset" = false.
Proof. vm_compute. repeat split; reflexivity. Qed.

(** A holiday on the previous trading day: the latest earlier candle is
    taken, and today's candle never is. *)
Example choose_candle_holiday :
  let mk d := {| c_date := d; c_open := None; c_high := None; c_low := None;
                 c_close := Some (inject_Z d) |} in
  option_map c_date
    (choose_candle 739555 (rev (sorted_by_date [mk 739558; mk 739553; mk 739554])))
  = Some 739554 /\
  option_map c_date
    (choose_candle 739555 (rev (sorted_by_date [mk 739558; mk 739555; mk 739553])))
  = Some 739555 /\
  choose_candle 739555 (rev (sorted_by_date [mk 739558; mk 739556])) = None.
Proof. vm_compute. repeat split; reflexivity. Qed.

(** Five strikes around 24500 with mirrored open interest. *)
Example max_pain_mirrored :
  let rows := [ {| strike_price := 24400 # 1; ce_oi := 100; pe_oi := 10 |};
                {| strike_price := 24450 # 1; ce_oi := 50; pe_oi := 20 |};
                {| strike_price := 24500 # 1; ce_oi := 30; pe_oi := 30 |};
                {| strike_price := 24550 # 1; ce_oi := 20; pe_oi := 50 |};
                {| strike_price := 24600 # 1; ce_oi := 10; pe_oi := 100 |} ] in
  map (total_pain_at rows) (map strike_price rows)
  = [31500 # 1; 26500 # 1; 25000 # 1; 26500 # 1; 31500 # 1]%Q /\
  _calculate_max_pain rows (map strike_price rows) = (24500 # 1)%Q /\
  _calculate_max_pain rows [] = (0 # 1)%Q.
Proof. vm_compute. repeat split; reflexivity. Qed.

(** ** Comparisons on rationals *)

Lemma Qltb_true (a b : Q) : Qltb a b = true <-> (a < b)%Q.
Proof.
  unfold Qltb. rewrite negb_true_iff, <- not_true_iff_false, Qle_bool_iff.
  split; [apply Qnot_le_lt | apply Qlt_not_le].
Qed.

Lemma Qltb_false (a b : Q) : Qltb a b = false <-> (b <= a)%Q.
Proof.
  unfold Qltb. rewrite negb_false_iff. apply Qle_bool_iff.
Qed.

Lemma Qpositive_true (v : Q) : Qpositive v = true <-> (0 < v)%Q.
Proof. apply (Qltb_true 0 v). Qed.

Lemma Qpositive_false (v : Q) : Qpositive v = false <-> (v <= 0)%Q.
Proof. apply (Qltb_false 0 v). Qed.

(** The guard [not ltp or ltp <= 0] is exactly [ltp <= 0]. *)
Lemma session_guard (p : Q) :
  negb (truthy p) || Qle_bool p 0 = true <-> (p <= 0)%Q.
Proof.
  rewrite orb_true_iff, Qle_bool_iff. unfold truthy.
  rewrite negb_involutive, Qeq_bool_iff.
  split; [intros [E | H]; [rewrite E; apply Qle_refl | exact H] | auto].
Qed.

Lemma session_guard_pos (p : Q) :
  (0 < p)%Q -> negb (truthy p) || Qle_bool p 0 = false.
Proof.
  intros Hp. apply not_true_iff_false. rewrite session_guard.
  apply Qlt_not_le, Hp.
Qed.

(** The two branches of [_update_session_ohlc] keep the running maximum and
    minimum. *)
Lemma running_high (high p : Q) :
  (if Qltb high p then p else high) = Qmax high p.
Proof.
  unfold Qmax, GenericMinMax.gmax.
  destruct (Qltb high p) eqn:E.
  - apply Qltb_true in E.
    destruct (Qcompare_spec high p) as [C | C | C]; try reflexivity; exfalso.
    + rewrite C in E. apply (Qlt_irrefl _ E).
    + apply (Qlt_irrefl _ (Qlt_trans _ _ _ E C)).
  - apply Qltb_false in E.
    destruct (Qcompare_spec high p) as [C | C | C]; try reflexivity.
    exfalso. apply (Qlt_not_le _ _ C E).
Qed.

Lemma running_low (low p : Q) :
  (if Qltb p low then p else low) = Qmin low p.
Proof.
  unfold Qmin, GenericMinMax.gmin.
  destruct (Qltb p low) eqn:E.
  - apply Qltb_true in E.
    destruct (Qcompare_spec low p) as [C | C | C]; try reflexivity; exfalso.
    + rewrite C in E. apply (Qlt_irrefl _ E).
    + apply (Qlt_irrefl _ (Qlt_trans _ _ _ E C)).
  - apply Qltb_false in E.
    destruct (Qcompare_spec low p) as [C | C | C]; try reflexivity.
    exfalso. apply (Qlt_not_le _ _ C E).
Qed.

(** ** Session aggregator *)

Lemma session_ok_init : session_ok init_service.
Proof. intros token rec H. simpl in H. rewrite lookup_empty in H. discriminate. Qed.

Lemma session_ok_reset (today : Z) (self : KiteAPIService) :
  session_ok self -> session_ok (_reset_session_if_needed today self).
Proof.
  intros Hok. unfold _reset_session_if_needed.
  destruct (decide (_session_day self = Some today)); [exact Hok |].
  intros token rec H. simpl in H. rewrite lookup_empty in H. discriminate.
Qed.

Lemma session_ok_update (today token : Z) (ltp : option Q) (self : KiteAPIService) :
  session_ok self -> session_ok (_update_session_ohlc today token ltp self).
Proof.
  intros Hok. unfold _update_session_ohlc.
  destruct ltp as [p |]; [| exact Hok].
  destruct (negb (truthy p) || Qle_bool p 0); [exact Hok |].
  pose proof (session_ok_reset today self Hok) as Hok1.
  set (self1 := _reset_session_if_needed today self) in *.
  destruct (_session_ohlc self1 !! token) as [rec |] eqn:Hrec;
    intros token' rec' H; simpl in H;
    (destruct (decide (token = token')) as [<- | Hne];
     [rewrite lookup_insert_eq in H; injection H as <-; simpl
     | rewrite lookup_insert_ne in H by exact Hne; exact (Hok1 _ _ H)]).
  - rewrite running_high, running_low.
    apply Qle_trans with (s_low rec); [apply Q.le_min_l |].
    apply Qle_trans with (s_high rec); [exact (Hok1 _ _ Hrec) | apply Q.le_max_l].
  - apply Qle_refl.
Qed.

Lemma session_ok_observe (obs : list observation) (self : KiteAPIService) :
  session_ok self -> session_ok (fold_left observe obs self).
Proof.
  revert self. induction obs as [| [[today token] ltp] obs IH]; intros self Hok.
  - exact Hok.
  - simpl. apply IH, session_ok_update, Hok.
Qed.

(** C7, as the code has it. A price that is [None] or not positive leaves
    the state as it is, whatever the day of the observation: the price guard
    comes before the day check. A positive price seen on a day other than
    the tracked one clears every record and starts the token's record at that
    price; on the tracked day the first positive price of a token sets
    open = high = low = close = price, and a later one sets
    high = max(high, price), low = min(low, price), close = price and keeps
    the open; so after any sequence of observations from the initial state
    every record has low <= high. *)
Theorem C7_session_aggregator :
  (forall today token self, _update_session_ohlc today token None self = self) /\
  (forall today token p self,
     (p <= 0)%Q -> _update_session_ohlc today token (Some p) self = self) /\
  (forall today token p self,
     (0 < p)%Q -> _session_day self <> Some today ->
     let self' := _update_session_ohlc today token (Some p) self in
     _session_day self' = Some today /\
     _session_ohlc self' =
       {[ token := {| s_open := p; s_high := p; s_low := p; s_close := p |} ]}) /\
  (forall today token p self,
     (0 < p)%Q -> _session_day self = Some today ->
     _session_ohlc self !! token = None ->
     let self' := _update_session_ohlc today token (Some p) self in
     _session_day self' = Some today /\
     _session_ohlc self' =
       <[ token := {| s_open := p; s_high := p; s_low := p; s_close := p |} ]>
         (_session_ohlc self)) /\
  (forall today token p self rec,
     (0 < p)%Q -> _session_day self = Some today ->
     _session_ohlc self !! token = Some rec ->
     let self' := _update_session_ohlc today token (Some p) self in
     _session_day self' = Some today /\
     _session_ohlc self' =
       <[ token := {| s_open := s_open rec; s_high := Qmax (s_high rec) p;
                      s_low := Qmin (s_low rec) p; s_close := p |} ]>
         (_session_ohlc self)) /\
  (forall (obs : list observation) token rec,
     _session_ohlc (fold_left observe obs init_service) !! token = Some rec ->
     (s_low rec <= s_high rec)%Q).
Proof.
  split; [reflexivity |].
  split.
  { intros today token p self Hp. unfold _update_session_ohlc.
    rewrite (proj2 (session_guard p) Hp). reflexivity. }
  split.
  { intros today token p self Hp Hday self'.
    unfold self', _update_session_ohlc. rewrite (session_guard_pos p Hp).
    unfold _reset_session_if_needed.
    destruct (decide (_session_day self = Some today)); [contradiction |].
    simpl. rewrite lookup_empty. simpl. split; [reflexivity |].
    apply insert_empty. }
  split.
  { intros today token p self Hp Hday Hnone self'.
    unfold self', _update_session_ohlc. rewrite (session_guard_pos p Hp).
    unfold _reset_session_if_needed.
    destruct (decide (_session_day self = Some today)); [| contradiction].
    rewrite Hnone. simpl. split; [exact Hday | reflexivity]. }
  split.
  { intros today token p self rec Hp Hday Hrec self'.
    unfold self', _update_session_ohlc. rewrite (session_guard_pos p Hp).
    unfold _reset_session_if_needed.
    destruct (decide (_session_day self = Some today)); [| contradiction].
    rewrite Hrec. simpl. rewrite running_high, running_low.
    split; [exact Hday | reflexivity]. }
  intros obs token rec.
  apply (session_ok_observe obs init_service session_ok_init).
Qed.

(** Four observations of one token on one day, the third with price 0. *)
Lemma C7_session_aggregator_witness :
  let obs : list observation :=
    [(739000, 7, Some (5 # 1)%Q); (739000, 7, Some (7 # 2)%Q);
     (739000, 7, Some (0 # 1)%Q); (739000, 7, Some (6 # 1)%Q)] in
  let rec := {| s_open := 5 # 1; s_high := 6 # 1; s_low := 7 # 2;
                s_close := 6 # 1 |} in
  _session_ohlc (fold_left observe obs init_service) !! 7 = Some rec /\
  (s_low rec <= s_high rec)%Q.
Proof.
  intros obs rec.
  assert (H : _session_ohlc (fold_left observe obs init_service) !! 7 = Some rec)
    by (vm_compute; reflexivity).
  split; [exact H |].
  exact (proj2 (proj2 (proj2 (proj2 (proj2 C7_session_aggregator)))) obs 7 rec H).
Defined.

(** An observation on a later day does not always clear the state: after a
    price of 10 for token 7 on Friday, an observation on Monday with price 0,
    or with no price, leaves Friday as the tracked day and Friday's record in
    place; the next positive price on Monday clears it. *)
Lemma C7_stale_day_counterexample :
  let friday := _update_session_ohlc 739555 7 (Some (10 # 1)%Q) init_service in
  let rec := {| s_open := 10 # 1; s_high := 10 # 1; s_low := 10 # 1;
                s_close := 10 # 1 |} in
  let monday_zero := _update_session_ohlc 739558 8 (Some (0 # 1)%Q) friday in
  let monday_none := _update_session_ohlc 739558 8 None friday in
  let monday_price := _update_session_ohlc 739558 8 (Some (3 # 1)%Q) friday in
  _session_day friday = Some 739555 /\
  _session_ohlc friday !! 7 = Some rec /\
  _session_day monday_zero = Some 739555 /\
  _session_ohlc monday_zero !! 7 = Some rec /\
  _session_day monday_none = Some 739555 /\
  _session_ohlc monday_none !! 7 = Some rec /\
  _session_day monday_price = Some 739558 /\
  _session_ohlc monday_price !! 7 = None.
Proof. vm_compute. repeat split; reflexivity. Qed.

(** ** First-positive merge *)

Lemma first_positive_spec (a b c d : option Q) :
  _first_positive [a; b; c; d] = spec_merge_field a b c d.
Proof.
  unfold spec_merge_field. simpl.
  destruct a as [a |]; [destruct (Qpositive a); [reflexivity |] |];
  (destruct b as [b |]; [destruct (Qpositive b); [reflexivity |] |]);
  (destruct c as [c |]; [destruct (Qpositive c); [reflexivity |] |]);
  (destruct d as [d |]; [destruct (Qpositive d) |]); reflexivity.
Qed.

(** The Call side opens and closes by the specified rule. *)
Lemma merge_ce_open_close (today ce_token : Z) (all_quotes : gmap Z quote)
    (today_intraday_map : gmap Z ohlc) (self : KiteAPIService) :
  let ce_quote := all_quotes !! ce_token in
  let out := merge_ce today ce_token all_quotes today_intraday_map self in
  let ce_session := _session_ohlc (fst out) !! ce_token in
  f_open (snd out) =
    spec_merge_field (dict_get o_open (today_intraday_map !! ce_token))
      (quote_ohlc_get o_open ce_quote) (session_get s_open ce_session)
      (quote_ltp ce_quote) /\
  (forall c,
     spec_merge_field (dict_get o_close (today_intraday_map !! ce_token))
       (quote_ohlc_get o_close ce_quote) (session_get s_close ce_session)
       (quote_ltp ce_quote) = Some c ->
     f_close (snd out) = Some c).
Proof.
  unfold merge_ce. cbn [fst snd f_open f_close]. split.
  - apply first_positive_spec.
  - intros c Hc. rewrite <- first_positive_spec in Hc. rewrite Hc. reflexivity.
Qed.

Lemma session_positive_init : session_positive init_service.
Proof. intros token rec H. simpl in H. rewrite lookup_empty in H. discriminate. Qed.

(** After a positive price the token has a record with positive high and
    low. *)
Lemma update_session_record (today token : Z) (p : Q) (self : KiteAPIService) :
  (0 < p)%Q -> session_positive self ->
  exists rec,
    _session_ohlc (_update_session_ohlc today token (Some p) self) !! token
    = Some rec /\
    (0 < s_high rec)%Q /\ (0 < s_low rec)%Q.
Proof.
  intros Hp Hpos. unfold _update_session_ohlc.
  rewrite (session_guard_pos p Hp).
  assert (Hpos1 : session_positive (_reset_session_if_needed today self)).
  { unfold _reset_session_if_needed.
    destruct (decide (_session_day self = Some today)); [exact Hpos |].
    intros t r H. simpl in H. rewrite lookup_empty in H. discriminate. }
  set (self1 := _reset_session_if_needed today self) in *.
  destruct (_session_ohlc self1 !! token) as [rec0 |] eqn:Hrec.
  - eexists. split; [simpl; apply lookup_insert_eq |]. simpl.
    rewrite running_high, running_low. split.
    + apply Qlt_le_trans with p; [exact Hp | apply Q.le_max_r].
    + apply Q.min_glb_lt; [exact (Hpos1 _ _ Hrec) | exact Hp].
  - eexists. split; [simpl; apply lookup_insert_eq |]. simpl. split; exact Hp.
Qed.

(** An extra source before the last one changes nothing when a positive last
    source comes with a positive third one. *)
Lemma first_positive_extra (a b c extra last : option Q) (v : Q) :
  (forall p, last = Some p -> Qpositive p = true ->
             exists h, c = Some h /\ Qpositive h = true) ->
  _first_positive [a; b; c; last] = Some v ->
  _first_positive [a; b; c; extra; last] = Some v.
Proof.
  intros Hc. cbn [_first_positive].
  destruct a as [a |]; [destruct (Qpositive a); [auto |] |];
  (destruct b as [b |]; [destruct (Qpositive b); [auto |] |]);
  (destruct c as [c |]; [destruct (Qpositive c) eqn:Ec; [auto |] |]);
  (destruct last as [l |]; [destruct (Qpositive l) eqn:El |]);
  intros H; try discriminate H;
  destruct (Hc l eq_refl El) as [h [Eh Hh]];
  try discriminate Eh; injection Eh as <-; rewrite Ec in Hh; discriminate Hh.
Qed.

(** The Call side follows the specified rule for high and low as well: the
    merged open, which the code tries before the last price, is never
    reached when a source of the specified chain is positive. *)
Lemma merge_ce_high_low (today ce_token : Z) (all_quotes : gmap Z quote)
    (today_intraday_map : gmap Z ohlc) (self : KiteAPIService) :
  session_positive self ->
  let ce_quote := all_quotes !! ce_token in
  let out := merge_ce today ce_token all_quotes today_intraday_map self in
  let ce_session := _session_ohlc (fst out) !! ce_token in
  (forall v,
     spec_merge_field (dict_get o_high (today_intraday_map !! ce_token))
       (quote_ohlc_get o_high ce_quote) (session_get s_high ce_session)
       (quote_ltp ce_quote) = Some v ->
     f_high (snd out) = Some v) /\
  (forall v,
     spec_merge_field (dict_get o_low (today_intraday_map !! ce_token))
       (quote_ohlc_get o_low ce_quote) (session_get s_low ce_session)
       (quote_ltp ce_quote) = Some v ->
     f_low (snd out) = Some v).
Proof.
  intros Hpos. unfold merge_ce. cbn [fst snd f_high f_low].
  assert (Hrec : forall p, quote_ltp (all_quotes !! ce_token) = Some p ->
            Qpositive p = true ->
            exists rec,
              _session_ohlc (_update_session_ohlc today ce_token
                               (quote_ltp (all_quotes !! ce_token)) self)
              !! ce_token = Some rec /\
              (0 < s_high rec)%Q /\ (0 < s_low rec)%Q).
  { intros p Hl Hp. rewrite Hl. apply update_session_record; [| exact Hpos].
    apply Qpositive_true, Hp. }
  split; intros v Hv; rewrite <- first_positive_spec in Hv;
    apply first_positive_extra; try exact Hv;
    intros p Hl Hp; destruct (Hrec p Hl Hp) as [rec [Hlook [Hh Hlo]]];
    rewrite Hlook; cbn [session_get dict_get]; eexists; split;
    try reflexivity; apply Qpositive_true; assumption.
Qed.

(** C1. On the Put side the merge reads the session aggregate before the
    quote-reported OHLC. A Put quoted at 11 with quote OHLC 12/15/9/11 and no
    intraday record is shown with open, high and low 11, where the specified
    order gives 12, 15 and 9; the Call side, on the same data, gives 12, 15
    and 9. *)
Theorem C1_pe_merge_reads_session_before_quote :
  let token := 7 in
  let q := {| q_last_price := Some (11 # 1);
              q_ohlc := Some {| o_open := Some (12 # 1); o_high := Some (15 # 1);
                                o_low := Some (9 # 1); o_close := Some (11 # 1) |};
              q_oi := 0 |}%Q in
  let all_quotes : gmap Z quote := {[ token := q ]} in
  let pe := merge_pe 739000 token all_quotes ∅ init_service in
  let ce := merge_ce 739000 token all_quotes ∅ init_service in
  let session := _session_ohlc (fst pe) !! token in
  session = Some {| s_open := 11 # 1; s_high := 11 # 1; s_low := 11 # 1;
                    s_close := 11 # 1 |} /\
  f_open (snd pe) = Some (11 # 1)%Q /\
  f_high (snd pe) = Some (11 # 1)%Q /\
  f_low (snd pe) = Some (11 # 1)%Q /\
  spec_merge_field None (Some (12 # 1)%Q) (session_get s_open session)
    (Some (11 # 1)%Q) = Some (12 # 1)%Q /\
  spec_merge_field None (Some (15 # 1)%Q) (session_get s_high session)
    (Some (11 # 1)%Q) = Some (15 # 1)%Q /\
  spec_merge_field None (Some (9 # 1)%Q) (session_get s_low session)
    (Some (11 # 1)%Q) = Some (9 # 1)%Q /\
  f_open (snd ce) = Some (12 # 1)%Q /\
  f_high (snd ce) = Some (15 # 1)%Q /\
  f_low (snd ce) = Some (9 # 1)%Q.
Proof. vm_compute. repeat split; reflexivity. Qed.

(** ** Previous trading day *)

Lemma weekday_range (d : Z) : 0 <= weekday d < 7.
Proof. unfold weekday. apply Z.mod_pos_bound. lia. Qed.

Lemma weekday_pred (d : Z) :
  1 <= weekday d -> weekday (d - 1) = weekday d - 1.
Proof.
  unfold weekday. intros H.
  pose proof (Z.mod_pos_bound (d - 1 + 6) 7 ltac:(lia)).
  pose proof (Z.mod_pos_bound (d + 6) 7 ltac:(lia)).
  pose proof (Z.div_mod (d - 1 + 6) 7 ltac:(lia)).
  pose proof (Z.div_mod (d + 6) 7 ltac:(lia)).
  lia.
Qed.

Lemma weekday_pred_monday (d : Z) : weekday d = 0 -> weekday (d - 1) = 6.
Proof.
  unfold weekday. intros H.
  pose proof (Z.mod_pos_bound (d - 1 + 6) 7 ltac:(lia)).
  pose proof (Z.div_mod (d - 1 + 6) 7 ltac:(lia)).
  pose proof (Z.div_mod (d + 6) 7 ltac:(lia)).
  lia.
Qed.

Lemma weekend_rollback_weekday (d : Z) :
  weekday d < 5 -> weekend_rollback d = d.
Proof.
  intros H. simp weekend_rollback.
  destruct (Z_le_gt_dec 5 (weekday d)); [lia | reflexivity].
Qed.

Lemma weekend_rollback_weekend (d : Z) :
  5 <= weekday d -> weekend_rollback d = weekend_rollback (d - 1).
Proof.
  intros H. rewrite (weekend_rollback_equation_1 d).
  destruct (Z_le_gt_dec 5 (weekday d)); [reflexivity | lia].
Qed.

(** The three cases of the loop: no step, one step from a Saturday, two
    steps from a Sunday. *)
Lemma weekend_rollback_cases (d : Z) :
  (weekday d < 5 /\ weekend_rollback d = d) \/
  (weekday d = 5 /\ weekend_rollback d = d - 1) \/
  (weekday d = 6 /\ weekend_rollback d = d - 2).
Proof.
  pose proof (weekday_range d) as Hr.
  destruct (Z_le_gt_dec 5 (weekday d)) as [Hwe | Hwd].
  - right. rewrite (weekend_rollback_weekend d Hwe).
    pose proof (weekday_pred d ltac:(lia)) as Hp.
    destruct (Z.eq_dec (weekday d) 5) as [E5 | N5].
    + left. split; [exact E5 |]. apply weekend_rollback_weekday. lia.
    + right. split; [lia |].
      rewrite (weekend_rollback_weekend (d - 1)) by lia.
      pose proof (weekday_pred (d - 1) ltac:(lia)) as Hp2.
      replace (d - 2) with (d - 1 - 1) by lia.
      apply weekend_rollback_weekday. lia.
  - left. split; [lia |]. apply weekend_rollback_weekday. lia.
Qed.

(** C8. [_get_previous_trading_day] returns the latest day before today that
    is not a Saturday or a Sunday: one day back, and further back one day at a
    time while the day is a weekend day. Called on a Monday it returns the
    Friday three days earlier, and its result is never a weekend day. *)
Theorem C8_previous_trading_day (today : Z) :
  let d := _get_previous_trading_day today in
  (weekday (today - 1) < 5 -> d = today - 1) /\
  (weekday (today - 1) = 5 -> d = today - 2) /\
  (weekday (today - 1) = 6 -> d = today - 3) /\
  (d <= today - 1 /\ forall d', d < d' <= today - 1 -> 5 <= weekday d') /\
  (weekday today = 0 -> d = today - 3 /\ weekday d = 4) /\
  weekday d < 5.
Proof.
  unfold _get_previous_trading_day.
  pose proof (weekday_range (today - 1)) as Hr.
  assert (Hmon : weekday today = 0 -> weekday (today - 1) = 6)
    by apply weekday_pred_monday.
  destruct (weekend_rollback_cases (today - 1)) as [[Hw E] | [[Hw E] | [Hw E]]];
    rewrite E; cbv zeta.
  - repeat split; lia.
  - pose proof (weekday_pred (today - 1) ltac:(lia)) as Hp.
    repeat split; try lia.
    intros d' Hd'. replace d' with (today - 1) by lia. lia.
  - pose proof (weekday_pred (today - 1) ltac:(lia)) as Hp.
    pose proof (weekday_pred (today - 1 - 1) ltac:(lia)) as Hp2.
    replace (today - 1 - 2) with (today - 1 - 1 - 1) by lia.
    repeat split; try lia.
    intros d' Hd'.
    destruct (Z.eq_dec d' (today - 1)) as [-> | Hne]; [lia |].
    replace d' with (today - 1 - 1) by lia. lia.
Qed.

(** Monday 2025-11-03 gives Friday 2025-10-31. *)
Lemma C8_previous_trading_day_witness :
  weekday 739558 = 0 /\
  _get_previous_trading_day 739558 = 739558 - 3 /\
  weekday (_get_previous_trading_day 739558) = 4.
Proof.
  assert (H : weekday 739558 = 0) by reflexivity.
  split; [exact H |].
  exact (proj1 (proj2 (proj2 (proj2 (proj2 (C8_previous_trading_day 739558))))) H).
Defined.

(** ** Max pain *)

Section MaxPain.

Local Open Scope Q_scope.

Lemma add_row_pain_spec (strike acc : Q) (row : chain_row) :
  add_row_pain strike acc row == acc + spec_row_pain strike row.
Proof.
  unfold add_row_pain, spec_row_pain. cbv zeta.
  destruct (Qltb (strike_price row) strike), (Qltb strike (strike_price row)); ring.
Qed.

Lemma fold_pain_spec (strike : Q) (rows : list chain_row) (acc : Q) :
  fold_left (add_row_pain strike) rows acc == acc + spec_pain rows strike.
Proof.
  revert acc. unfold spec_pain.
  induction rows as [| row rows IH]; intros acc; cbn [fold_left fold_right].
  - ring.
  - rewrite IH, add_row_pain_spec. ring.
Qed.

Lemma total_pain_at_spec (rows : list chain_row) (strike : Q) :
  total_pain_at rows strike == spec_pain rows strike.
Proof. unfold total_pain_at. rewrite fold_pain_spec. ring. Qed.

(** [min] with a key keeps an element of the list whose key is least. *)
Lemma min_by_pain_In (values : list (Q * Q)) (best : Q * Q) :
  In (min_by_pain best values) (best :: values).
Proof.
  revert best. induction values as [| x rest IH]; intros best; simpl.
  - left. reflexivity.
  - destruct (Qltb (snd x) (snd best)).
    + right. apply IH.
    + destruct (IH best) as [E | H]; [left; exact E | right; right; exact H].
Qed.

Lemma min_by_pain_le_best (values : list (Q * Q)) (best : Q * Q) :
  snd (min_by_pain best values) <= snd best.
Proof.
  revert best. induction values as [| x rest IH]; intros best; simpl.
  - apply Qle_refl.
  - destruct (Qltb (snd x) (snd best)) eqn:E.
    + apply Qltb_true in E. apply Qle_trans with (snd x); [apply IH |].
      apply Qlt_le_weak, E.
    + apply IH.
Qed.

Lemma min_by_pain_least (values : list (Q * Q)) (best x : Q * Q) :
  In x (best :: values) -> snd (min_by_pain best values) <= snd x.
Proof.
  revert best. induction values as [| y rest IH]; intros best Hin.
  - destruct Hin as [<- | []]. apply Qle_refl.
  - simpl. destruct (Qltb (snd y) (snd best)) eqn:E.
    + apply Qltb_true in E.
      destruct Hin as [<- | [<- | Hin]].
      * apply Qle_trans with (snd y); [apply min_by_pain_le_best |].
        apply Qlt_le_weak, E.
      * apply min_by_pain_le_best.
      * apply IH. right. exact Hin.
    + apply Qltb_false in E.
      destruct Hin as [<- | [<- | Hin]].
      * apply min_by_pain_le_best.
      * apply Qle_trans with (snd best); [apply min_by_pain_le_best | exact E].
      * apply IH. right. exact Hin.
Qed.

(** On a non-empty candidate list the result is a candidate of least pain. *)
Lemma max_pain_minimal (rows : list chain_row) (strikes : list Q) :
  strikes <> [] ->
  In (_calculate_max_pain rows strikes) strikes /\
  forall candidate, In candidate strikes ->
    total_pain_at rows (_calculate_max_pain rows strikes)
    <= total_pain_at rows candidate.
Proof.
  intros Hne.
  destruct strikes as [| s0 rest]; [contradiction |].
  set (f := fun strike : Q => (strike, total_pain_at rows strike)).
  set (best := min_by_pain (f s0) (map f rest)).
  change (_calculate_max_pain rows (s0 :: rest)) with (fst best).
  assert (Hin : In best (map f (s0 :: rest))) by apply min_by_pain_In.
  apply in_map_iff in Hin. destruct Hin as [s [Es Hs]].
  split.
  - rewrite <- Es. exact Hs.
  - intros candidate Hc.
    assert (Hleast : snd best <= snd (f candidate)).
    { apply min_by_pain_least. change (In (f candidate) (map f (s0 :: rest))).
      apply in_map, Hc. }
    rewrite <- Es in Hleast |- *. exact Hleast.
Qed.

Lemma spec_row_pain_at_strike (s0 c : Q) (row : chain_row) :
  c == s0 -> strike_price row == s0 -> spec_row_pain c row == 0.
Proof.
  intros Hc Hrow. unfold spec_row_pain.
  destruct (Qltb (strike_price row) c) eqn:E1;
    [apply Qltb_true in E1; exfalso; lra |].
  destruct (Qltb c (strike_price row)) eqn:E2;
    [apply Qltb_true in E2; exfalso; lra |].
  ring.
Qed.

Lemma spec_row_pain_no_oi (c : Q) (row : chain_row) :
  ce_oi row = 0%Z -> pe_oi row = 0%Z -> spec_row_pain c row == 0.
Proof.
  intros Hce Hpe. unfold spec_row_pain. rewrite Hce, Hpe.
  destruct (Qltb (strike_price row) c), (Qltb c (strike_price row));
    change (inject_Z 0) with 0; ring.
Qed.

Lemma spec_row_pain_off_strike (s0 c : Q) (row : chain_row) :
  ~ c == s0 -> strike_price row == s0 ->
  (0 < ce_oi row)%Z -> (0 < pe_oi row)%Z -> 0 < spec_row_pain c row.
Proof.
  intros Hc Hrow Hce Hpe. unfold spec_row_pain.
  rewrite Zlt_Qlt in Hce, Hpe. change (inject_Z 0) with 0 in Hce, Hpe.
  revert Hce Hpe.
  generalize (inject_Z (ce_oi row)), (inject_Z (pe_oi row)).
  intros ce pe Hce Hpe.
  destruct (Qltb (strike_price row) c) eqn:E1;
    destruct (Qltb c (strike_price row)) eqn:E2;
    try apply Qltb_true in E1; try apply Qltb_true in E2;
    try apply Qltb_false in E1; try apply Qltb_false in E2.
  - lra.
  - nra.
  - nra.
  - exfalso. apply Hc. lra.
Qed.

Lemma spec_pain_concentrated_nonneg (s0 c : Q) (rows : list chain_row) :
  (forall row, In row rows ->
     (strike_price row == s0 -> (0 < ce_oi row)%Z /\ (0 < pe_oi row)%Z) /\
     (~ strike_price row == s0 -> ce_oi row = 0%Z /\ pe_oi row = 0%Z)) ->
  0 <= spec_pain rows c /\
  (c == s0 -> spec_pain rows c == 0) /\
  (~ c == s0 -> (exists row, In row rows /\ strike_price row == s0) ->
   0 < spec_pain rows c).
Proof.
  induction rows as [| row rows IH]; intros Hrows.
  - simpl. split; [lra |]. split; [intros _; lra |].
    intros _ [row [[] _]].
  - destruct IH as [IH0 [IHeq IHpos]].
    { intros r Hr. apply Hrows. right. exact Hr. }
    destruct (Hrows row (or_introl eq_refl)) as [Hat Hoff].
    assert (Hrow0 : 0 <= spec_row_pain c row /\
                    (c == s0 -> spec_row_pain c row == 0) /\
                    (~ c == s0 -> strike_price row == s0 -> 0 < spec_row_pain c row)).
    { destruct (Qeq_dec (strike_price row) s0) as [E | N].
      - destruct (Hat E) as [Hce Hpe].
        destruct (Qeq_dec c s0) as [Ec | Nc].
        + pose proof (spec_row_pain_at_strike s0 c row Ec E).
          split; [lra |]. split; [intros _; lra | contradiction].
        + pose proof (spec_row_pain_off_strike s0 c row Nc E Hce Hpe).
          split; [lra |]. split; [contradiction | intros _ _; lra].
      - destruct (Hoff N) as [Hce Hpe].
        pose proof (spec_row_pain_no_oi c row Hce Hpe).
        split; [lra |]. split; [intros _; lra | contradiction]. }
    destruct Hrow0 as [R0 [Req Rpos]].
    simpl. split; [lra |]. split.
    + intros Ec. specialize (IHeq Ec). specialize (Req Ec). lra.
    + intros Nc [r [[<- | Hr] Er]].
      * specialize (Rpos Nc Er). lra.
      * assert (0 < spec_pain rows c) by (apply IHpos; [exact Nc | exists r; auto]).
        lra.
Qed.

End MaxPain.

(** C6. On a non-empty candidate list [_calculate_max_pain] returns a
    candidate strike whose pain, the sum over the rows of
    ce_oi * (candidate - rowStrike) where the candidate is above the row and
    pe_oi * (rowStrike - candidate) where it is below, is least among the
    candidates; and when the open interest is concentrated at one of the
    candidate strikes, that strike is returned. *)
Theorem C6_max_pain (rows : list chain_row) (strikes : list Q) :
  strikes <> [] ->
  let m := _calculate_max_pain rows strikes in
  In m strikes /\
  (forall candidate, In candidate strikes ->
     (spec_pain rows m <= spec_pain rows candidate)%Q) /\
  (forall s0, In s0 strikes -> concentrated_at s0 rows -> (m == s0)%Q).
Proof.
  intros Hne m.
  destruct (max_pain_minimal rows strikes Hne) as [Hin Hmin].
  fold m in Hin, Hmin.
  split; [exact Hin |]. split.
  - intros candidate Hc. rewrite <- !total_pain_at_spec. apply Hmin, Hc.
  - intros s0 Hs0 [Hex Hrows].
    destruct (Qeq_dec m s0) as [E | N]; [exact E | exfalso].
    pose proof (Hmin s0 Hs0) as Hle. rewrite !total_pain_at_spec in Hle.
    destruct (spec_pain_concentrated_nonneg s0 m rows Hrows) as [_ [_ Hpos]].
    destruct (spec_pain_concentrated_nonneg s0 s0 rows Hrows) as [_ [Hzero _]].
    specialize (Hpos N Hex). specialize (Hzero (Qeq_refl s0)).
    apply (Qlt_irrefl 0%Q).
    apply Qlt_le_trans with (spec_pain rows m); [exact Hpos |].
    rewrite <- Hzero. exact Hle.
Qed.

(** Three strikes, all open interest at the middle one. *)
Lemma C6_max_pain_witness :
  let rows := [ {| strike_price := 100 # 1; ce_oi := 0; pe_oi := 0 |};
                {| strike_price := 110 # 1; ce_oi := 5; pe_oi := 7 |};
                {| strike_price := 120 # 1; ce_oi := 0; pe_oi := 0 |} ] in
  let strikes := [100 # 1; 110 # 1; 120 # 1]%Q in
  strikes <> [] /\ In (110 # 1)%Q strikes /\ concentrated_at (110 # 1) rows /\
  (_calculate_max_pain rows strikes == 110 # 1)%Q.
Proof.
  intros rows strikes.
  assert (Hne : strikes <> []) by discriminate.
  assert (Hin : In (110 # 1)%Q strikes) by (simpl; auto).
  assert (Hconc : concentrated_at (110 # 1) rows).
  { split.
    - exists {| strike_price := 110 # 1; ce_oi := 5; pe_oi := 7 |}.
      split; [simpl; auto | reflexivity].
    - intros row [<- | [<- | [<- | []]]]; simpl; split; intros H;
        try (split; reflexivity); try (split; lia);
        try (exfalso; apply H; reflexivity);
        exfalso; unfold Qeq in H; simpl in H; lia. }
  split; [exact Hne |]. split; [exact Hin |]. split; [exact Hconc |].
  exact (proj2 (proj2 (C6_max_pain rows strikes Hne)) (110 # 1)%Q Hin Hconc).
Defined.

(** ** Previous-day store *)

(** C10. While the cooldown is active [get_previous_day_option_ohlc] returns
    the empty map for every token list and every cache content, makes no
    request and changes nothing: the cooldown check comes before the loop
    that serves cached records. *)
Theorem C10_cooldown_hides_cache (kite : KiteConnect) (today now : Z)
    (tokens : list Z) (max_fetch : Z) (w : world) (until : Z) :
  _rate_limit_prevday_cooldown_until (w_self w) = Some until ->
  now < until ->
  get_previous_day_option_ohlc kite today now tokens max_fetch w = (∅, w).
Proof.
  intros Hcd Hlt. unfold get_previous_day_option_ohlc.
  destruct tokens as [| token rest]; [reflexivity |].
  unfold io_bind, get_self, prevday_cooldown_active. rewrite Hcd.
  apply Z.ltb_lt in Hlt. rewrite Hlt. reflexivity.
Qed.

Lemma bind_get_self {A : Type} (k : KiteAPIService -> io A) (w : world) :
  io_bind get_self k w = k (w_self w) w.
Proof. reflexivity. Qed.

Lemma bind_put_self {A : Type} (s : KiteAPIService) (k : unit -> io A) (w : world) :
  io_bind (put_self s) k w = k tt {| w_self := s; w_log := w_log w |}.
Proof. reflexivity. Qed.

Lemma bind_call_historical {A : Type} (kite : KiteConnect)
    (token from_day to_day : Z) (k : hist_response -> io A) (w : world) :
  io_bind (call_historical kite token from_day to_day) k w
  = k (historical_data kite (w_log w) token from_day to_day)
      (logged (EvHistorical token from_day to_day) w).
Proof. reflexivity. Qed.

Section PrevDayLoop.

Variable kite : KiteConnect.
Variables prev fetch_from fetch_to now max_fetch : Z.

Local Abbreviation loop :=
  (prevday_loop kite prev fetch_from fetch_to now max_fetch).
Local Abbreviation request token := (EvHistorical token fetch_from fetch_to).
Local Abbreviation answer w token :=
  (historical_data kite (w_log w) token fetch_from fetch_to).

(** What one turn of the loop does with its token. *)
Inductive turn (token : Z) (rest : list Z) (result : gmap Z prevday_rec)
    (count : Z) (w : world) : Prop :=
| turn_cached (rec : prevday_rec) :
    cached_for prev (cache_of w) token = Some rec ->
    loop (token :: rest) result count w
    = loop rest (<[token := rec]> result) count w ->
    turn token rest result count w
| turn_deferred :
    cached_for prev (cache_of w) token = None ->
    max_fetch <= count ->
    loop (token :: rest) result count w = loop rest result count w ->
    turn token rest result count w
| turn_stored (candles : list candle) (chosen : candle) :
    cached_for prev (cache_of w) token = None ->
    count < max_fetch ->
    answer w token = HistCandles candles ->
    choose_candle prev (rev (sorted_by_date candles)) = Some chosen ->
    loop (token :: rest) result count w
    = loop rest (<[token := record_of prev chosen]> result) (count + 1)
        (stored token (record_of prev chosen) (logged (request token) w)) ->
    turn token rest result count w
| turn_no_candle (candles : list candle) :
    cached_for prev (cache_of w) token = None ->
    count < max_fetch ->
    answer w token = HistCandles candles ->
    choose_candle prev (rev (sorted_by_date candles)) = None ->
    loop (token :: rest) result count w
    = loop rest result count (logged (request token) w) ->
    turn token rest result count w
| turn_error (msg : string) :
    cached_for prev (cache_of w) token = None ->
    count < max_fetch ->
    answer w token = HistRaise msg ->
    is_too_many_requests msg = false ->
    loop (token :: rest) result count w
    = loop rest result count (logged (request token) w) ->
    turn token rest result count w
| turn_rate_limited (msg : string) :
    cached_for prev (cache_of w) token = None ->
    count < max_fetch ->
    answer w token = HistRaise msg ->
    is_too_many_requests msg = true ->
    loop (token :: rest) result count w
    = (result, cooled (now + timedelta_seconds 180) (logged (request token) w)) ->
    turn token rest result count w.

Lemma loop_turn (token : Z) (rest : list Z) (result : gmap Z prevday_rec)
    (count : Z) (w : world) :
  turn token rest result count w.
Proof.
  destruct (cached_for prev (cache_of w) token) as [rec |] eqn:Hc.
  { apply (turn_cached _ _ _ _ _ rec Hc).
    cbn [prevday_loop]. rewrite bind_get_self.
    unfold cache_of in Hc. rewrite Hc. reflexivity. }
  destruct (Z.leb_spec max_fetch count) as [Hle | Hlt].
  { apply (turn_deferred _ _ _ _ _ Hc Hle).
    cbn [prevday_loop]. rewrite bind_get_self.
    unfold cache_of in Hc. rewrite Hc.
    rewrite (proj2 (Z.leb_le _ _) Hle). reflexivity. }
  assert (Hloop : loop (token :: rest) result count w
    = match answer w token with
      | HistCandles candles =>
        match choose_candle prev (rev (sorted_by_date candles)) with
        | Some chosen =>
          loop rest (<[token := record_of prev chosen]> result) (count + 1)
            (stored token (record_of prev chosen) (logged (request token) w))
        | None => loop rest result count (logged (request token) w)
        end
      | HistRaise msg =>
        if is_too_many_requests msg
        then (result, cooled (now + timedelta_seconds 180)
                        (logged (request token) w))
        else loop rest result count (logged (request token) w)
      end).
  { cbn [prevday_loop]. rewrite bind_get_self.
    unfold cache_of in Hc. rewrite Hc.
    rewrite (proj2 (Z.leb_gt _ _) Hlt).
    rewrite bind_call_historical.
    destruct (answer w token) as [candles | msg]; [| destruct (is_too_many_requests msg)];
      try reflexivity.
    destruct (choose_candle prev (rev (sorted_by_date candles))); reflexivity. }
  destruct (answer w token) as [candles | msg] eqn:Ha.
  - destruct (choose_candle prev (rev (sorted_by_date candles)))
      as [chosen |] eqn:Hch.
    + exact (turn_stored _ _ _ _ _ candles chosen Hc Hlt Ha Hch Hloop).
    + exact (turn_no_candle _ _ _ _ _ candles Hc Hlt Ha Hch Hloop).
  - destruct (is_too_many_requests msg) eqn:Hrl.
    + exact (turn_rate_limited _ _ _ _ _ msg Hc Hlt Ha Hrl Hloop).
    + exact (turn_error _ _ _ _ _ msg Hc Hlt Ha Hrl Hloop).
Qed.

(** A rate-limit answer ends the loop at once and engages the cooldown: in
    the requests made by the loop, a request answered by a rate-limit error
    is the last one. *)
Lemma loop_rate_limit_last (tokens : list Z) :
  forall (result : gmap Z prevday_rec) (count : Z) (w : world),
  exists evs,
    w_log (snd (loop tokens result count w)) = w_log w ++ evs /\
    forall before token f t after msg,
      evs = before ++ EvHistorical token f t :: after ->
      historical_data kite (w_log w ++ before) token f t = HistRaise msg ->
      is_too_many_requests msg = true ->
      after = [] /\
      cooldown_of (snd (loop tokens result count w))
      = Some (now + timedelta_seconds 180).
Proof.
  induction tokens as [| token rest IH]; intros result count w.
  - exists []. split; [symmetry; apply app_nil_r |].
    intros [| b before] tk f t after msg E; discriminate E.
  - assert (Hnext : forall result' count' w1,
      w_log w1 = w_log w ++ [request token] ->
      (forall msg, answer w token = HistRaise msg ->
                   is_too_many_requests msg = false) ->
      loop (token :: rest) result count w = loop rest result' count' w1 ->
      exists evs,
        w_log (snd (loop (token :: rest) result count w)) = w_log w ++ evs /\
        forall before tk f t after msg,
          evs = before ++ EvHistorical tk f t :: after ->
          historical_data kite (w_log w ++ before) tk f t = HistRaise msg ->
          is_too_many_requests msg = true ->
          after = [] /\
          cooldown_of (snd (loop (token :: rest) result count w))
          = Some (now + timedelta_seconds 180)).
    { intros result' count' w1 Hlog Hans Hloop. rewrite Hloop.
      destruct (IH result' count' w1) as [evs [Hevs Hlast]].
      exists (request token :: evs). split.
      - rewrite Hevs, Hlog, <- app_assoc. reflexivity.
      - intros [| b before] tk f t after msg E Hraise Hrl.
        + injection E as <- <- <- <-. rewrite app_nil_r in Hraise.
          rewrite (Hans msg Hraise) in Hrl. discriminate Hrl.
        + injection E as <- E.
          apply (Hlast before tk f t after msg E); [| exact Hrl].
          rewrite Hlog, <- app_assoc. exact Hraise. }
    destruct (loop_turn token rest result count w)
      as [rec Hc Hloop | Hc Hle Hloop | candles chosen Hc Hlt Ha Hch Hloop
          | candles Hc Hlt Ha Hch Hloop | msg Hc Hlt Ha Hrl Hloop
          | msg Hc Hlt Ha Hrl Hloop].
    + rewrite Hloop. apply IH.
    + rewrite Hloop. apply IH.
    + refine (Hnext _ _ _ _ _ Hloop); [reflexivity |].
      intros msg Hm. rewrite Ha in Hm. discriminate Hm.
    + refine (Hnext _ _ _ _ _ Hloop); [reflexivity |].
      intros msg Hm. rewrite Ha in Hm. discriminate Hm.
    + refine (Hnext _ _ _ _ _ Hloop); [reflexivity |].
      intros msg' Hm. rewrite Ha in Hm. injection Hm as <-. exact Hrl.
    + rewrite Hloop. exists [request token]. split; [reflexivity |].
      intros [| b before] tk f t after msg' E _ _.
      * injection E as _ _ _ <-. split; reflexivity.
      * injection E as _ E. destruct before; discriminate E.
Qed.

(** Reading the cache after a record was stored. *)
Lemma cached_for_insert (cache : gmap Z prevday_rec) (token t : Z)
    (chosen : candle) :
  cached_for prev (<[token := record_of prev chosen]> cache) t
  = if decide (token = t) then Some (record_of prev chosen)
    else cached_for prev cache t.
Proof.
  unfold cached_for. destruct (decide (token = t)) as [<- | Hne].
  - rewrite lookup_insert_eq. simpl. rewrite Z.eqb_refl. reflexivity.
  - rewrite lookup_insert_ne by exact Hne. reflexivity.
Qed.

(** The cache discipline of the loop, from a state whose cooldown is not the
    one a rate-limit error would set and whose [result] holds cached records
    only: only tokens without a cached record of the day are requested;
    cached records of the day stay; every returned record is a cached one;
    and unless the cooldown was engaged, every cached token of the list is
    returned. *)
Lemma loop_cache (tokens : list Z) :
  forall (result : gmap Z prevday_rec) (count : Z) (w : world),
  cooldown_of w <> Some (now + timedelta_seconds 180) ->
  (forall t rec, result !! t = Some rec ->
                 cached_for prev (cache_of w) t = Some rec) ->
  let out := loop tokens result count w in
  exists evs,
    w_log (snd out) = w_log w ++ evs /\
    (forall t f d, In (EvHistorical t f d) evs ->
                   cached_for prev (cache_of w) t = None) /\
    (forall t rec, cached_for prev (cache_of w) t = Some rec ->
                   cached_for prev (cache_of (snd out)) t = Some rec) /\
    (forall t rec, fst out !! t = Some rec ->
                   cached_for prev (cache_of (snd out)) t = Some rec) /\
    (cooldown_of (snd out) = cooldown_of w \/
     cooldown_of (snd out) = Some (now + timedelta_seconds 180)) /\
    (cooldown_of (snd out) = cooldown_of w ->
     forall t rec, cached_for prev (cache_of w) t = Some rec ->
                   In t tokens \/ result !! t = Some rec ->
                   fst out !! t = Some rec).
Proof.
  induction tokens as [| token rest IH]; intros result count w Hcd Hres out.
  - exists []. subst out. cbn [prevday_loop io_ret fst snd].
    split; [symmetry; apply app_nil_r |].
    split; [intros t f d []|].
    split; [auto |]. split; [exact Hres |]. split; [left; reflexivity |].
    intros _ t rec _ [[] | H]. exact H.
  - assert (Hskip : forall w1,
      w_self w1 = w_self w -> w_log w1 = w_log w ++ [request token] ->
      cached_for prev (cache_of w) token = None ->
      loop (token :: rest) result count w = loop rest result count w1 ->
      exists evs,
        w_log (snd out) = w_log w ++ evs /\
        (forall t f d, In (EvHistorical t f d) evs ->
                       cached_for prev (cache_of w) t = None) /\
        (forall t rec, cached_for prev (cache_of w) t = Some rec ->
                       cached_for prev (cache_of (snd out)) t = Some rec) /\
        (forall t rec, fst out !! t = Some rec ->
                       cached_for prev (cache_of (snd out)) t = Some rec) /\
        (cooldown_of (snd out) = cooldown_of w \/
         cooldown_of (snd out) = Some (now + timedelta_seconds 180)) /\
        (cooldown_of (snd out) = cooldown_of w ->
         forall t rec, cached_for prev (cache_of w) t = Some rec ->
                       In t (token :: rest) \/ result !! t = Some rec ->
                       fst out !! t = Some rec)).
    { intros w1 Hself Hlog Hc Hloop. subst out. rewrite Hloop.
      assert (Hcache : cache_of w1 = cache_of w)
        by (unfold cache_of; rewrite Hself; reflexivity).
      assert (Hcool : cooldown_of w1 = cooldown_of w)
        by (unfold cooldown_of; rewrite Hself; reflexivity).
      destruct (IH result count w1) as [evs [Hevs [Hreq [Hkeep [Hout [Hcd' Hall]]]]]].
      { rewrite Hcool. exact Hcd. }
      { rewrite Hcache. exact Hres. }
      rewrite Hcache in Hreq, Hkeep. rewrite Hcool in Hcd', Hall.
      exists (request token :: evs).
      split; [rewrite Hevs, Hlog, <- app_assoc; reflexivity |].
      split.
      { intros t f d [E | Hin]; [injection E as <- _ _; exact Hc | eauto]. }
      split; [exact Hkeep |]. split; [exact Hout |]. split; [exact Hcd' |].
      intros Hsame t rec Ht [[<- | Hin] | Hr].
      - rewrite Hc in Ht. discriminate Ht.
      - apply (Hall Hsame t rec); [rewrite Hcache; exact Ht | left; exact Hin].
      - apply (Hall Hsame t rec); [rewrite Hcache; exact Ht | right; exact Hr]. }
    destruct (loop_turn token rest result count w)
      as [rec0 Hc Hloop | Hc Hle Hloop | candles chosen Hc Hlt Ha Hch Hloop
          | candles Hc Hlt Ha Hch Hloop | msg Hc Hlt Ha Hrl Hloop
          | msg Hc Hlt Ha Hrl Hloop].
    + (* served from the cache *)
      subst out. rewrite Hloop.
      destruct (IH (<[token := rec0]> result) count w Hcd)
        as [evs [Hevs [Hreq [Hkeep [Hout [Hcd' Hall]]]]]].
      { intros t rec Ht. destruct (decide (token = t)) as [<- | Hne].
        - rewrite lookup_insert_eq in Ht. injection Ht as <-. exact Hc.
        - rewrite lookup_insert_ne in Ht by exact Hne. apply Hres, Ht. }
      exists evs. repeat (split; [assumption |]).
      intros Hsame t rec Ht Hin. apply (Hall Hsame t rec Ht).
      destruct (decide (token = t)) as [<- | Hne].
      * right. rewrite lookup_insert_eq. rewrite Hc in Ht. exact Ht.
      * destruct Hin as [[E | Hin] | Hr]; [contradiction | left; exact Hin |].
        right. rewrite lookup_insert_ne by exact Hne. exact Hr.
    + (* deferred by the fetch cap *)
      subst out. rewrite Hloop.
      destruct (IH result count w Hcd Hres)
        as [evs [Hevs [Hreq [Hkeep [Hout [Hcd' Hall]]]]]].
      exists evs. repeat (split; [assumption |]).
      intros Hsame t rec Ht [[<- | Hin] | Hr].
      * (* a cached token is never deferred *)
        rewrite Hc in Ht. discriminate Ht.
      * apply (Hall Hsame t rec Ht). left. exact Hin.
      * apply (Hall Hsame t rec Ht). right. exact Hr.
    + (* fetched and stored *)
      subst out. rewrite Hloop.
      set (rec1 := record_of prev chosen).
      set (w1 := stored token rec1 (logged (request token) w)).
      assert (Hcache : forall t, cached_for prev (cache_of w1) t
                = if decide (token = t) then Some rec1
                  else cached_for prev (cache_of w) t)
        by (intros t; apply cached_for_insert).
      destruct (IH (<[token := rec1]> result) (count + 1) w1)
        as [evs [Hevs [Hreq [Hkeep [Hout [Hcd' Hall]]]]]].
      { exact Hcd. }
      { intros t rec Ht. rewrite Hcache.
        destruct (decide (token = t)) as [<- | Hne].
        - rewrite lookup_insert_eq in Ht. exact Ht.
        - rewrite lookup_insert_ne in Ht by exact Hne. apply Hres, Ht. }
      assert (Hmono : forall t rec, cached_for prev (cache_of w) t = Some rec ->
                cached_for prev (cache_of w1) t = Some rec).
      { intros t rec Ht. rewrite Hcache.
        destruct (decide (token = t)) as [<- | Hne]; [| exact Ht].
        rewrite Hc in Ht. discriminate Ht. }
      exists (request token :: evs).
      split; [rewrite Hevs; unfold w1; cbn [stored logged w_log];
              rewrite <- app_assoc; reflexivity |].
      split.
      { intros t f d [E | Hin]; [injection E as <- _ _; exact Hc |].
        specialize (Hreq t f d Hin).
        destruct (cached_for prev (cache_of w) t) as [rec |] eqn:Ht;
          [| reflexivity].
        rewrite (Hmono t rec Ht) in Hreq. discriminate Hreq. }
      split; [intros t rec Ht; apply Hkeep, Hmono, Ht |].
      split; [exact Hout |]. split; [exact Hcd' |].
      intros Hsame t rec Ht Hin. apply (Hall Hsame t rec (Hmono t rec Ht)).
      destruct (decide (token = t)) as [<- | Hne];
        [rewrite Hc in Ht; discriminate Ht |].
      destruct Hin as [[E | Hin] | Hr]; [contradiction | left; exact Hin |].
      right. rewrite lookup_insert_ne by exact Hne. exact Hr.
    + refine (Hskip _ _ _ Hc Hloop); reflexivity.
    + refine (Hskip _ _ _ Hc Hloop); reflexivity.
    + (* rate limited: the loop stops *)
      subst out. rewrite Hloop. cbn [fst snd].
      exists [request token].
      split; [reflexivity |].
      split; [intros t f d [E | []]; injection E as <- _ _; exact Hc |].
      split; [auto |]. split; [exact Hres |].
      split; [right; reflexivity |].
      intros Hsame. exfalso. apply Hcd. rewrite <- Hsame. reflexivity.
Qed.

(** Every returned token comes from the list or was in [result] before. *)
Lemma loop_result_keys (tokens : list Z) :
  forall (result : gmap Z prevday_rec) (count : Z) (w : world) (t : Z),
  is_Some (fst (loop tokens result count w) !! t) ->
  In t tokens \/ is_Some (result !! t).
Proof.
  induction tokens as [| token rest IH]; intros result count w t Ht.
  - right. exact Ht.
  - assert (Hins : forall rec,
      In t rest \/ is_Some (<[token := rec]> result !! t) ->
      In t (token :: rest) \/ is_Some (result !! t)).
    { intros rec [Hin | Hs]; [left; right; exact Hin |].
      destruct (decide (token = t)) as [<- | Hne]; [left; left; reflexivity |].
      rewrite lookup_insert_ne in Hs by exact Hne. right. exact Hs. }
    assert (Hsame : In t rest \/ is_Some (result !! t) ->
                    In t (token :: rest) \/ is_Some (result !! t))
      by (intros [Hin | Hs]; [left; right; exact Hin | right; exact Hs]).
    destruct (loop_turn token rest result count w)
      as [rec0 Hc Hloop | Hc Hle Hloop | candles chosen Hc Hlt Ha Hch Hloop
          | candles Hc Hlt Ha Hch Hloop | msg Hc Hlt Ha Hrl Hloop
          | msg Hc Hlt Ha Hrl Hloop];
      rewrite Hloop in Ht.
    + apply (Hins rec0), (IH _ _ _ _ Ht).
    + apply Hsame, (IH _ _ _ _ Ht).
    + apply (Hins (record_of prev chosen)), (IH _ _ _ _ Ht).
    + apply Hsame, (IH _ _ _ _ Ht).
    + apply Hsame, (IH _ _ _ _ Ht).
    + right. exact Ht.
Qed.

End PrevDayLoop.

(** The method is the loop, unless the token list is empty or the cooldown
    is active. *)
Lemma get_previous_day_option_ohlc_unfold (kite : KiteConnect) (today now : Z)
    (tokens : list Z) (max_fetch : Z) (w : world) :
  get_previous_day_option_ohlc kite today now tokens max_fetch w
  = match tokens with
    | [] => (∅, w)
    | _ =>
      if prevday_cooldown_active now (w_self w) then (∅, w)
      else prevday_loop kite (_get_previous_trading_day today)
             (_get_previous_trading_day today - 7) today now max_fetch
             tokens ∅ 0 w
    end.
Proof.
  unfold get_previous_day_option_ohlc. destruct tokens as [| token rest];
    [reflexivity |].
  rewrite bind_get_self. destruct (prevday_cooldown_active now (w_self w));
    reflexivity.
Qed.

Lemma timedelta_180_in_range (now : Z) :
  timedelta_seconds 120 <= (now + timedelta_seconds 180) - now
  <= timedelta_seconds 180.
Proof. unfold timedelta_seconds. lia. Qed.

(** C3. In one call of [get_previous_day_option_ohlc], a request answered by
    an error whose message contains 'Too many requests' is the last request
    of the call, the cooldown is then set to expire between 120 and 180
    seconds after [now], and the call returns its map all the same; an error
    with any other message leaves the result, the cache and the fetch count as
    they are and the loop goes on with the next token. *)
Theorem C3_rate_limit_aborts_batch (kite : KiteConnect) (today now : Z)
    (tokens : list Z) (max_fetch : Z) (w : world) :
  let out := get_previous_day_option_ohlc kite today now tokens max_fetch w in
  (exists evs,
     w_log (snd out) = w_log w ++ evs /\
     forall before token f t after msg,
       evs = before ++ EvHistorical token f t :: after ->
       historical_data kite (w_log w ++ before) token f t = HistRaise msg ->
       is_too_many_requests msg = true ->
       after = [] /\
       exists until,
         cooldown_of (snd out) = Some until /\
         timedelta_seconds 120 <= until - now <= timedelta_seconds 180) /\
  (forall prev fetch_from fetch_to token rest result count w0 msg,
     cached_for prev (cache_of w0) token = None ->
     count < max_fetch ->
     historical_data kite (w_log w0) token fetch_from fetch_to = HistRaise msg ->
     is_too_many_requests msg = false ->
     prevday_loop kite prev fetch_from fetch_to now max_fetch (token :: rest)
       result count w0
     = prevday_loop kite prev fetch_from fetch_to now max_fetch rest
         result count (logged (EvHistorical token fetch_from fetch_to) w0)).
Proof.
  intros out. split.
  - assert (Hnone : (∅ : gmap Z prevday_rec, w) = out ->
      exists evs, w_log (snd out) = w_log w ++ evs /\
        forall before token f t after msg,
          evs = before ++ EvHistorical token f t :: after ->
          historical_data kite (w_log w ++ before) token f t = HistRaise msg ->
          is_too_many_requests msg = true ->
          after = [] /\
          exists until,
            cooldown_of (snd out) = Some until /\
            timedelta_seconds 120 <= until - now <= timedelta_seconds 180).
    { intros <-. exists []. split; [symmetry; apply app_nil_r |].
      intros [| b before] token f t after msg E; discriminate E. }
    subst out. rewrite get_previous_day_option_ohlc_unfold in *.
    destruct tokens as [| token0 rest0]; [apply Hnone; reflexivity |].
    destruct (prevday_cooldown_active now (w_self w));
      [apply Hnone; reflexivity |].
    destruct (loop_rate_limit_last kite (_get_previous_trading_day today)
                (_get_previous_trading_day today - 7) today now max_fetch
                (token0 :: rest0) ∅ 0 w) as [evs [Hevs Hlast]].
    exists evs. split; [exact Hevs |].
    intros before token f t after msg E Hraise Hrl.
    destruct (Hlast before token f t after msg E Hraise Hrl) as [Hafter Hcd].
    split; [exact Hafter |].
    exists (now + timedelta_seconds 180). split; [exact Hcd |].
    apply timedelta_180_in_range.
  - intros prev fetch_from fetch_to token rest result count w0 msg Hc Hlt Ha Hrl.
    destruct (loop_turn kite prev fetch_from fetch_to now max_fetch
                token rest result count w0)
      as [rec0 Hc' Hloop | Hc' Hle Hloop | candles chosen Hc' Hlt' Ha' Hch Hloop
          | candles Hc' Hlt' Ha' Hch Hloop | msg' Hc' Hlt' Ha' Hrl' Hloop
          | msg' Hc' Hlt' Ha' Hrl' Hloop].
    + rewrite Hc in Hc'. discriminate Hc'.
    + lia.
    + rewrite Ha in Ha'. discriminate Ha'.
    + rewrite Ha in Ha'. discriminate Ha'.
    + exact Hloop.
    + rewrite Ha in Ha'. injection Ha' as <-. rewrite Hrl in Hrl'.
      discriminate Hrl'.
Qed.

(** Tokens 1, 2, 3 with token 2 rate-limited: token 3 is never requested. *)
Lemma C3_rate_limit_aborts_batch_witness :
  let out := get_previous_day_option_ohlc throttled_kite 739558 0 [1; 2; 3] 60
               fresh_world in
  w_log (snd out) = [EvHistorical 1 739548 739558; EvHistorical 2 739548 739558] /\
  exists until,
    cooldown_of (snd out) = Some until /\
    timedelta_seconds 120 <= until - 0 <= timedelta_seconds 180.
Proof.
  intros out.
  destruct (proj1 (C3_rate_limit_aborts_batch throttled_kite 739558 0 [1; 2; 3]
                     60 fresh_world)) as [evs [Hevs Hlast]].
  fold out in Hevs, Hlast.
  assert (Hlog : w_log (snd out)
                 = [EvHistorical 1 739548 739558; EvHistorical 2 739548 739558])
    by (vm_compute; reflexivity).
  split; [exact Hlog |].
  rewrite Hlog in Hevs. cbn [w_log fresh_world app] in Hevs.
  refine (proj2 (Hlast [EvHistorical 1 739548 739558] 2 739548 739558 []
                   "Too many requests"%string _ _ _)).
  - symmetry. exact Hevs.
  - reflexivity.
  - reflexivity.
Defined.

(** Token 1 is cached for the day, the cooldown has 179 seconds to run. *)
Lemma C10_cooldown_hides_cache_witness :
  let rec := {| for_day := 739555; prev_open := Some (4 # 1)%Q;
                prev_high := Some (6 # 1)%Q; prev_low := Some (3 # 1)%Q;
                prev_close := Some (5 # 1)%Q |} in
  let self := set_prevday_cooldown
                (set_prev_day_cache init_service {[ 1 := rec ]})
                (Some 180000000) in
  let w := {| w_self := self; w_log := [] |} in
  cached_for (_get_previous_trading_day 739558) (cache_of w) 1 = Some rec /\
  get_previous_day_option_ohlc throttled_kite 739558 1000000 [1] 60 w = (∅, w).
Proof.
  intros rec self w. split; [vm_compute; reflexivity |].
  apply (C10_cooldown_hides_cache throttled_kite 739558 1000000 [1] 60 w 180000000).
  - reflexivity.
  - reflexivity.
Defined.

Lemma cooldown_inactive_ne (now : Z) (self : KiteAPIService) :
  prevday_cooldown_active now self = false ->
  _rate_limit_prevday_cooldown_until self <> Some (now + timedelta_seconds 180).
Proof.
  unfold prevday_cooldown_active, timedelta_seconds. intros Hin Heq.
  rewrite Heq in Hin. apply Z.ltb_ge in Hin. lia.
Qed.

(** C9, as the code has it. Of two successive calls for the same previous
    trading day and the same tokens, the second makes no request for a token
    whose record the first call returned (stored or served), and, unless the
    second call is stopped by the cooldown (active when it starts, or engaged
    by a rate-limit error during it), it returns that same record. *)
Theorem C9_second_call_uses_cache (kite : KiteConnect)
    (today1 today2 now1 now2 : Z) (tokens : list Z) (max1 max2 : Z) (w : world) :
  _get_previous_trading_day today2 = _get_previous_trading_day today1 ->
  let call1 := get_previous_day_option_ohlc kite today1 now1 tokens max1 w in
  let call2 := get_previous_day_option_ohlc kite today2 now2 tokens max2
                 (snd call1) in
  forall token rec,
    fst call1 !! token = Some rec ->
    exists evs,
      w_log (snd call2) = w_log (snd call1) ++ evs /\
      (forall f d, ~ In (EvHistorical token f d) evs) /\
      (prevday_cooldown_active now2 (w_self (snd call1)) = false ->
       cooldown_of (snd call2) = cooldown_of (snd call1) ->
       fst call2 !! token = Some rec).
Proof.
  intros Hday call1 call2 token rec Hrec.
  set (prev := _get_previous_trading_day today1) in *.
  (* the first call ran its loop and left the record in the cache *)
  assert (H1 : In token tokens /\
               cached_for prev (cache_of (snd call1)) token = Some rec).
  { subst call1 call2. rewrite get_previous_day_option_ohlc_unfold in Hrec |- *.
    destruct tokens as [| token0 rest0];
      [cbn [fst] in Hrec; rewrite lookup_empty in Hrec; discriminate Hrec |].
    destruct (prevday_cooldown_active now1 (w_self w)) eqn:Hact;
      [cbn [fst] in Hrec; rewrite lookup_empty in Hrec; discriminate Hrec |].
    fold prev in Hrec |- *. split.
    - destruct (loop_result_keys kite prev (prev - 7) today1 now1 max1
                  (token0 :: rest0) ∅ 0 w token) as [Hin | Hs].
      + rewrite Hrec. eexists. reflexivity.
      + exact Hin.
      + rewrite lookup_empty in Hs. destruct Hs as [x Hx]. discriminate Hx.
    - destruct (loop_cache kite prev (prev - 7) today1 now1 max1
                  (token0 :: rest0) ∅ 0 w) as [evs [_ [_ [_ [Hout _]]]]].
      + apply cooldown_inactive_ne, Hact.
      + intros t r Ht. rewrite lookup_empty in Ht. discriminate Ht.
      + apply Hout, Hrec. }
  destruct H1 as [Hin Hcached].
  subst call2. rewrite get_previous_day_option_ohlc_unfold.
  destruct tokens as [| token0 rest0]; [destruct Hin |].
  destruct (prevday_cooldown_active now2 (w_self (snd call1))) eqn:Hact.
  - exists []. cbn [fst snd]. split; [symmetry; apply app_nil_r |].
    split; [intros f d [] |]. intros Hfalse. discriminate Hfalse.
  - rewrite Hday. fold prev.
    destruct (loop_cache kite prev (prev - 7) today2 now2 max2
                (token0 :: rest0) ∅ 0 (snd call1))
      as [evs [Hevs [Hreq [_ [_ [_ Hall]]]]]].
    + apply cooldown_inactive_ne, Hact.
    + intros t r Ht. rewrite lookup_empty in Ht. discriminate Ht.
    + exists evs. split; [exact Hevs |]. split.
      * intros f d Hev. rewrite (Hreq token f d Hev) in Hcached.
        discriminate Hcached.
      * intros _ Hsame. apply (Hall Hsame token rec Hcached). left. exact Hin.
Qed.

(** Two calls one second apart: token 1 is served from the cache. *)
Lemma C9_second_call_uses_cache_witness :
  let call1 := get_previous_day_option_ohlc patchy_kite 739558 0 [1; 2] 60
                 fresh_world in
  let call2 := get_previous_day_option_ohlc patchy_kite 739558 1000000 [1; 2] 60
                 (snd call1) in
  fst call1 !! 1 = Some friday_rec /\
  fst call2 !! 1 = Some friday_rec /\
  exists evs, w_log (snd call2) = w_log (snd call1) ++ evs /\
              forall f d, ~ In (EvHistorical 1 f d) evs.
Proof.
  intros call1 call2.
  assert (H1 : fst call1 !! 1 = Some friday_rec) by (vm_compute; reflexivity).
  destruct (C9_second_call_uses_cache patchy_kite 739558 739558 0 1000000
              [1; 2] 60 60 fresh_world eq_refl 1 friday_rec H1)
    as [evs [Hevs [Hreq Hserved]]].
  fold call1 in Hevs, Hserved. fold call2 in Hevs, Hserved.
  split; [exact H1 |]. split.
  - apply Hserved; vm_compute; reflexivity.
  - exists evs. split; [exact Hevs | exact Hreq].
Defined.

(** Two successive calls for the same day and tokens may request a token
    twice: a token whose answer held no usable candle is not remembered. And a
    record stored by the first call is not served by the second one when the
    first call ended on a rate-limit error. *)
Lemma C9_refetch_counterexample :
  (let call1 := get_previous_day_option_ohlc patchy_kite 739558 0 [1; 2] 60
                  fresh_world in
   let call2 := get_previous_day_option_ohlc patchy_kite 739558 1000000 [1; 2]
                  60 (snd call1) in
   fetches_of 2 (w_log (snd call2)) = 2%nat) /\
  (let call1 := get_previous_day_option_ohlc throttled_kite 739558 0 [1; 2] 60
                  fresh_world in
   let call2 := get_previous_day_option_ohlc throttled_kite 739558 1000000
                  [1; 2] 60 (snd call1) in
   cache_of (snd call1) !! 1 = Some friday_rec /\
   fst call1 !! 1 = Some friday_rec /\
   fst call2 !! 1 = None).
Proof. vm_compute. repeat split; reflexivity. Qed.

(** ** Quote batching *)

Lemma bind_call_quote {A : Type} (kite : KiteConnect) (tokens : list Z)
    (k : quote_response -> io A) (w : world) :
  io_bind (call_quote kite tokens) k w
  = k (kite_quote kite (w_log w) tokens) (logged (EvQuote tokens) w).
Proof. reflexivity. Qed.

Lemma bind_sleep {A : Type} (seconds : Q) (k : unit -> io A) (w : world) :
  io_bind (sleep seconds) k w = k tt (logged (EvSleep seconds) w).
Proof. reflexivity. Qed.

(** What one batch does, by the first answer. *)
Lemma fetch_quote_batch_unfold (kite : KiteConnect) (batch : list Z)
    (all_quotes : gmap Z quote) (w : world) :
  fetch_quote_batch kite batch all_quotes w
  = match kite_quote kite (w_log w) batch with
    | QuoteRaise msg =>
      if is_quote_rate_limit msg then
        (update_quotes all_quotes
           (kite_quote kite (w_log w ++ [EvQuote batch; EvSleep 1]) batch),
         {| w_self := w_self w;
            w_log := w_log w ++ [EvQuote batch; EvSleep 1; EvQuote batch;
                                 EvSleep (15 # 100)] |})
      else
        (all_quotes,
         {| w_self := w_self w;
            w_log := w_log w ++ [EvQuote batch; EvSleep (15 # 100)] |})
    | r =>
      (update_quotes all_quotes r,
       {| w_self := w_self w;
          w_log := w_log w ++ [EvQuote batch; EvSleep (15 # 100)] |})
    end.
Proof.
  unfold fetch_quote_batch. rewrite bind_call_quote.
  destruct (kite_quote kite (w_log w) batch) as [quotes | | msg] eqn:Hq.
  - unfold io_bind, io_ret, sleep, emit, logged. cbn [w_self w_log].
    rewrite <- app_assoc. reflexivity.
  - unfold io_bind, io_ret, sleep, emit, logged. cbn [w_self w_log].
    rewrite <- app_assoc. reflexivity.
  - destruct (is_quote_rate_limit msg).
    + unfold io_bind, io_ret, sleep, emit, call_quote, logged.
      cbn [w_self w_log]. rewrite <- !app_assoc. reflexivity.
    + unfold io_bind, io_ret, sleep, emit, logged. cbn [w_self w_log].
      rewrite <- app_assoc. reflexivity.
Qed.






(** ** Black-Scholes formulas *)

Section Greeks.

Import GreeksCalculator.
Local Open Scope R_scope.

Lemma gauss_half_mass_ub (x : R) : 0 <= x -> gauss_area x <= gauss_half_mass.
Proof.
  intros Hx. unfold gauss_half_mass.
  destruct (completeness _ _ _) as [m [Hub Hleast]]. simpl.
  apply Hub. exists x. split; [exact Hx | reflexivity].
Qed.

Lemma gauss_half_mass_pos : 0 < gauss_half_mass.
Proof.
  apply Rlt_le_trans with (gauss_area 1).
  - apply Rlt_le_trans with (exp (- / 2)); [apply exp_pos | apply gauss_area_1].
  - apply gauss_half_mass_ub. lra.
Qed.

Lemma gauss_share_range (x : R) :
  0 <= x -> 0 <= gauss_area x / (2 * gauss_half_mass) <= / 2.
Proof.
  intros Hx.
  pose proof gauss_half_mass_pos as Hm.
  pose proof (gauss_half_mass_ub x Hx) as Hu.
  pose proof (gauss_area_ge x Hx) as Hl.
  split.
  - apply Rmult_le_pos; [exact Hl |]. left. apply Rinv_0_lt_compat. lra.
  - apply Rmult_le_reg_r with (2 * gauss_half_mass); [lra |].
    unfold Rdiv. rewrite Rmult_assoc, Rinv_l by lra. lra.
Qed.

(** The distribution function takes its values between 0 and 1. *)
Lemma norm_cdf_range (x : R) : 0 <= norm_cdf x <= 1.
Proof.
  unfold norm_cdf. destruct (Rle_dec 0 x) as [Hx | Hx].
  - pose proof (gauss_share_range x Hx). lra.
  - pose proof (gauss_share_range (- x) ltac:(lra)). lra.
Qed.


Lemma Rleb_true (a b : R) : a <= b -> Rleb a b = true.
Proof. intros H. unfold Rleb. destruct (Rle_dec a b); [reflexivity | contradiction]. Qed.

Lemma Rleb_false (a b : R) : b < a -> Rleb a b = false.
Proof. intros H. unfold Rleb. destruct (Rle_dec a b); [lra | reflexivity]. Qed.

Lemma Rltb_true (a b : R) : a < b -> Rltb a b = true.
Proof. intros H. unfold Rltb. destruct (Rlt_dec a b); [reflexivity | contradiction]. Qed.

Lemma Rltb_false (a b : R) : b <= a -> Rltb a b = false.
Proof. intros H. unfold Rltb. destruct (Rlt_dec a b); [lra | reflexivity]. Qed.


Lemma d_guard_false (S K T r sigma : R) :
  0 < S -> 0 < K -> 0 < T -> 0 < sigma ->
  Rleb T 0 || Rleb sigma 0 || Rleb S 0 || Rleb K 0 = false.
Proof.
  intros HS HK HT Hs.
  rewrite (Rleb_false _ _ HS), (Rleb_false _ _ HK), (Rleb_false _ _ HT),
    (Rleb_false _ _ Hs). reflexivity.
Qed.



(** C5. For positive spot, strike, time and volatility the call delta is
    the normal distribution function at d1, it lies between 0 and 1, the put
    delta lies between -1 and 0, and the put delta is the call delta minus
    one. *)
Theorem C5_delta_bounds (S K T r sigma : R) :
  0 < S -> 0 < K -> 0 < T -> 0 < sigma ->
  let d_c := calculate_delta S K T r sigma CE in
  let d_p := calculate_delta S K T r sigma PE in
  d_c = norm_cdf ((ln (S / K) + (r + 0.5 * sigma ^ 2) * T) / (sigma * sqrt T)) /\
  0 <= d_c <= 1 /\
  -1 <= d_p <= 0 /\
  d_p = d_c - 1.
Proof.
  intros HS HK HT Hs d_c d_p. subst d_c d_p. unfold calculate_delta.
  rewrite (Rleb_false _ _ HT). cbv zeta.
  pose proof (norm_cdf_range (_d1 S K T r sigma)) as Hr.
  split.
  - unfold _d1. rewrite (d_guard_false S K T r sigma HS HK HT Hs). reflexivity.
  - split; [exact Hr |]. split; [lra | reflexivity].
Qed.

(** An at-the-money option a year from expiry. *)
Lemma C5_delta_bounds_witness :
  let d_c := calculate_delta 100 100 1 0.05 0.2 CE in
  let d_p := calculate_delta 100 100 1 0.05 0.2 PE in
  0 <= d_c <= 1 /\ -1 <= d_p <= 0 /\ d_p = d_c - 1.
Proof.
  exact (proj2 (C5_delta_bounds 100 100 1 0.05 0.2
                  ltac:(lra) ltac:(lra) ltac:(lra) ltac:(lra))).
Defined.




End Greeks.

(** * Further properties *)

(** ** First-positive merge, further *)

Lemma first_positive_sound (vals : list (option Q)) (v : Q) :
  _first_positive vals = Some v -> (0 < v)%Q /\ In (Some v) vals.
Proof.
  induction vals as [| [x |] rest IH]; cbn [_first_positive]; intros H.
  - discriminate H.
  - destruct (Qpositive x) eqn:E.
    + injection H as <-. split; [apply Qpositive_true, E | left; reflexivity].
    + destruct (IH H) as [Hv Hin]. split; [exact Hv | right; exact Hin].
  - destruct (IH H) as [Hv Hin]. split; [exact Hv | right; exact Hin].
Qed.

Lemma first_positive_none (vals : list (option Q)) :
  _first_positive vals = None <-> forall x, In (Some x) vals -> (x <= 0)%Q.
Proof.
  induction vals as [| [x |] rest IH]; cbn [_first_positive].
  - split; [intros _ x [] | reflexivity].
  - destruct (Qpositive x) eqn:E.
    + split; [discriminate |]. intros H. exfalso.
      apply Qpositive_true in E. apply (Qlt_not_le _ _ E), H. left. reflexivity.
    + rewrite IH. apply Qpositive_false in E. split.
      * intros H y [Ey | Hy]; [injection Ey as <-; exact E | apply H, Hy].
      * intros H y Hy. apply H. right. exact Hy.
  - rewrite IH. split.
    + intros H y [Ey | Hy]; [discriminate Ey | apply H, Hy].
    + intros H y Hy. apply H. right. exact Hy.
Qed.

(** X1. [_first_positive] returns a strictly positive one of its arguments,
    the first such, and returns [None] exactly when no argument is a
    positive number. *)
Theorem X1_first_positive_sound_complete (vals : list (option Q)) :
  (forall v, _first_positive vals = Some v ->
     (0 < v)%Q /\
     exists before after,
       vals = before ++ Some v :: after /\
       forall x, In (Some x) before -> (x <= 0)%Q) /\
  (_first_positive vals = None <-> forall x, In (Some x) vals -> (x <= 0)%Q).
Proof.
  split; [| apply first_positive_none].
  induction vals as [| [x |] rest IH]; cbn [_first_positive]; intros v H.
  - discriminate H.
  - destruct (Qpositive x) eqn:E.
    + injection H as <-. split; [apply Qpositive_true, E |].
      exists [], rest. split; [reflexivity | intros y []].
    + destruct (IH v H) as [Hv [before [after [-> Hb]]]]. split; [exact Hv |].
      exists (Some x :: before), after. split; [reflexivity |].
      intros y [Ey | Hy]; [injection Ey as <-; apply Qpositive_false, E | apply Hb, Hy].
  - destruct (IH v H) as [Hv [before [after [-> Hb]]]]. split; [exact Hv |].
    exists (None :: before), after. split; [reflexivity |].
    intros y [Ey | Hy]; [discriminate Ey | apply Hb, Hy].
Qed.

Lemma X1_first_positive_sound_complete_witness :
  _first_positive [None; Some (0 # 1)%Q; Some (7 # 2)%Q; Some (9 # 1)%Q]
  = Some (7 # 2)%Q /\ (0 < 7 # 2)%Q.
Proof.
  assert (H : _first_positive [None; Some (0 # 1)%Q; Some (7 # 2)%Q; Some (9 # 1)%Q]
              = Some (7 # 2)%Q) by reflexivity.
  split; [exact H |].
  exact (proj1 (proj1 (X1_first_positive_sound_complete _) _ H)).
Defined.

(** A positive argument makes [_first_positive] return a value. *)
Lemma first_positive_some (vals : list (option Q)) (p : Q) :
  In (Some p) vals -> (0 < p)%Q -> exists v, _first_positive vals = Some v.
Proof.
  intros Hin Hp. destruct (_first_positive vals) as [v |] eqn:E; [eauto |].
  exfalso. apply (Qlt_not_le _ _ Hp). apply (proj1 (first_positive_none vals) E), Hin.
Qed.

(** X2. Whatever the caches hold, a side whose quote has a positive last
    price gets a positive open, high, low and close, on the Call side and on
    the Put side; a field is never shown as zero. *)
Theorem X2_positive_ltp_fills_row (today token : Z) (all_quotes : gmap Z quote)
    (today_intraday_map : gmap Z ohlc) (self : KiteAPIService) (p : Q) :
  quote_ltp (all_quotes !! token) = Some p -> (0 < p)%Q ->
  let ce := snd (merge_ce today token all_quotes today_intraday_map self) in
  let pe := snd (merge_pe today token all_quotes today_intraday_map self) in
  (exists o h l c,
     f_open ce = Some o /\ f_high ce = Some h /\ f_low ce = Some l /\
     f_close ce = Some c /\ (0 < o)%Q /\ (0 < h)%Q /\ (0 < l)%Q /\ (0 < c)%Q) /\
  (exists o h l c,
     f_open pe = Some o /\ f_high pe = Some h /\ f_low pe = Some l /\
     f_close pe = Some c /\ (0 < o)%Q /\ (0 < h)%Q /\ (0 < l)%Q /\ (0 < c)%Q).
Proof.
  intros Hl Hp ce pe. subst ce pe. unfold merge_ce, merge_pe.
  cbn [snd f_open f_high f_low f_close]. rewrite Hl.
  assert (Hfp : forall vals, In (Some p) vals ->
            exists v, _first_positive vals = Some v /\ (0 < v)%Q).
  { intros vals Hin. destruct (first_positive_some vals p Hin Hp) as [v Hv].
    exists v. split; [exact Hv | apply (first_positive_sound vals v Hv)]. }
  split.
  - destruct (Hfp [dict_get o_open (today_intraday_map !! token);
                   quote_ohlc_get o_open (all_quotes !! token);
                   session_get s_open
                     (_session_ohlc (_update_session_ohlc today token (Some p) self)
                      !! token); Some p]) as [o [Ho Hopos]];
      [simpl; auto |].
    rewrite Ho.
    match goal with
    | |- exists _ h l c, _ /\ _first_positive ?vh = _ /\ _first_positive ?vl = _
                         /\ match _first_positive ?vc with _ => _ end = _ /\ _ =>
      destruct (Hfp vh) as [h [Hh Hhpos]]; [simpl; auto 10 |];
      destruct (Hfp vl) as [l [Hlo Hlpos]]; [simpl; auto 10 |];
      destruct (Hfp vc) as [c [Hc Hcpos]]; [simpl; auto 10 |];
      exists o, h, l, c; rewrite Hh, Hlo, Hc; repeat split; assumption
    end.
  - match goal with
    | |- exists o h l c, _first_positive ?vo = _ /\ _first_positive ?vh = _
                         /\ _first_positive ?vl = _ /\ _first_positive ?vc = _ /\ _ =>
      destruct (Hfp vo) as [o [Ho Hopos]]; [simpl; auto 10 |];
      destruct (Hfp vh) as [h [Hh Hhpos]]; [simpl; auto 10 |];
      destruct (Hfp vl) as [l [Hlo Hlpos]]; [simpl; auto 10 |];
      destruct (Hfp vc) as [c [Hc Hcpos]]; [simpl; auto 10 |];
      exists o, h, l, c; repeat split; assumption
    end.
Qed.

(** ** Session aggregator, further *)

Lemma prices_for_cons (token : Z) (ob : observation) (obs : list observation) :
  prices_for token (ob :: obs) = prices_for token [ob] ++ prices_for token obs.
Proof. unfold prices_for. cbn [flat_map]. rewrite app_nil_r. reflexivity. Qed.

Lemma summarises_first (p : Q) :
  summarises {| s_open := p; s_high := p; s_low := p; s_close := p |} [p].
Proof.
  split; [exists []; reflexivity |]. split; [exists []; reflexivity |].
  split; [| split; left; reflexivity].
  intros q [<- | []]. simpl. split; apply Qle_refl.
Qed.

Lemma summarises_next (rec : session_rec) (ps : list Q) (p : Q) :
  summarises rec ps ->
  summarises {| s_open := s_open rec; s_high := Qmax (s_high rec) p;
                s_low := Qmin (s_low rec) p; s_close := p |} (ps ++ [p]).
Proof.
  intros [[rest Ho] [[front Hc] [Hb [Hh Hl]]]]. unfold summarises. simpl.
  split; [exists (rest ++ [p]); rewrite Ho; reflexivity |].
  split; [exists ps; reflexivity |].
  split; [| split].
  - intros q Hq. apply in_app_or in Hq. destruct Hq as [Hq | [<- | []]].
    + destruct (Hb q Hq) as [H1 H2]. split.
      * apply Qle_trans with (s_low rec); [apply Q.le_min_l | exact H1].
      * apply Qle_trans with (s_high rec); [exact H2 | apply Q.le_max_l].
    + split; [apply Q.le_min_r | apply Q.le_max_r].
  - rewrite <- running_high. destruct (Qltb (s_high rec) p);
      apply in_or_app; [right; left; reflexivity | left; exact Hh].
  - rewrite <- running_low. destruct (Qltb p (s_low rec));
      apply in_or_app; [right; left; reflexivity | left; exact Hl].
Qed.

Lemma reset_on_day (today : Z) (self : KiteAPIService) :
  on_day today self ->
  _session_day (_reset_session_if_needed today self) = Some today /\
  _session_ohlc (_reset_session_if_needed today self) = _session_ohlc self.
Proof.
  intros Hday. unfold _reset_session_if_needed.
  destruct (decide (_session_day self = Some today)) as [E | N];
    [split; [exact E | reflexivity] |].
  destruct Hday as [E | E]; [contradiction |].
  simpl. split; [reflexivity | symmetry; exact E].
Qed.

Lemma tracks_update (today token t : Z) (ltp : option Q)
    (self : KiteAPIService) (ps : list Q) :
  on_day today self -> tracks token self ps ->
  on_day today (_update_session_ohlc today t ltp self) /\
  tracks token (_update_session_ohlc today t ltp self)
    (ps ++ prices_for token [(today, t, ltp)]).
Proof.
  intros Hday Htr. unfold prices_for. cbn [flat_map]. rewrite app_nil_r.
  unfold _update_session_ohlc.
  destruct ltp as [p |]; [| rewrite app_nil_r; split; assumption].
  destruct (negb (truthy p) || Qle_bool p 0) eqn:G.
  { apply session_guard in G. apply Qpositive_false in G. rewrite G.
    rewrite andb_false_r, app_nil_r. split; assumption. }
  assert (Hp : Qpositive p = true).
  { destruct (Qpositive p) eqn:E; [reflexivity |].
    apply Qpositive_false, session_guard in E. rewrite E in G. discriminate G. }
  rewrite Hp, andb_true_r.
  destruct (reset_on_day today self Hday) as [Hd Hm].
  set (self1 := _reset_session_if_needed today self) in *.
  assert (Hgoal : forall rec1,
    (match _session_ohlc self !! t with
     | None => rec1 = {| s_open := p; s_high := p; s_low := p; s_close := p |}
     | Some rec => rec1 = {| s_open := s_open rec; s_high := Qmax (s_high rec) p;
                             s_low := Qmin (s_low rec) p; s_close := p |}
     end) ->
    tracks token (set_session self1 (_session_day self1)
                    (<[t := rec1]> (_session_ohlc self1)))
      (ps ++ (if t =? token then [p] else []))).
  { intros rec1 Hrec1. unfold tracks. cbn [_session_ohlc set_session].
    rewrite Hm. destruct (Z.eqb_spec t token) as [-> | Hne].
    - rewrite lookup_insert_eq. unfold tracks in Htr.
      destruct (_session_ohlc self !! token) as [rec |]; subst rec1.
      + apply summarises_next, Htr.
      + subst ps. apply summarises_first.
    - rewrite lookup_insert_ne by exact Hne. rewrite app_nil_r. exact Htr. }
  rewrite <- Hm in Hgoal.
  destruct (_session_ohlc self1 !! t) as [rec |] eqn:Hrec.
  - split; [left; exact Hd |]. rewrite running_high, running_low.
    apply Hgoal. reflexivity.
  - split; [left; exact Hd |]. apply Hgoal. reflexivity.
Qed.

Lemma tracks_observe (today token : Z) (obs : list observation) :
  forall (self : KiteAPIService) (ps : list Q),
  Forall (fun ob : observation => fst (fst ob) = today) obs ->
  on_day today self -> tracks token self ps ->
  tracks token (fold_left observe obs self) (ps ++ prices_for token obs).
Proof.
  induction obs as [| [[d t] ltp] obs IH]; intros self ps Hall Hday Htr.
  - unfold prices_for. simpl. rewrite app_nil_r. exact Htr.
  - apply Forall_cons in Hall as [Hd Hrest]. simpl in Hd. subst d.
    destruct (tracks_update today token t ltp self ps Hday Htr) as [Hday1 Htr1].
    cbn [fold_left observe].
    rewrite (prices_for_cons token (today, t, ltp) obs).
    rewrite app_assoc. apply IH; assumption.
Qed.

(** X3. Over the observations of one day, from the initial state, the record
    of a token sums up the positive prices seen for it: its open is the first
    of them, its close the last, its high and low are two of them, and every
    one of them lies between the low and the high; prices of other tokens and
    non-positive prices leave it alone. A token with no positive price has no
    record. *)
Theorem X3_session_record_sums_up_the_day (today token : Z)
    (obs : list observation) :
  Forall (fun ob : observation => fst (fst ob) = today) obs ->
  match _session_ohlc (fold_left observe obs init_service) !! token with
  | Some rec => summarises rec (prices_for token obs)
  | None => prices_for token obs = []
  end.
Proof.
  intros Hall.
  pose proof (tracks_observe today token obs init_service [] Hall
                (or_intror eq_refl) eq_refl) as H.
  unfold tracks in H. exact H.
Qed.

(** ** Choice of the previous-day candle *)

Lemma insert_by_date_elem (x c : candle) (l : list candle) :
  In x (insert_by_date c l) <-> x = c \/ In x l.
Proof.
  induction l as [| y l IH]; cbn [insert_by_date].
  - simpl. intuition.
  - destruct (c_date c <=? c_date y); simpl; [intuition |].
    rewrite IH. intuition.
Qed.

Lemma insert_by_date_sorted (c : candle) (l : list candle) :
  StronglySorted date_le l -> StronglySorted date_le (insert_by_date c l).
Proof.
  induction l as [| y l IH]; cbn [insert_by_date]; intros Hs.
  - apply StronglySorted_cons. split; [constructor | constructor].
  - apply StronglySorted_cons in Hs as [Hy Hl].
    destruct (Z.leb_spec (c_date c) (c_date y)) as [Hle | Hgt].
    + apply StronglySorted_cons. split.
      * constructor; [exact Hle |].
        apply Forall_forall. intros z Hz.
        rewrite Forall_forall in Hy. specialize (Hy z Hz).
        unfold date_le in *. lia.
      * apply StronglySorted_cons. split; assumption.
    + apply StronglySorted_cons. split; [| apply IH, Hl].
      apply Forall_forall. intros z Hz.
      apply list_elem_of_In, insert_by_date_elem in Hz.
      destruct Hz as [-> | Hz]; [unfold date_le; lia |].
      rewrite Forall_forall in Hy. apply Hy, list_elem_of_In, Hz.
Qed.

Lemma sorted_by_date_elem (x : candle) (candles : list candle) :
  In x (sorted_by_date candles) <-> In x candles.
Proof.
  unfold sorted_by_date. induction candles as [| c l IH]; cbn [fold_right].
  - reflexivity.
  - rewrite insert_by_date_elem, IH. simpl. intuition.
Qed.

Lemma sorted_by_date_sorted (candles : list candle) :
  StronglySorted date_le (sorted_by_date candles).
Proof.
  unfold sorted_by_date. induction candles as [| c l IH]; cbn [fold_right].
  - constructor.
  - apply insert_by_date_sorted, IH.
Qed.

Lemma rev_sorted_descending (l : list candle) :
  StronglySorted date_le l -> StronglySorted (flip date_le) (rev l).
Proof.
  induction l as [| a l IH]; intros Hs; [constructor |].
  apply StronglySorted_cons in Hs as [Ha Hl]. cbn [rev].
  apply StronglySorted_app. split; [| split].
  - intros x1 x2 H1 H2. apply list_elem_of_In in H1, H2.
    destruct H2 as [<- | []]. rewrite <- in_rev in H1.
    rewrite Forall_forall in Ha. apply Ha, list_elem_of_In, H1.
  - apply IH, Hl.
  - apply StronglySorted_cons. split; constructor.
Qed.

Lemma choose_candle_descending (prev : Z) (l : list candle) :
  StronglySorted (flip date_le) l ->
  match choose_candle prev l with
  | Some c =>
    In c l /\ c_date c <= prev /\
    forall c', In c' l -> c_date c' <= prev -> c_date c' <= c_date c
  | None => forall c', In c' l -> prev < c_date c'
  end.
Proof.
  induction l as [| a l IH]; intros Hs; cbn [choose_candle].
  - intros c' [].
  - apply StronglySorted_cons in Hs as [Ha Hl].
    assert (Hpick : c_date a <= prev ->
      In a (a :: l) /\ c_date a <= prev /\
      forall c', In c' (a :: l) -> c_date c' <= prev -> c_date c' <= c_date a).
    { intros Hle. split; [left; reflexivity |]. split; [exact Hle |].
      intros c' [<- | Hin] _; [lia |].
      rewrite Forall_forall in Ha. apply (Ha c'), list_elem_of_In, Hin. }
    destruct (Z.eqb_spec (c_date a) prev) as [E | N]; [apply Hpick; lia |].
    destruct (Z.ltb_spec (c_date a) prev) as [Hlt | Hge]; [apply Hpick; lia |].
    specialize (IH Hl). destruct (choose_candle prev l) as [c |].
    + destruct IH as [Hin [Hle Hmax]]. split; [right; exact Hin |].
      split; [exact Hle |].
      intros c' [<- | Hc'] Hc'le; [lia | apply Hmax; assumption].
    + intros c' [<- | Hc']; [lia | apply IH, Hc'].
Qed.

(** X4. Of the candles an answer holds, the one chosen for the record is
    the latest one dated on or before the previous trading day: the candle of
    that day when there is one, else the nearest earlier one, never a later
    one; and none is chosen exactly when every candle is dated after that
    day. *)
Theorem X4_chosen_candle_is_latest_not_after (prev_trading_day : Z)
    (candles : list candle) :
  match choose_candle prev_trading_day (rev (sorted_by_date candles)) with
  | Some chosen =>
    In chosen candles /\ c_date chosen <= prev_trading_day /\
    (forall c, In c candles -> c_date c <= prev_trading_day ->
               c_date c <= c_date chosen) /\
    (forall c, In c candles -> c_date c = prev_trading_day ->
               c_date chosen = prev_trading_day)
  | None => forall c, In c candles -> prev_trading_day < c_date c
  end.
Proof.
  pose proof (choose_candle_descending prev_trading_day
                (rev (sorted_by_date candles))
                (rev_sorted_descending _ (sorted_by_date_sorted candles))) as H.
  assert (Hin : forall c, In c (rev (sorted_by_date candles)) <-> In c candles)
    by (intros c; rewrite <- in_rev; apply sorted_by_date_elem).
  destruct (choose_candle prev_trading_day (rev (sorted_by_date candles)))
    as [chosen |].
  - destruct H as [Hc [Hle Hmax]].
    split; [apply Hin, Hc |]. split; [exact Hle |]. split.
    + intros c Hcin Hcle. apply Hmax; [apply Hin, Hcin | exact Hcle].
    + intros c Hcin Hceq.
      assert (c_date c <= c_date chosen) by (apply Hmax; [apply Hin, Hcin | lia]).
      lia.
  - intros c Hcin. apply H, Hin, Hcin.
Qed.

(** ** Previous-day store, further *)

Lemma cached_for_lookup (prev : Z) (cache : gmap Z prevday_rec) (t : Z)
    (rec : prevday_rec) :
  cached_for prev cache t = Some rec <->
  cache !! t = Some rec /\ for_day rec = prev.
Proof.
  unfold cached_for. destruct (cache !! t) as [r |]; [| split; [discriminate | intros [H _]; discriminate H]].
  destruct (Z.eqb_spec (for_day r) prev) as [E | N]; split.
  - intros H. injection H as <-. split; [reflexivity | exact E].
  - intros [H _]. exact H.
  - discriminate.
  - intros [H E]. injection H as ->. contradiction.
Qed.

(** What a returned record is. *)
Lemma returned_record_facts (kite : KiteConnect) (today now : Z)
    (tokens : list Z) (max_fetch : Z) (w : world) :
  let out := get_previous_day_option_ohlc kite today now tokens max_fetch w in
  forall t rec,
    fst out !! t = Some rec ->
    In t tokens /\
    for_day rec = _get_previous_trading_day today /\
    cache_of (snd out) !! t = Some rec.
Proof.
  intros out t rec Hrec. subst out.
  rewrite get_previous_day_option_ohlc_unfold in Hrec |- *.
  destruct tokens as [| token0 rest0];
    [cbn [fst] in Hrec; rewrite lookup_empty in Hrec; discriminate Hrec |].
  destruct (prevday_cooldown_active now (w_self w)) eqn:Hact;
    [cbn [fst] in Hrec; rewrite lookup_empty in Hrec; discriminate Hrec |].
  set (prev := _get_previous_trading_day today) in *.
  split.
  - destruct (loop_result_keys kite prev (prev - 7) today now max_fetch
                (token0 :: rest0) ∅ 0 w t) as [Hin | Hs].
    + rewrite Hrec. eexists. reflexivity.
    + exact Hin.
    + rewrite lookup_empty in Hs. destruct Hs as [x Hx]. discriminate Hx.
  - destruct (loop_cache kite prev (prev - 7) today now max_fetch
                (token0 :: rest0) ∅ 0 w) as [evs [_ [_ [_ [Hout _]]]]].
    + apply cooldown_inactive_ne, Hact.
    + intros t' r Ht. rewrite lookup_empty in Ht. discriminate Ht.
    + apply Hout, cached_for_lookup in Hrec. destruct Hrec as [Hc Hd].
      split; [exact Hd | exact Hc].
Qed.

(** X5. A record returned by [get_previous_day_option_ohlc] belongs to a
    requested token, is for the previous trading day of the call, and is the
    record the in-memory cache holds for that token after the call: a record
    of another day is never handed out. *)
Theorem X5_returned_records_are_of_the_day (kite : KiteConnect) (today now : Z)
    (tokens : list Z) (max_fetch : Z) (w : world) :
  let out := get_previous_day_option_ohlc kite today now tokens max_fetch w in
  forall t rec,
    fst out !! t = Some rec ->
    In t tokens /\
    for_day rec = _get_previous_trading_day today /\
    cache_of (snd out) !! t = Some rec.
Proof. apply returned_record_facts. Qed.

Section PrevDayLoopMore.

Variable kite : KiteConnect.
Variables prev fetch_from fetch_to now max_fetch : Z.

Local Abbreviation loop :=
  (prevday_loop kite prev fetch_from fetch_to now max_fetch).

(** The loop stores at most [max_fetch - count] records, and none, with no
    request, when the cap is already reached. *)
Lemma loop_cap (tokens : list Z) :
  forall (result : gmap Z prevday_rec) (count : Z) (w : world),
  exists stored : list Z,
    Z.of_nat (length stored) <= Z.max 0 (max_fetch - count) /\
    (forall t, ~ In t stored ->
       cache_of (snd (loop tokens result count w)) !! t = cache_of w !! t) /\
    (max_fetch <= count -> w_log (snd (loop tokens result count w)) = w_log w).
Proof.
  induction tokens as [| token rest IH]; intros result count w.
  - exists []. simpl. split; [lia |]. split; [reflexivity | reflexivity].
  - destruct (loop_turn kite prev fetch_from fetch_to now max_fetch
                token rest result count w)
      as [rec0 Hc Hloop | Hc Hle Hloop | candles chosen Hc Hlt Ha Hch Hloop
          | candles Hc Hlt Ha Hch Hloop | msg Hc Hlt Ha Hrl Hloop
          | msg Hc Hlt Ha Hrl Hloop]; rewrite Hloop.
    + apply IH.
    + apply IH.
    + destruct (IH (<[token := record_of prev chosen]> result) (count + 1)
                  (stored token (record_of prev chosen)
                     (logged (EvHistorical token fetch_from fetch_to) w)))
        as [st [Hlen [Hkeep Hlog]]].
      exists (token :: st). cbn [length]. split; [lia |]. split; [| lia].
      intros t Ht. rewrite Hkeep by (intros Hin; apply Ht; right; exact Hin).
      unfold cache_of at 1. cbn [stored w_self set_prev_day_cache _option_prev_day_cache].
      apply lookup_insert_ne. intros E. apply Ht. left. exact E.
    + destruct (IH result count (logged (EvHistorical token fetch_from fetch_to) w))
        as [st [Hlen [Hkeep Hlog]]].
      exists st. split; [exact Hlen |]. split; [exact Hkeep | lia].
    + destruct (IH result count (logged (EvHistorical token fetch_from fetch_to) w))
        as [st [Hlen [Hkeep Hlog]]].
      exists st. split; [exact Hlen |]. split; [exact Hkeep | lia].
    + exists []. cbn [length fst snd]. split; [lia |]. split; [reflexivity | lia].
Qed.

(** With every token cached for the day the loop asks nothing and returns
    the cached records. *)
Lemma loop_all_cached (tokens : list Z) :
  forall (result : gmap Z prevday_rec) (count : Z) (w : world),
  (forall t, In t tokens -> is_Some (cached_for prev (cache_of w) t)) ->
  snd (loop tokens result count w) = w /\
  (forall t, In t tokens ->
     fst (loop tokens result count w) !! t = cached_for prev (cache_of w) t) /\
  (forall t, ~ In t tokens ->
     fst (loop tokens result count w) !! t = result !! t).
Proof.
  induction tokens as [| token rest IH]; intros result count w Hall.
  - split; [reflexivity |]. split; [intros t [] | reflexivity].
  - destruct (Hall token (or_introl eq_refl)) as [rec Hrec].
    destruct (loop_turn kite prev fetch_from fetch_to now max_fetch
                token rest result count w)
      as [rec0 Hc Hloop | Hc Hle Hloop | candles chosen Hc Hlt Ha Hch Hloop
          | candles Hc Hlt Ha Hch Hloop | msg Hc Hlt Ha Hrl Hloop
          | msg Hc Hlt Ha Hrl Hloop];
      try (rewrite Hrec in Hc; discriminate Hc).
    rewrite Hloop.
    destruct (IH (<[token := rec0]> result) count w) as [Hw [Hin Hout]].
    { intros t Ht. apply Hall. right. exact Ht. }
    split; [exact Hw |]. split.
    + intros t Ht. destruct (in_dec Z.eq_dec t rest) as [Hr | Hr].
      * apply Hin, Hr.
      * destruct Ht as [<- | Ht]; [| contradiction].
        rewrite (Hout token Hr), lookup_insert_eq. symmetry. exact Hc.
    + intros t Ht. rewrite Hout by (intros H; apply Ht; right; exact H).
      apply lookup_insert_ne. intros E. apply Ht. left. exact E.
Qed.

(** The loop leaves the session aggregate and the intraday cooldown alone. *)
Lemma loop_frame (tokens : list Z) :
  forall (result : gmap Z prevday_rec) (count : Z) (w : world),
  let self' := w_self (snd (loop tokens result count w)) in
  _session_ohlc self' = _session_ohlc (w_self w) /\
  _session_day self' = _session_day (w_self w) /\
  _rate_limit_intraday_cooldown_until self'
  = _rate_limit_intraday_cooldown_until (w_self w).
Proof.
  induction tokens as [| token rest IH]; intros result count w.
  - repeat split.
  - destruct (loop_turn kite prev fetch_from fetch_to now max_fetch
                token rest result count w)
      as [rec0 Hc Hloop | Hc Hle Hloop | candles chosen Hc Hlt Ha Hch Hloop
          | candles Hc Hlt Ha Hch Hloop | msg Hc Hlt Ha Hrl Hloop
          | msg Hc Hlt Ha Hrl Hloop]; rewrite Hloop;
      try (match goal with
           | |- context [loop rest ?r ?c ?w1] =>
             destruct (IH r c w1) as [H1 [H2 H3]];
             cbv zeta; rewrite H1, H2, H3; repeat split
           end).
    repeat split.
Qed.

End PrevDayLoopMore.

(** X6. One call stores at most [max_fetch] records in the in-memory cache
    (none for a cap of 0 or less): outside a set of at most that many tokens
    the cache is as before; and with a cap of 0 or less the call makes no
    request at all. *)
Theorem X6_fetch_cap (kite : KiteConnect) (today now : Z)
    (tokens : list Z) (max_fetch : Z) (w : world) :
  let out := get_previous_day_option_ohlc kite today now tokens max_fetch w in
  (exists stored : list Z,
     Z.of_nat (length stored) <= Z.max 0 max_fetch /\
     forall t, ~ In t stored -> cache_of (snd out) !! t = cache_of w !! t) /\
  (max_fetch <= 0 -> w_log (snd out) = w_log w).
Proof.
  intros out. subst out. rewrite get_previous_day_option_ohlc_unfold.
  assert (Hnone : (exists stored : list Z,
     Z.of_nat (length stored) <= Z.max 0 max_fetch /\
     forall t, ~ In t stored -> cache_of w !! t = cache_of w !! t) /\
    (max_fetch <= 0 -> w_log w = w_log w)).
  { split; [exists []; simpl; split; [lia | reflexivity] | reflexivity]. }
  destruct tokens as [| token0 rest0]; [exact Hnone |].
  destruct (prevday_cooldown_active now (w_self w)); [exact Hnone |].
  destruct (loop_cap kite (_get_previous_trading_day today)
              (_get_previous_trading_day today - 7) today now max_fetch
              (token0 :: rest0) ∅ 0 w) as [st [Hlen [Hkeep Hlog]]].
  split; [| intros H; apply Hlog; lia].
  exists st. split; [rewrite Z.sub_0_r in Hlen; exact Hlen | exact Hkeep].
Qed.

(** X7. When the cooldown is not active and every requested token has a
    cached record of the previous trading day, the call makes no request,
    changes nothing and returns exactly those records. *)
Theorem X7_warm_cache_needs_no_request (kite : KiteConnect) (today now : Z)
    (tokens : list Z) (max_fetch : Z) (w : world) :
  prevday_cooldown_active now (w_self w) = false ->
  (forall t, In t tokens ->
     is_Some (cached_for (_get_previous_trading_day today) (cache_of w) t)) ->
  let out := get_previous_day_option_ohlc kite today now tokens max_fetch w in
  snd out = w /\
  (forall t, In t tokens -> fst out !! t = cache_of w !! t) /\
  (forall t, ~ In t tokens -> fst out !! t = None).
Proof.
  intros Hact Hall out. subst out. rewrite get_previous_day_option_ohlc_unfold.
  destruct tokens as [| token0 rest0].
  - split; [reflexivity |]. split; [intros t [] | intros t _; apply lookup_empty].
  - rewrite Hact.
    destruct (loop_all_cached kite (_get_previous_trading_day today)
                (_get_previous_trading_day today - 7) today now max_fetch
                (token0 :: rest0) ∅ 0 w Hall) as [Hw [Hin Hout]].
    split; [exact Hw |]. split.
    + intros t Ht. rewrite (Hin t Ht).
      destruct (Hall t Ht) as [rec Hrec]. rewrite Hrec.
      apply cached_for_lookup in Hrec. symmetry. apply Hrec.
    + intros t Ht. rewrite (Hout t Ht). apply lookup_empty.
Qed.

(** X8. [get_previous_day_option_ohlc] never touches the session aggregate,
    the tracked session day or the intraday cooldown. *)
Theorem X8_prevday_fetch_frame (kite : KiteConnect) (today now : Z)
    (tokens : list Z) (max_fetch : Z) (w : world) :
  let self' := w_self (snd (get_previous_day_option_ohlc kite today now tokens
                              max_fetch w)) in
  _session_ohlc self' = _session_ohlc (w_self w) /\
  _session_day self' = _session_day (w_self w) /\
  _rate_limit_intraday_cooldown_until self'
  = _rate_limit_intraday_cooldown_until (w_self w).
Proof.
  cbv zeta. rewrite get_previous_day_option_ohlc_unfold.
  destruct tokens as [| token0 rest0]; [repeat split |].
  destruct (prevday_cooldown_active now (w_self w)); [repeat split |].
  apply loop_frame.
Qed.

(** ** Quote batching, further *)

Lemma chunks_concat (b : nat) (l : list Z) :
  forall (k : nat) (l : list Z),
  (length l <= k * b)%nat ->
  concat (map (fun i => firstn b (skipn i l))
              (map (fun j => (j * b)%nat) (seq 0 k))) = l.
Proof.
  clear l. induction k as [| k IH]; intros l Hlen.
  - destruct l; [reflexivity | simpl in Hlen; lia].
  - cbn [seq map concat]. rewrite <- seq_shift, !map_map.
    rewrite Nat.mul_0_l, skipn_O.
    transitivity (firstn b l ++ skipn b l); [| apply firstn_skipn].
    f_equal.
    rewrite <- (IH (skipn b l)) by (rewrite length_skipn; lia).
    rewrite map_map. f_equal. apply map_ext. intros j.
    rewrite drop_drop. f_equal; lia.
Qed.

Lemma batch_count_bounds (n : nat) :
  let k := Nat.div (n + batch_size - 1) batch_size in
  (n <= k * batch_size)%nat /\
  (forall j, (j < k)%nat -> (j * batch_size < n)%nat).
Proof.
  intros k. subst k. unfold batch_size.
  pose proof (Nat.div_mod_eq (n + 400 - 1) 400) as E.
  pose proof (Nat.mod_upper_bound (n + 400 - 1) 400 ltac:(lia)) as Hr.
  split; [lia |]. intros j Hj. nia.
Qed.

(** X9. The quote loop cuts the token list into consecutive batches: put
    end to end the batches give back the list, in order, every batch holds
    between 1 and 400 tokens, and n tokens give ceil(n/400) batches. *)
Theorem X9_quote_batches_partition (instrument_tokens : list Z) :
  concat (quote_batches instrument_tokens) = instrument_tokens /\
  Forall (fun batch => (1 <= length batch <= 400)%nat)
         (quote_batches instrument_tokens) /\
  length (quote_batches instrument_tokens)
  = ((length instrument_tokens + batch_size - 1) / batch_size)%nat /\
  (forall kite w,
     fetch_all_quotes kite instrument_tokens w
     = quote_loop kite (quote_batches instrument_tokens) ∅ w).
Proof.
  unfold quote_batches, batch_starts.
  destruct (batch_count_bounds (length instrument_tokens)) as [Hn Hj].
  split; [apply (chunks_concat batch_size instrument_tokens), Hn |].
  split; [| split; [rewrite !length_map, length_seq; reflexivity | reflexivity]].
  apply Forall_forall. intros batch Hb.
  apply list_elem_of_In, in_map_iff in Hb. destruct Hb as [i [<- Hi]].
  apply in_map_iff in Hi. destruct Hi as [j [<- Hjin]].
  apply in_seq in Hjin. specialize (Hj j ltac:(lia)).
  rewrite length_firstn, length_skipn. unfold batch_size in *. lia.
Qed.

(** ** Cache coverage *)

Lemma covered_fold (prev : Z) (cache : gmap Z prevday_rec) (tokens : list Z) :
  forall acc,
  fold_left (fun covered t => match cached_for prev cache t with
                              | Some _ => covered + 1
                              | None => covered
                              end) tokens acc
  = acc + covered_count prev cache tokens.
Proof.
  unfold covered_count.
  induction tokens as [| t rest IH]; intros acc; cbn [fold_left List.filter].
  - simpl. lia.
  - rewrite IH. destruct (cached_for prev cache t); cbn [length]; lia.
Qed.

Lemma covered_count_range (prev : Z) (cache : gmap Z prevday_rec)
    (tokens : list Z) :
  0 <= covered_count prev cache tokens <= Z.of_nat (length tokens).
Proof.
  unfold covered_count. induction tokens as [| t rest IH]; cbn [List.filter length].
  - lia.
  - destruct (cached_for prev cache t); cbn [length]; lia.
Qed.

Lemma covered_count_all (prev : Z) (cache : gmap Z prevday_rec)
    (tokens : list Z) :
  covered_count prev cache tokens = Z.of_nat (length tokens) <->
  forall t, In t tokens -> is_Some (cached_for prev cache t).
Proof.
  induction tokens as [| t rest IH].
  - split; [intros _ t [] | reflexivity].
  - pose proof (covered_count_range prev cache rest) as Hr.
    unfold covered_count in *. cbn [List.filter length].
    destruct (cached_for prev cache t) as [rec |] eqn:E; cbn [length].
    + split.
      * intros H x [<- | Hx]; [rewrite E; eexists; reflexivity |].
        apply IH; [lia | exact Hx].
      * intros H. assert (Hrest : forall x, In x rest -> is_Some (cached_for prev cache x))
          by (intros x Hx; apply H; right; exact Hx).
        apply IH in Hrest. lia.
    + split; [lia |]. intros H. destruct (H t (or_introl eq_refl)) as [x Hx].
      rewrite E in Hx. discriminate Hx.
Qed.

Lemma covered_count_mono (prev : Z) (cache cache' : gmap Z prevday_rec)
    (tokens : list Z) :
  (forall t rec, cached_for prev cache t = Some rec ->
                 cached_for prev cache' t = Some rec) ->
  covered_count prev cache tokens <= covered_count prev cache' tokens.
Proof.
  intros Hkeep. unfold covered_count.
  induction tokens as [| t rest IH]; cbn [List.filter]; [lia |].
  destruct (cached_for prev cache t) as [rec |] eqn:E.
  - rewrite (Hkeep t rec E). cbn [length]. lia.
  - destruct (cached_for prev cache' t); cbn [length]; lia.
Qed.

Lemma coverage_value (today : Z) (tokens : list Z) (self : KiteAPIService) :
  tokens <> [] ->
  _prevday_cache_coverage today tokens self
  = (inject_Z (covered_count (_get_previous_trading_day today)
                 (_option_prev_day_cache self) tokens)
     / inject_Z (Z.of_nat (length tokens)))%Q.
Proof.
  intros Hne. unfold _prevday_cache_coverage.
  destruct tokens as [| t rest]; [contradiction |].
  cbv zeta. rewrite covered_fold, Z.add_0_l.
  rewrite Z.max_r by (cbn [length]; lia). reflexivity.
Qed.

Lemma ratio_le (a b n : Z) :
  0 < n -> a <= b -> (inject_Z a / inject_Z n <= inject_Z b / inject_Z n)%Q.
Proof.
  intros Hn Hab.
  assert (Hq : (0 < inject_Z n)%Q)
    by (change (inject_Z 0 < inject_Z n)%Q; rewrite <- Zlt_Qlt; exact Hn).
  apply Qle_shift_div_l; [exact Hq |].
  unfold Qdiv. rewrite <- Qmult_assoc, (Qmult_comm (/ inject_Z n)).
  rewrite Qmult_inv_r by (intros E; rewrite E in Hq; apply (Qlt_irrefl _ Hq)).
  rewrite Qmult_1_r. rewrite <- Zle_Qle. exact Hab.
Qed.

Lemma ratio_one (a n : Z) :
  0 < n -> ((inject_Z a / inject_Z n == 1)%Q <-> a = n).
Proof.
  intros Hn.
  assert (Hq : ~ (inject_Z n == 0)%Q).
  { intros E. unfold Qeq in E. simpl in E. lia. }
  split.
  - intros H. apply (Qmult_inj_r _ _ (inject_Z n) Hq) in H.
    unfold Qdiv in H. rewrite <- Qmult_assoc, (Qmult_comm (/ inject_Z n)) in H.
    rewrite Qmult_inv_r, Qmult_1_r, Qmult_1_l in H by exact Hq.
    unfold Qeq in H. simpl in H. lia.
  - intros ->. apply Qmult_inv_r, Hq.
Qed.

(** The coverage as a share. *)
Lemma coverage_share (today : Z) (tokens : list Z)
    (self : KiteAPIService) :
  let coverage := _prevday_cache_coverage today tokens self in
  (0 <= coverage <= 1)%Q /\
  ((coverage == 1)%Q <->
   forall t, In t tokens ->
     is_Some (cached_for (_get_previous_trading_day today)
                (_option_prev_day_cache self) t)).
Proof.
  intros coverage. subst coverage.
  destruct tokens as [| t0 rest] eqn:Et.
  - cbn [_prevday_cache_coverage]. split; [split; [discriminate | apply Qle_refl] |].
    split; [intros _ t [] | reflexivity].
  - rewrite <- Et. assert (Hne : tokens <> []) by (rewrite Et; discriminate).
    rewrite (coverage_value today tokens self Hne).
    set (prev := _get_previous_trading_day today).
    set (cache := _option_prev_day_cache self).
    pose proof (covered_count_range prev cache tokens) as Hr.
    assert (Hn : 0 < Z.of_nat (length tokens))
      by (rewrite Et; cbn [length]; lia).
    split; [split |].
    + apply Qle_shift_div_l.
      * change (inject_Z 0 < inject_Z (Z.of_nat (length tokens)))%Q.
        rewrite <- Zlt_Qlt. exact Hn.
      * rewrite Qmult_0_l. change (inject_Z 0 <= inject_Z (covered_count prev cache tokens))%Q.
        rewrite <- Zle_Qle. lia.
    + assert (H1 : (1 == inject_Z (Z.of_nat (length tokens))
                         / inject_Z (Z.of_nat (length tokens)))%Q)
        by (symmetry; apply ratio_one; [exact Hn | reflexivity]).
      rewrite H1. apply ratio_le; lia.
    + rewrite (ratio_one _ _ Hn). apply covered_count_all.
Qed.

(** X10. The coverage is a share between 0 and 1; it is 1 exactly when
    every token of the list has a cached record of the previous trading day,
    in particular for the empty list. *)
Theorem X10_coverage_is_a_share (today : Z) (tokens : list Z)
    (self : KiteAPIService) :
  let coverage := _prevday_cache_coverage today tokens self in
  (0 <= coverage <= 1)%Q /\
  ((coverage == 1)%Q <->
   forall t, In t tokens ->
     is_Some (cached_for (_get_previous_trading_day today)
                (_option_prev_day_cache self) t)).
Proof. apply coverage_share. Qed.

(** A call keeps every cached record of the day. *)
Lemma prevday_call_keeps_cache (kite : KiteConnect) (today now : Z)
    (tokens : list Z) (max_fetch : Z) (w : world) (t : Z) (rec : prevday_rec) :
  cached_for (_get_previous_trading_day today) (cache_of w) t = Some rec ->
  cached_for (_get_previous_trading_day today)
    (cache_of (snd (get_previous_day_option_ohlc kite today now tokens
                      max_fetch w))) t = Some rec.
Proof.
  intros Hc. rewrite get_previous_day_option_ohlc_unfold.
  destruct tokens as [| token0 rest0]; [exact Hc |].
  destruct (prevday_cooldown_active now (w_self w)) eqn:Hact; [exact Hc |].
  destruct (loop_cache kite (_get_previous_trading_day today)
              (_get_previous_trading_day today - 7) today now max_fetch
              (token0 :: rest0) ∅ 0 w) as [evs [_ [_ [Hkeep _]]]].
  - apply cooldown_inactive_ne, Hact.
  - intros t' r Ht. rewrite lookup_empty in Ht. discriminate Ht.
  - apply Hkeep, Hc.
Qed.

(** X11. A call of [get_previous_day_option_ohlc] never lowers the coverage
    of a token list, and after a call that returned a record for every token
    of its list the coverage of that list is 1. *)
Theorem X11_fetch_raises_coverage (kite : KiteConnect) (today now : Z)
    (tokens : list Z) (max_fetch : Z) (w : world) :
  let out := get_previous_day_option_ohlc kite today now tokens max_fetch w in
  (forall others,
     (_prevday_cache_coverage today others (w_self w)
      <= _prevday_cache_coverage today others (w_self (snd out)))%Q) /\
  ((forall t, In t tokens -> is_Some (fst out !! t)) ->
   (_prevday_cache_coverage today tokens (w_self (snd out)) == 1)%Q).
Proof.
  intros out. split.
  - intros others. destruct others as [| t0 rest] eqn:Eo; [apply Qle_refl |].
    rewrite <- Eo. assert (Hne : others <> []) by (rewrite Eo; discriminate).
    rewrite !(coverage_value today others _ Hne).
    apply ratio_le; [rewrite Eo; cbn [length]; lia |].
    apply covered_count_mono. intros t rec.
    apply (prevday_call_keeps_cache kite today now tokens max_fetch w t rec).
  - intros Hall. apply coverage_share. intros t Ht.
    destruct (Hall t Ht) as [rec Hrec].
    destruct (returned_record_facts kite today now tokens
                max_fetch w t rec Hrec) as [_ [Hd Hc]].
    exists rec. apply cached_for_lookup. split; [exact Hc | exact Hd].
Qed.

(** ** Sharding and background warming *)

Lemma enumerate_from_snoc (lst : list Z) (x : Z) :
  forall idx,
  enumerate_from idx (lst ++ [x])
  = enumerate_from idx lst ++ [((idx + length lst)%nat, x)].
Proof.
  induction lst as [| y l IH]; intros idx; cbn [enumerate_from app length].
  - rewrite Nat.add_0_r. reflexivity.
  - rewrite IH. replace (S idx + length l)%nat with (idx + S (length l))%nat by lia.
    reflexivity.
Qed.

Lemma shard_snoc (lst : list Z) (x : Z) (parts : nat) :
  (2 <= parts)%nat ->
  shard (lst ++ [x]) parts
  = alter (fun s => s ++ [x]) (length lst mod parts)%nat (shard lst parts).
Proof.
  intros Hp. unfold shard.
  destruct (Nat.leb_spec parts 1) as [H | H]; [lia |].
  rewrite enumerate_from_snoc, fold_left_app. reflexivity.
Qed.

Lemma stride_snoc (parts k : nat) (lst : list Z) (x : Z) :
  stride parts k (lst ++ [x])
  = stride parts k lst ++ (if (length lst mod parts =? k)%nat then [x] else []).
Proof.
  unfold stride. rewrite enumerate_from_snoc, List.filter_app, map_app.
  cbn [List.filter fst]. rewrite Nat.add_0_l.
  destruct (length lst mod parts =? k)%nat; reflexivity.
Qed.

Lemma shard_length (lst : list Z) (parts : nat) :
  (2 <= parts)%nat -> length (shard lst parts) = parts.
Proof.
  intros Hp. induction lst as [| x l IH] using rev_ind.
  - unfold shard. destruct (Nat.leb_spec parts 1) as [H | H]; [lia |].
    apply length_replicate.
  - rewrite (shard_snoc l x parts Hp), length_alter. exact IH.
Qed.

Lemma shard_strides (lst : list Z) (parts : nat) :
  (2 <= parts)%nat ->
  shard lst parts = map (fun k => stride parts k lst) (seq 0 parts).
Proof.
  intros Hp. induction lst as [| x l IH] using rev_ind.
  - unfold shard. destruct (Nat.leb_spec parts 1) as [H | H]; [lia |].
    apply list_eq. intros j. cbn [enumerate_from fold_left].
    rewrite list_lookup_fmap.
    destruct (Nat.lt_ge_cases j parts) as [Hj | Hj].
    + rewrite lookup_replicate_2 by exact Hj.
      rewrite lookup_seq_lt by exact Hj. reflexivity.
    + rewrite (proj1 (lookup_replicate_None parts (@nil Z) j)) by lia.
      rewrite lookup_seq_ge by exact Hj. reflexivity.
  - rewrite (shard_snoc l x parts Hp), IH.
    apply list_eq. intros j.
    assert (Hr : (length l mod parts < parts)%nat)
      by (apply Nat.mod_upper_bound; lia).
    destruct (decide (length l mod parts = j)%nat) as [<- | Hne].
    + rewrite list_lookup_alter_eq, !list_lookup_fmap, lookup_seq_lt by exact Hr.
      cbn. rewrite stride_snoc, Nat.eqb_refl. reflexivity.
    + rewrite list_lookup_alter_ne by exact Hne.
      rewrite !list_lookup_fmap.
      destruct (Nat.lt_ge_cases j parts) as [Hj | Hj].
      * rewrite lookup_seq_lt by exact Hj. cbn. rewrite stride_snoc.
        destruct (Nat.eqb_spec (length l mod parts) j) as [E | _];
          [contradiction |]. rewrite app_nil_r. reflexivity.
      * rewrite lookup_seq_ge by exact Hj. reflexivity.
Qed.

Lemma concat_alter_snoc (shards : list (list Z)) (x : Z) :
  forall i, (i < length shards)%nat ->
  concat (alter (fun s => s ++ [x]) i shards) ≡ₚ concat shards ++ [x].
Proof.
  induction shards as [| s rest IH]; intros i Hi; [simpl in Hi; lia |].
  destruct i as [| i]; cbn [alter list_alter concat].
  - rewrite <- !app_assoc. apply Permutation_app_head, Permutation_app_comm.
  - cbn [length] in Hi. change (list_alter ?f i rest) with (alter f i rest).
    rewrite (IH i) by lia. rewrite app_assoc. reflexivity.
Qed.

Lemma shard_permutation (lst : list Z) (parts : nat) :
  (2 <= parts)%nat -> concat (shard lst parts) ≡ₚ lst.
Proof.
  intros Hp. induction lst as [| x l IH] using rev_ind.
  - rewrite (shard_strides [] parts Hp). unfold stride. cbn [enumerate_from List.filter map].
    induction (seq 0 parts) as [| a r IHr]; [reflexivity | exact IHr].
  - rewrite (shard_snoc l x parts Hp), concat_alter_snoc, IH; [reflexivity |].
    rewrite (shard_length l parts Hp). apply Nat.mod_upper_bound. lia.
Qed.

(** X12. [shard] deals the tokens out in turn: with two parts or more,
    shard number k holds, in their order, the tokens at the positions equal to
    k modulo the number of parts, so that the shards together hold every
    token once; with one part or fewer there is a single shard, the list. *)
Theorem X12_shard_deals_in_turn (lst : list Z) (parts : nat) :
  ((parts <= 1)%nat -> shard lst parts = [lst]) /\
  ((2 <= parts)%nat ->
   shard lst parts = map (fun k => stride parts k lst) (seq 0 parts) /\
   length (shard lst parts) = parts /\
   concat (shard lst parts) ≡ₚ lst).
Proof.
  split.
  - intros Hp. unfold shard. destruct (Nat.leb_spec parts 1); [reflexivity | lia].
  - intros Hp. split; [apply shard_strides, Hp |].
    split; [apply shard_length, Hp | apply shard_permutation, Hp].
Qed.

Lemma X12_shard_deals_in_turn_witness :
  shard [11; 12; 13; 14; 15; 16; 17] 3 = [[11; 14; 17]; [12; 15]; [13; 16]] /\
  concat (shard [11; 12; 13; 14; 15; 16; 17] 3) ≡ₚ [11; 12; 13; 14; 15; 16; 17].
Proof.
  destruct (proj2 (X12_shard_deals_in_turn [11; 12; 13; 14; 15; 16; 17] 3)
              ltac:(lia)) as [Hs [_ Hp]].
  split; [reflexivity | exact Hp].
Defined.

(** What the loop over the shards does to the job table. *)
Lemma launch_shards_facts (symbol : string) (expiry : option string)
    (count : nat) (now : Z) (shards : list (list Z)) :
  forall (i : nat) (jobs : gmap string warm_job),
  let out := launch_shards symbol expiry count now i shards jobs in
  (length (snd out) <= length shards)%nat /\
  (forall key toks, In (key, toks) (snd out) ->
     (exists j, key = warm_job_key symbol expiry count (i + j)
                /\ shards !! j = Some toks) /\
     toks <> [] /\
     (forall job, jobs !! key = Some job -> running job = false) /\
     fst out !! key = Some {| running := true; started_at := now |}) /\
  (forall key, (forall toks, ~ In (key, toks) (snd out)) ->
     fst out !! key = jobs !! key) /\
  (forall key job, jobs !! key = Some job -> running job = true ->
     fst out !! key = Some job).
Proof.
  induction shards as [| shard_tokens rest IH]; intros i jobs out.
  - subst out. cbn [launch_shards fst snd length].
    split; [lia |]. split; [intros key toks [] |]. split; auto.
  - assert (Hskip :
      launch_shards symbol expiry count now i (shard_tokens :: rest) jobs
      = launch_shards symbol expiry count now (S i) rest jobs ->
      (length (snd out) <= length (shard_tokens :: rest))%nat /\
      (forall key toks, In (key, toks) (snd out) ->
         (exists j, key = warm_job_key symbol expiry count (i + j)
                    /\ (shard_tokens :: rest) !! j = Some toks) /\
         toks <> [] /\
         (forall job, jobs !! key = Some job -> running job = false) /\
         fst out !! key = Some {| running := true; started_at := now |}) /\
      (forall key, (forall toks, ~ In (key, toks) (snd out)) ->
         fst out !! key = jobs !! key) /\
      (forall key job, jobs !! key = Some job -> running job = true ->
         fst out !! key = Some job)).
    { intros E. subst out. rewrite E.
      destruct (IH (S i) jobs) as [H1 [H2 [H3 H4]]].
      split; [cbn [length]; lia |]. split; [| split; assumption].
      intros key toks Hin. destruct (H2 key toks Hin) as [[j [Hk Hj]] Hrest].
      split; [| exact Hrest]. exists (S j). split; [| exact Hj].
      rewrite Hk. f_equal. lia. }
    assert (Hstart :
      shard_tokens <> [] ->
      (forall job, jobs !! warm_job_key symbol expiry count i = Some job ->
                   running job = false) ->
      launch_shards symbol expiry count now i (shard_tokens :: rest) jobs
      = (let '(jobs', started) :=
           launch_shards symbol expiry count now (S i) rest
             (<[warm_job_key symbol expiry count i :=
                  {| running := true; started_at := now |}]> jobs) in
         (jobs', (warm_job_key symbol expiry count i, shard_tokens) :: started)) ->
      (length (snd out) <= length (shard_tokens :: rest))%nat /\
      (forall key toks, In (key, toks) (snd out) ->
         (exists j, key = warm_job_key symbol expiry count (i + j)
                    /\ (shard_tokens :: rest) !! j = Some toks) /\
         toks <> [] /\
         (forall job, jobs !! key = Some job -> running job = false) /\
         fst out !! key = Some {| running := true; started_at := now |}) /\
      (forall key, (forall toks, ~ In (key, toks) (snd out)) ->
         fst out !! key = jobs !! key) /\
      (forall key job, jobs !! key = Some job -> running job = true ->
         fst out !! key = Some job)).
    { intros Hne Hidle E. subst out. rewrite E.
      set (key0 := warm_job_key symbol expiry count i) in *.
      set (job0 := {| running := true; started_at := now |}) in *.
      destruct (IH (S i) (<[key0 := job0]> jobs)) as [H1 [H2 [H3 H4]]].
      destruct (launch_shards symbol expiry count now (S i) rest
                  (<[key0 := job0]> jobs)) as [jobs' started].
      cbn [fst snd] in *.
      split; [cbn [length]; lia |]. split; [| split].
      - intros key toks [Ehd | Hin].
        + injection Ehd as <- <-.
          split; [exists 0%nat; split; [rewrite Nat.add_0_r; reflexivity | reflexivity] |].
          split; [exact Hne |]. split; [exact Hidle |].
          apply (H4 key0 job0); [apply lookup_insert_eq | reflexivity].
        + destruct (H2 key toks Hin) as [[j [Hk Hj]] [Ht [Hidle' Hrun]]].
          split; [exists (S j); split; [rewrite Hk; f_equal; lia | exact Hj] |].
          split; [exact Ht |]. split; [| exact Hrun].
          intros job Hjob. destruct (decide (key0 = key)) as [Ek | Nk].
          * assert (Hf := Hidle' job0). rewrite <- Ek in Hf.
            rewrite lookup_insert_eq in Hf. discriminate (Hf eq_refl).
          * apply Hidle'. rewrite lookup_insert_ne by exact Nk. exact Hjob.
      - intros key Hnot. rewrite H3 by (intros toks Hin; apply (Hnot toks); right; exact Hin).
        apply lookup_insert_ne. intros Ek. subst key.
        apply (Hnot shard_tokens). left. reflexivity.
      - intros key job Hjob Hrun. apply H4; [| exact Hrun].
        rewrite lookup_insert_ne; [exact Hjob |].
        intros Ek. subst key. rewrite (Hidle job Hjob) in Hrun. discriminate Hrun. }
    destruct shard_tokens as [| t0 ts] eqn:Es; [apply Hskip; reflexivity |].
    rewrite <- Es in *.
    assert (Hne : shard_tokens <> []) by (rewrite Es; discriminate).
    destruct (jobs !! warm_job_key symbol expiry count i) as [job |] eqn:Ej.
    + destruct (running job) eqn:Er.
      * apply Hskip. rewrite Es. cbn [launch_shards]. rewrite Ej, Er. reflexivity.
      * apply (Hstart Hne).
        -- intros job' Hj'. injection Hj' as <-. exact Er.
        -- rewrite Es. cbn [launch_shards]. rewrite Ej, Er. reflexivity.
    + apply (Hstart Hne).
      * intros job' Hj'. discriminate Hj'.
      * rewrite Es. cbn [launch_shards]. rewrite Ej. reflexivity.
Qed.

(** X13. [_ensure_prevday_warm] starts nothing when the coverage is 70% or
    more or the list is empty. Otherwise it starts at most three workers, each
    for a non-empty shard of the tokens; a worker is never started for a job
    that is entered as running; every started job is entered as running; and
    the other entries of the job table are left as they were. *)
Theorem X13_warm_starts_idle_shards_only (today now : Z) (symbol : string)
    (expiry : option string) (ordered_tokens : list Z)
    (self : KiteAPIService) (jobs : gmap string warm_job) :
  let out := _ensure_prevday_warm today now symbol expiry ordered_tokens
               self jobs in
  ((7 # 10 <= _prevday_cache_coverage today ordered_tokens self)%Q ->
   out = (jobs, [])) /\
  (ordered_tokens = [] -> out = (jobs, [])) /\
  (length (snd out) <= 3)%nat /\
  (forall key toks, In (key, toks) (snd out) ->
     In toks (shard ordered_tokens 3) /\ toks <> [] /\
     (forall job, jobs !! key = Some job -> running job = false) /\
     fst out !! key = Some {| running := true; started_at := now |}) /\
  (forall key, (forall toks, ~ In (key, toks) (snd out)) ->
     fst out !! key = jobs !! key).
Proof.
  intros out. subst out. unfold _ensure_prevday_warm. cbv zeta.
  split; [| split].
  - intros H. apply Qle_bool_iff in H. rewrite H. reflexivity.
  - intros ->. rewrite orb_true_r. reflexivity.
  - destruct (Qle_bool (7 # 10) (_prevday_cache_coverage today ordered_tokens self)
              || match ordered_tokens with [] => true | _ :: _ => false end).
    + cbn [fst snd length]. split; [lia |]. split; [intros key toks [] | auto].
    + destruct (launch_shards_facts symbol expiry (length ordered_tokens) now
                  (shard ordered_tokens 3) 0 jobs) as [H1 [H2 [H3 _]]].
      split; [rewrite (shard_length ordered_tokens 3) in H1 by lia; exact H1 |].
      split; [| exact H3].
      intros key toks Hin. destruct (H2 key toks Hin) as [[j [_ Hj]] Hrest].
      split; [| exact Hrest].
      apply list_elem_of_In, list_elem_of_lookup. exists j. exact Hj.
Qed.

(** ** The at-the-money strike *)

Lemma min_by_key_split {A : Type} (key : A -> Q) (l : list A) :
  forall (best : A) (pre mid : list A),
  (forall x, In x pre -> (key best < key x)%Q) ->
  (forall x, In x mid -> (key best <= key x)%Q) ->
  exists pre' post,
    pre ++ best :: mid ++ l = pre' ++ min_by_key key best l :: post /\
    (forall x, In x pre' -> (key (min_by_key key best l) < key x)%Q) /\
    (forall x, In x post -> (key (min_by_key key best l) <= key x)%Q).
Proof.
  induction l as [| x rest IH]; intros best pre mid Hpre Hmid.
  - exists pre, mid. rewrite app_nil_r. cbn [min_by_key]. auto.
  - cbn [min_by_key]. destruct (Qltb (key x) (key best)) eqn:E.
    + apply Qltb_true in E.
      destruct (IH x (pre ++ best :: mid) []) as [pre' [post [Heq H]]].
      * intros y Hy. apply in_app_or in Hy as [Hy | [<- | Hy]].
        -- apply Qlt_trans with (key best); [exact E | apply Hpre, Hy].
        -- exact E.
        -- apply Qlt_le_trans with (key best); [exact E | apply Hmid, Hy].
      * intros y [].
      * exists pre', post. split; [| exact H].
        rewrite <- Heq. cbn [app]. rewrite <- app_assoc. reflexivity.
    + apply Qltb_false in E.
      destruct (IH best pre (mid ++ [x])) as [pre' [post [Heq H]]].
      * exact Hpre.
      * intros y Hy. apply in_app_or in Hy as [Hy | [<- | []]];
          [apply Hmid, Hy | exact E].
      * exists pre', post. split; [| exact H].
        rewrite <- Heq, <- app_assoc. reflexivity.
Qed.

(** X14. The at-the-money strike of a chain is the strike nearest to the
    spot price and, among equally near strikes, the first of the list: every
    strike before it is strictly farther from the spot and every strike after
    it is at least as far. Only an empty list of strikes has none. *)
Theorem X14_atm_strike_is_first_nearest (strikes : list Q) (spot_price : Q) :
  match atm_strike strikes spot_price with
  | None => strikes = []
  | Some atm =>
    exists before after,
      strikes = before ++ atm :: after /\
      (forall x, In x before ->
         (Qabs (atm - spot_price) < Qabs (x - spot_price))%Q) /\
      (forall x, In x after ->
         (Qabs (atm - spot_price) <= Qabs (x - spot_price))%Q)
  end.
Proof.
  unfold atm_strike, py_min_key. destruct strikes as [| s rest]; [reflexivity |].
  destruct (min_by_key_split (fun x => Qabs (x - spot_price)) rest s [] [])
    as [pre [post [Heq H]]]; [intros x [] | intros x [] |].
  exists pre, post. split; [exact Heq | exact H].
Qed.

(** ** Requests of the quote loop *)

Lemma quote_requests_app (l1 l2 : list io_event) :
  quote_requests (l1 ++ l2) = quote_requests l1 ++ quote_requests l2.
Proof. apply flat_map_app. Qed.

Lemma requests_with_retries_length (batches : list (list Z)) :
  forall retried, length retried = length batches ->
  (length batches <= length (requests_with_retries batches retried)
   <= 2 * length batches)%nat.
Proof.
  induction batches as [| b rest IH]; intros [| r rs] Hlen;
    try discriminate Hlen; [simpl; lia |].
  cbn [requests_with_retries]. rewrite length_app.
  specialize (IH rs ltac:(simpl in Hlen; lia)).
  destruct r; cbn [length]; lia.
Qed.

Lemma fetch_quote_batch_log (kite : KiteConnect) (batch : list Z)
    (all_quotes : gmap Z quote) (w : world) :
  exists (r : bool) (ext : list io_event),
    w_log (snd (fetch_quote_batch kite batch all_quotes w)) = w_log w ++ ext /\
    forallb (fun e => negb (is_historical e)) ext = true /\
    quote_requests ext = (if r then [batch; batch] else [batch]) /\
    (r = true <->
     exists msg, kite_quote kite (w_log w) batch = QuoteRaise msg
                 /\ is_quote_rate_limit msg = true).
Proof.
  rewrite fetch_quote_batch_unfold.
  destruct (kite_quote kite (w_log w) batch) as [quotes | | msg] eqn:Hq.
  - exists false. eexists. cbn [snd w_log]. split; [reflexivity |].
    split; [reflexivity |]. split; [reflexivity |].
    split; [discriminate | intros [msg [Hm _]]; discriminate Hm].
  - exists false. eexists. cbn [snd w_log]. split; [reflexivity |].
    split; [reflexivity |]. split; [reflexivity |].
    split; [discriminate | intros [msg [Hm _]]; discriminate Hm].
  - destruct (is_quote_rate_limit msg) eqn:Hrl.
    + exists true. eexists. cbn [snd w_log]. split; [reflexivity |].
      split; [reflexivity |]. split; [reflexivity |].
      split; [intros _; exists msg; split; [reflexivity | exact Hrl] | reflexivity].
    + exists false. eexists. cbn [snd w_log]. split; [reflexivity |].
      split; [reflexivity |]. split; [reflexivity |].
      split; [discriminate |].
      intros [msg' [Hm Hrl']]. injection Hm as <-. congruence.
Qed.

Lemma quote_loop_log (kite : KiteConnect) (batches : list (list Z)) :
  forall (all_quotes : gmap Z quote) (w : world),
  exists (retried : list bool) (ext : list io_event),
    length retried = length batches /\
    w_log (snd (quote_loop kite batches all_quotes w)) = w_log w ++ ext /\
    forallb (fun e => negb (is_historical e)) ext = true /\
    quote_requests ext = requests_with_retries batches retried.
Proof.
  induction batches as [| batch rest IH]; intros all_quotes w.
  - exists [], []. cbn [quote_loop io_ret snd]. rewrite app_nil_r. auto.
  - cbn [quote_loop]. unfold io_bind.
    destruct (fetch_quote_batch_log kite batch all_quotes w)
      as [r [ext1 [Hlog1 [Hh1 [Hq1 _]]]]].
    destruct (fetch_quote_batch kite batch all_quotes w) as [q1 w1].
    cbn [snd] in Hlog1.
    destruct (IH q1 w1) as [rs [ext2 [Hlen [Hlog2 [Hh2 Hq2]]]]].
    exists (r :: rs), (ext1 ++ ext2).
    split; [cbn [length]; rewrite Hlen; reflexivity |].
    split; [rewrite Hlog2, Hlog1, app_assoc; reflexivity |].
    split; [rewrite forallb_app, Hh1, Hh2; reflexivity |].
    rewrite quote_requests_app, Hq1, Hq2. reflexivity.
Qed.

(** X15. The quote loop asks the upstream for each batch in order, once, or
    twice when the first answer is a rate-limit error; so for n tokens it
    sends between ceil(n/400) and twice as many quote requests, and it sends
    no candle request. *)
Theorem X15_quote_requests_follow_batches (kite : KiteConnect)
    (instrument_tokens : list Z) (w : world) :
  exists (retried : list bool) (ext : list io_event),
    w_log (snd (fetch_all_quotes kite instrument_tokens w)) = w_log w ++ ext /\
    forallb (fun e => negb (is_historical e)) ext = true /\
    length retried = length (quote_batches instrument_tokens) /\
    quote_requests ext
    = requests_with_retries (quote_batches instrument_tokens) retried /\
    let batches := ((length instrument_tokens + batch_size - 1) / batch_size)%nat in
    (batches <= length (quote_requests ext) <= 2 * batches)%nat.
Proof.
  destruct (quote_loop_log kite (quote_batches instrument_tokens) ∅ w)
    as [retried [ext [Hlen [Hlog [Hh Hq]]]]].
  exists retried, ext. split; [exact Hlog |]. split; [exact Hh |].
  split; [exact Hlen |]. split; [exact Hq |].
  cbv zeta. rewrite Hq.
  pose proof (requests_with_retries_length _ _ Hlen) as Hb.
  assert (Hn : length (quote_batches instrument_tokens)
               = ((length instrument_tokens + batch_size - 1) / batch_size)%nat).
  { unfold quote_batches, batch_starts. rewrite !length_map, length_seq.
    reflexivity. }
  rewrite Hn in Hb. exact Hb.
Qed.

(** ** Intraday OHLC *)

Lemma today_effect_refl (now market_open : Z) (tokens : list Z)
    (result : gmap Z today_rec) (st : intraday_state) :
  today_effect now market_open tokens result st result st.
Proof.
  split; [auto |]. split; [auto |].
  split; [exists []; rewrite app_nil_r; split; [reflexivity | split; [simpl; lia | constructor]] |].
  split; intros t; left; reflexivity.
Qed.

Lemma today_effect_trans (now market_open token : Z) (rest : list Z)
    (r r1 r2 : gmap Z today_rec) (s s1 s2 : intraday_state) :
  today_effect now market_open [token] r s r1 s1 ->
  today_effect now market_open rest r1 s1 r2 s2 ->
  today_effect now market_open (token :: rest) r s r2 s2.
Proof.
  intros [[A1 [A2 [A3 A4]]] [B [[ext1 [C1 [C2 C3]]] [D E]]]]
         [[A1' [A2' [A3' A4']]] [B' [[ext2 [C1' [C2' C3']]] [D' E']]]].
  split; [repeat split; congruence |].
  split; [destruct B' as [B' | B']; [rewrite B'; exact B | right; exact B'] |].
  split.
  { exists (ext1 ++ ext2). split; [rewrite C1', C1, app_assoc; reflexivity |].
    split; [rewrite length_app; simpl in *; lia |].
    apply Forall_app. split.
    - eapply Forall_impl; [exact C3 |]. intros x [[H | []] H'].
      split; [left; exact H | exact H'].
    - eapply Forall_impl; [exact C3' |]. intros x [H H'].
      split; [right; exact H | exact H']. }
  split.
  - intros t. destruct (D' t) as [H2 | [Hin Hrec]];
      [| right; split; [right; exact Hin | exact Hrec]].
    destruct (D t) as [H1 | [[<- | []] [rec [Hr [Hc Hd]]]]];
      [left; congruence |].
    right. split; [left; reflexivity |]. exists rec.
    split; [congruence |]. split; [| exact Hd].
    destruct (E' token) as [H3 | [_ [rec' [Hr' [Hc' _]]]]]; congruence.
  - intros t. destruct (E' t) as [H2 | [Hin Hrec]];
      [| right; split; [right; exact Hin | exact Hrec]].
    destruct (E t) as [H1 | [[<- | []] [rec [Hr [Hc Hd]]]]];
      [left; congruence |].
    right. split; [left; reflexivity |]. exists rec.
    split; [| split; [congruence | exact Hd]].
    destruct (D' token) as [H3 | [_ [rec' [Hr' [Hc' _]]]]]; congruence.
Qed.

Lemma fresh_today_facts (now max_age_sec : Z) (cache : gmap Z today_rec)
    (token : Z) (rec : today_rec) :
  fresh_today now max_age_sec cache token = Some rec ->
  cache !! token = Some rec /\ t_day rec = date_of now /\
  td_seconds (now - fetched_at rec) < max_age_sec.
Proof.
  unfold fresh_today. destruct (cache !! token) as [c |]; [| discriminate].
  destruct (td_seconds (now - fetched_at c) <? max_age_sec) eqn:E1; [| discriminate].
  destruct (t_day c =? date_of now) eqn:E2; [| discriminate].
  cbn [andb]. intros H. injection H as <-.
  apply Z.ltb_lt in E1. apply Z.eqb_eq in E2. auto.
Qed.

Lemma today_record_stamp (now : Z) (candles : list candle) (rec : today_rec) :
  today_record now candles = Some rec ->
  t_day rec = date_of now /\ fetched_at rec = now.
Proof.
  unfold today_record. destruct candles as [| first more]; [discriminate |].
  destruct (fields_of c_high (first :: more)) as [[| h hs] |]; try discriminate.
  destruct (fields_of c_low (first :: more)) as [[| l ls] |]; try discriminate.
  intros H. injection H as <-. split; reflexivity.
Qed.

Lemma today_loop_effect (minute : minute_source) (now market_open max_age_sec : Z)
    (tokens : list Z) :
  forall (result : gmap Z today_rec) (st : intraday_state),
  let out := today_loop minute now market_open max_age_sec tokens result st in
  today_effect now market_open tokens result st (fst out) (snd out).
Proof.
  induction tokens as [| token rest IH]; intros result st out; subst out.
  - apply today_effect_refl.
  - cbn [today_loop].
    destruct (fresh_today now max_age_sec (_option_today_cache st) token)
      as [cache_rec |] eqn:Hfresh.
    { apply fresh_today_facts in Hfresh as [Hc [Hd _]].
      eapply today_effect_trans; [| apply IH].
      split; [auto |]. split; [auto |].
      split; [exists []; rewrite app_nil_r; split; [reflexivity | split; [simpl; lia | constructor]] |].
      split; intros t; [| left; reflexivity].
      destruct (decide (token = t)) as [<- | Hne].
      - right. split; [left; reflexivity |]. exists cache_rec.
        rewrite lookup_insert_eq. auto.
      - left. apply lookup_insert_ne, Hne. }
    assert (Hlogged : forall r1,
      (forall t, r1 !! t = result !! t) ->
      today_effect now market_open [token] result st r1
        (log_minute_request token market_open now st)).
    { intros r1 Hr1. split; [cbn; auto |]. split; [left; reflexivity |].
      split.
      { exists [(token, market_open, now)]. split; [reflexivity |].
        split; [simpl; lia |]. constructor; [| constructor].
        cbn. split; [left; reflexivity | split; reflexivity]. }
      split; intros t; left; [apply Hr1 | reflexivity]. }
    cbv zeta.
    destruct (minute (i_requests st) token market_open now) as [candles | msg].
    + destruct (today_record now candles) as [rec |] eqn:Hrec.
      * apply today_record_stamp in Hrec as [Hd Hf].
        eapply today_effect_trans; [| apply IH].
        split; [cbn; auto |]. split; [left; reflexivity |].
        split.
        { exists [(token, market_open, now)]. split; [reflexivity |].
          split; [simpl; lia |]. constructor; [| constructor].
          cbn. split; [left; reflexivity | split; reflexivity]. }
        split; intros t.
        -- destruct (decide (token = t)) as [<- | Hne].
           ++ right. split; [left; reflexivity |]. exists rec.
              cbn. rewrite !lookup_insert_eq. auto.
           ++ left. apply lookup_insert_ne, Hne.
        -- destruct (decide (token = t)) as [<- | Hne].
           ++ right. split; [left; reflexivity |]. exists rec.
              cbn. rewrite !lookup_insert_eq. auto.
           ++ left. cbn. apply lookup_insert_ne, Hne.
      * eapply today_effect_trans; [apply Hlogged; reflexivity | apply IH].
    + destruct (is_too_many_requests msg).
      * cbn [fst snd].
        eapply today_effect_trans;
          [apply (Hlogged result); reflexivity |].
        split; [cbn; auto |]. split; [right; reflexivity |].
        split; [exists []; rewrite app_nil_r; split; [reflexivity | split; [simpl; lia | constructor]] |].
        split; intros t; left; reflexivity.
      * eapply today_effect_trans; [apply Hlogged; reflexivity | apply IH].
Qed.

Lemma intraday_guarded (minute : minute_source) (now : Z) (tokens : list Z)
    (max_age_sec : Z) (st : intraday_state) :
  tokens = [] \/ intraday_cooldown_active now (i_self st) = true \/
  now < market_open_of now \/ (400 < length tokens)%nat ->
  get_current_day_option_ohlc minute now tokens max_age_sec st = (∅, st).
Proof.
  unfold get_current_day_option_ohlc. intros H.
  destruct tokens as [| t0 ts]; [reflexivity |].
  destruct (intraday_cooldown_active now (i_self st)); [reflexivity |].
  destruct (Z.ltb_spec now (market_open_of now)); [reflexivity |].
  destruct (Nat.ltb_spec 400 (length (t0 :: ts))); [reflexivity |].
  destruct H as [H | [H | [H | H]]]; [discriminate | discriminate | lia | lia].
Qed.

Lemma intraday_open (minute : minute_source) (now : Z) (tokens : list Z)
    (max_age_sec : Z) (st : intraday_state) :
  intraday_cooldown_active now (i_self st) = false ->
  market_open_of now <= now ->
  (length tokens <= 400)%nat ->
  get_current_day_option_ohlc minute now tokens max_age_sec st
  = today_loop minute now (market_open_of now) max_age_sec tokens ∅ st.
Proof.
  unfold get_current_day_option_ohlc. intros Hc Ho Hn.
  destruct tokens as [| t0 ts]; [reflexivity |]. rewrite Hc.
  destruct (Z.ltb_spec now (market_open_of now)); [lia |].
  destruct (Nat.ltb_spec 400 (length (t0 :: ts))); [lia | reflexivity].
Qed.

Lemma intraday_effect (minute : minute_source) (now : Z) (tokens : list Z)
    (max_age_sec : Z) (st : intraday_state) :
  let out := get_current_day_option_ohlc minute now tokens max_age_sec st in
  today_effect now (market_open_of now) tokens ∅ st (fst out) (snd out).
Proof.
  intros out. subst out. unfold get_current_day_option_ohlc.
  destruct tokens as [| t0 ts]; [apply today_effect_refl |].
  destruct (intraday_cooldown_active now (i_self st)); [apply today_effect_refl |].
  cbv zeta.
  destruct (now <? market_open_of now); [apply today_effect_refl |].
  destruct (400 <? length (t0 :: ts))%nat; [apply today_effect_refl |].
  apply today_loop_effect.
Qed.

(** X16. Whatever the upstream answers, a call of
    [get_current_day_option_ohlc] leaves the session records, the
    previous-day cache and the previous-day cooldown alone; it sends at most
    one minute-candle request per listed token, never more than 400, each for
    a listed token and from 09:15 of the day to the time of the call; it sends
    none while the intraday cooldown is active, before 09:15 and for more than
    400 tokens; and every record it returns is for a listed token, is dated
    with the day of the call, and is the one the cache holds after the
    call. *)
Theorem X16_intraday_call_is_bounded (minute : minute_source) (now : Z)
    (tokens : list Z) (max_age_sec : Z) (st : intraday_state) :
  let out := get_current_day_option_ohlc minute now tokens max_age_sec st in
  (_session_ohlc (i_self (snd out)) = _session_ohlc (i_self st) /\
   _session_day (i_self (snd out)) = _session_day (i_self st) /\
   _option_prev_day_cache (i_self (snd out)) = _option_prev_day_cache (i_self st) /\
   _rate_limit_prevday_cooldown_until (i_self (snd out))
   = _rate_limit_prevday_cooldown_until (i_self st)) /\
  (exists ext,
     i_requests (snd out) = i_requests st ++ ext /\
     (length ext <= length tokens)%nat /\ (length ext <= 400)%nat /\
     Forall (fun r => In (fst (fst r)) tokens
                      /\ snd (fst r) = market_open_of now /\ snd r = now) ext /\
     (intraday_cooldown_active now (i_self st) = true \/
      now < market_open_of now \/ (400 < length tokens)%nat -> ext = [])) /\
  (forall t rec,
     fst out !! t = Some rec ->
     In t tokens /\ t_day rec = date_of now /\
     _option_today_cache (snd out) !! t = Some rec).
Proof.
  intros out.
  destruct (intraday_effect minute now tokens max_age_sec st)
    as [Hframe [_ [[ext [Hlog [Hlen Hall]]] [Hres _]]]].
  fold out in Hframe, Hlog, Hres.
  split; [exact Hframe |]. split.
  - exists ext. split; [exact Hlog |]. split; [exact Hlen |].
    assert (Hguard : intraday_cooldown_active now (i_self st) = true \/
                     now < market_open_of now \/ (400 < length tokens)%nat ->
                     ext = []).
    { intros Hg.
      assert (E : out = (∅, st))
        by (apply intraday_guarded; right; exact Hg).
      rewrite E in Hlog. cbn [snd] in Hlog.
      apply (f_equal (@length _)) in Hlog. rewrite length_app in Hlog.
      destruct ext; [reflexivity | simpl in Hlog; lia]. }
    split; [| split; [exact Hall | exact Hguard]].
    destruct (Nat.le_gt_cases (length tokens) 400) as [H | H]; [lia |].
    rewrite Hguard by (right; right; exact H). simpl. lia.
  - intros t rec Ht. destruct (Hres t) as [H | [Hin [rec' [Hr [Hc Hd]]]]].
    + rewrite Ht, lookup_empty in H. discriminate H.
    + assert (rec' = rec) by congruence. subst rec'. auto.
Qed.

Lemma today_loop_rate_limit_last (minute : minute_source)
    (now market_open max_age_sec : Z) (tokens : list Z) :
  forall (result : gmap Z today_rec) (st : intraday_state),
  let out := today_loop minute now market_open max_age_sec tokens result st in
  exists ext,
    i_requests (snd out) = i_requests st ++ ext /\
    forall before token f t after msg,
      ext = before ++ (token, f, t) :: after ->
      minute (i_requests st ++ before) token f t = HistRaise msg ->
      is_too_many_requests msg = true ->
      after = [] /\
      _rate_limit_intraday_cooldown_until (i_self (snd out))
      = Some (now + timedelta_seconds 90).
Proof.
  induction tokens as [| token0 rest IH]; intros result st out; subst out.
  - exists []. cbn [today_loop snd]. rewrite app_nil_r. split; [reflexivity |].
    intros [| b before] token f t after msg E; discriminate E.
  - cbn [today_loop].
    destruct (fresh_today now max_age_sec (_option_today_cache st) token0)
      as [cache_rec |]; [apply IH |].
    cbv zeta.
    assert (Hgo : forall r1 st1,
      i_requests st1 = i_requests st ++ [(token0, market_open, now)] ->
      (forall msg, minute (i_requests st) token0 market_open now = HistRaise msg ->
                   is_too_many_requests msg = false) ->
      let out := today_loop minute now market_open max_age_sec rest r1 st1 in
      exists ext,
        i_requests (snd out) = i_requests st ++ ext /\
        forall before token f t after msg,
          ext = before ++ (token, f, t) :: after ->
          minute (i_requests st ++ before) token f t = HistRaise msg ->
          is_too_many_requests msg = true ->
          after = [] /\
          _rate_limit_intraday_cooldown_until (i_self (snd out))
          = Some (now + timedelta_seconds 90)).
    { intros r1 st1 Hreq Hok out.
      destruct (IH r1 st1) as [ext [Hlog Hlast]]. fold out in Hlog, Hlast.
      exists ((token0, market_open, now) :: ext).
      split; [rewrite Hlog, Hreq, <- app_assoc; reflexivity |].
      intros [| b before] token f t after msg E Hraise Hrl.
      - cbn [app] in E. injection E as E1 E2 E3 E4. subst token f t.
        rewrite app_nil_r in Hraise. rewrite (Hok msg Hraise) in Hrl.
        discriminate Hrl.
      - cbn [app] in E. injection E as Eb E. subst b.
        apply (Hlast before token f t after msg E); [| exact Hrl].
        rewrite Hreq, <- app_assoc. exact Hraise. }
    destruct (minute (i_requests st) token0 market_open now) as [candles | msg0] eqn:Hr.
    + destruct (today_record now candles) as [rec |];
        (apply Hgo; [reflexivity | intros msg Hm; discriminate Hm]).
    + destruct (is_too_many_requests msg0) eqn:Hrl0.
      * exists [(token0, market_open, now)]. cbn [snd].
        split; [reflexivity |].
        intros [| b [| b' before]] token f t after msg E Hraise Hrl;
          cbn [app] in E; try discriminate E.
        injection E as E1 E2 E3 E4. split; [symmetry; exact E4 | reflexivity].
      * apply Hgo; [reflexivity |].
        intros msg Hm. injection Hm as <-. exact Hrl0.
Qed.

Lemma intraday_cooldown_blocks (until now2 : Z) (st : intraday_state) :
  _rate_limit_intraday_cooldown_until (i_self st) = Some until ->
  now2 < until ->
  intraday_cooldown_active now2 (i_self st) = true.
Proof.
  intros Hc Hlt. unfold intraday_cooldown_active. rewrite Hc.
  apply Z.ltb_lt, Hlt.
Qed.

(** X17. In a call of [get_current_day_option_ohlc], a minute-candle request
    answered by an error whose message contains 'Too many requests' is the
    last request of the call and sets the intraday cooldown to 90 seconds
    after the time of the call; until then every further call returns an
    empty map, sends no request and changes nothing. *)
Theorem X17_intraday_rate_limit_cools_down (minute : minute_source) (now : Z)
    (tokens : list Z) (max_age_sec : Z) (st : intraday_state) :
  let out := get_current_day_option_ohlc minute now tokens max_age_sec st in
  exists ext,
    i_requests (snd out) = i_requests st ++ ext /\
    forall before token f t after msg,
      ext = before ++ (token, f, t) :: after ->
      minute (i_requests st ++ before) token f t = HistRaise msg ->
      is_too_many_requests msg = true ->
      after = [] /\
      _rate_limit_intraday_cooldown_until (i_self (snd out))
      = Some (now + timedelta_seconds 90) /\
      forall minute2 now2 tokens2 max_age_sec2,
        now2 < now + timedelta_seconds 90 ->
        get_current_day_option_ohlc minute2 now2 tokens2 max_age_sec2 (snd out)
        = (∅, snd out).
Proof.
  intros out.
  assert (Hloop : exists ext,
    i_requests (snd out) = i_requests st ++ ext /\
    forall before token f t after msg,
      ext = before ++ (token, f, t) :: after ->
      minute (i_requests st ++ before) token f t = HistRaise msg ->
      is_too_many_requests msg = true ->
      after = [] /\
      _rate_limit_intraday_cooldown_until (i_self (snd out))
      = Some (now + timedelta_seconds 90)).
  { assert (Hnone : out = (∅, st) -> exists ext,
      i_requests (snd out) = i_requests st ++ ext /\
      forall before token f t after msg,
        ext = before ++ (token, f, t) :: after ->
        minute (i_requests st ++ before) token f t = HistRaise msg ->
        is_too_many_requests msg = true ->
        after = [] /\
        _rate_limit_intraday_cooldown_until (i_self (snd out))
        = Some (now + timedelta_seconds 90)).
    { intros ->. exists []. cbn [snd]. rewrite app_nil_r. split; [reflexivity |].
      intros [| b before] token f t after msg E; discriminate E. }
    subst out. unfold get_current_day_option_ohlc in *.
    destruct tokens as [| t0 ts]; [apply Hnone; reflexivity |].
    destruct (intraday_cooldown_active now (i_self st));
      [apply Hnone; reflexivity |].
    cbv zeta in *.
    destruct (now <? market_open_of now); [apply Hnone; reflexivity |].
    destruct (400 <? length (t0 :: ts))%nat; [apply Hnone; reflexivity |].
    apply today_loop_rate_limit_last. }
  destruct Hloop as [ext [Hlog Hlast]]. exists ext. split; [exact Hlog |].
  intros before token f t after msg E Hraise Hrl.
  destruct (Hlast before token f t after msg E Hraise Hrl) as [Hafter Hcool].
  split; [exact Hafter |]. split; [exact Hcool |].
  intros minute2 now2 tokens2 max_age_sec2 Hlt.
  apply intraday_guarded. right. left.
  apply (intraday_cooldown_blocks _ _ _ Hcool Hlt).
Qed.

(** *** The record built from the candles *)

Lemma py_max_spec (rest : list Q) :
  forall first,
  In (py_max first rest) (first :: rest) /\
  (forall x, In x (first :: rest) -> (x <= py_max first rest)%Q).
Proof.
  unfold py_max. induction rest as [| y rest IH]; intros first.
  - cbn [fold_left]. split; [left; reflexivity |].
    intros x [<- | []]. apply Qle_refl.
  - cbn [fold_left]. destruct (Qltb first y) eqn:E.
    + apply Qltb_true in E. destruct (IH y) as [Hin Hub].
      split; [right; exact Hin |].
      intros x [<- | Hx]; [| apply Hub, Hx].
      apply Qle_trans with y; [apply Qlt_le_weak, E | apply Hub; left; reflexivity].
    + apply Qltb_false in E. destruct (IH first) as [Hin Hub].
      split; [destruct Hin as [H | H]; [left; exact H | right; right; exact H] |].
      intros x [<- | [<- | Hx]].
      * apply Hub. left. reflexivity.
      * apply Qle_trans with first; [exact E | apply Hub; left; reflexivity].
      * apply Hub. right. exact Hx.
Qed.

Lemma py_min_spec (rest : list Q) :
  forall first,
  In (py_min first rest) (first :: rest) /\
  (forall x, In x (first :: rest) -> (py_min first rest <= x)%Q).
Proof.
  unfold py_min. induction rest as [| y rest IH]; intros first.
  - cbn [fold_left]. split; [left; reflexivity |].
    intros x [<- | []]. apply Qle_refl.
  - cbn [fold_left]. destruct (Qltb y first) eqn:E.
    + apply Qltb_true in E. destruct (IH y) as [Hin Hlb].
      split; [right; exact Hin |].
      intros x [<- | Hx]; [| apply Hlb, Hx].
      apply Qle_trans with y; [apply Hlb; left; reflexivity | apply Qlt_le_weak, E].
    + apply Qltb_false in E. destruct (IH first) as [Hin Hlb].
      split; [destruct Hin as [H | H]; [left; exact H | right; right; exact H] |].
      intros x [<- | [<- | Hx]].
      * apply Hlb. left. reflexivity.
      * apply Qle_trans with first; [apply Hlb; left; reflexivity | exact E].
      * apply Hlb. right. exact Hx.
Qed.

Lemma fields_of_some (field : candle -> option Q) (candles : list candle) :
  Forall (fun c => field c <> None) candles ->
  exists vs, fields_of field candles = Some vs.
Proof.
  induction candles as [| c rest IH]; intros Hall; [exists []; reflexivity |].
  apply Forall_cons in Hall as [Hc Hrest]. destruct (IH Hrest) as [vs Hvs].
  cbn [fields_of]. rewrite Hvs. destruct (field c) as [v |]; [| contradiction].
  exists (v :: vs). reflexivity.
Qed.

Lemma fields_of_values (field : candle -> option Q) (candles : list candle) :
  forall vs, fields_of field candles = Some vs ->
  (forall c, In c candles -> exists v, field c = Some v /\ In v vs) /\
  (forall v, In v vs -> exists c, In c candles /\ field c = Some v).
Proof.
  induction candles as [| c rest IH]; intros vs Hvs.
  - injection Hvs as <-. split; [intros c [] | intros v []].
  - cbn [fields_of] in Hvs. destruct (field c) as [v0 |] eqn:Hc; [| discriminate].
    destruct (fields_of field rest) as [vs0 |]; [| discriminate].
    injection Hvs as <-. destruct (IH vs0 eq_refl) as [H1 H2]. split.
    + intros c' [<- | Hin]; [exists v0; split; [exact Hc | left; reflexivity] |].
      destruct (H1 c' Hin) as [v [Hv Hvin]]. exists v. split; [exact Hv | right; exact Hvin].
    + intros v [<- | Hin]; [exists c; split; [left; reflexivity | exact Hc] |].
      destruct (H2 v Hin) as [c' [Hc' Hv]]. exists c'. split; [right; exact Hc' | exact Hv].
Qed.

Lemma today_record_facts (now : Z) (first : candle) (more : list candle) :
  Forall (fun c => c_high c <> None) (first :: more) ->
  Forall (fun c => c_low c <> None) (first :: more) ->
  exists rec,
    today_record now (first :: more) = Some rec /\
    t_day rec = date_of now /\ fetched_at rec = now /\
    t_open rec = c_open first /\
    t_close rec = c_close (List.last more first) /\
    (exists c, In c (first :: more) /\ c_high c = Some (t_high rec)) /\
    (exists c, In c (first :: more) /\ c_low c = Some (t_low rec)) /\
    (forall c, In c (first :: more) ->
       exists h l, c_high c = Some h /\ c_low c = Some l /\
                   (h <= t_high rec)%Q /\ (t_low rec <= l)%Q).
Proof.
  intros Hh Hl.
  destruct (fields_of_some c_high _ Hh) as [hs Hhs].
  destruct (fields_of_some c_low _ Hl) as [ls Hls].
  destruct (fields_of_values c_high _ hs Hhs) as [Hh1 Hh2].
  destruct (fields_of_values c_low _ ls Hls) as [Hl1 Hl2].
  unfold today_record. rewrite Hhs, Hls.
  destruct hs as [| h hs];
    [destruct (Hh1 first (or_introl eq_refl)) as [v [_ []]] |].
  destruct ls as [| l ls];
    [destruct (Hl1 first (or_introl eq_refl)) as [v [_ []]] |].
  destruct (py_max_spec hs h) as [Hmax_in Hmax].
  destruct (py_min_spec ls l) as [Hmin_in Hmin].
  eexists. split; [reflexivity |]. cbn [t_day fetched_at t_open t_close t_high t_low].
  split; [reflexivity |]. split; [reflexivity |]. split; [reflexivity |].
  split.
  { f_equal. destruct more; reflexivity. }
  split; [apply Hh2, Hmax_in |]. split; [apply Hl2, Hmin_in |].
  intros c Hc. destruct (Hh1 c Hc) as [hv [Hhv Hhin]].
  destruct (Hl1 c Hc) as [lv [Hlv Hlin]].
  exists hv, lv. split; [exact Hhv |]. split; [exact Hlv |].
  split; [apply Hmax, Hhin | apply Hmin, Hlin].
Qed.

(** X18. When the minute candles of a token are fetched, the record that is
    returned and cached has the open of the first candle, the close of the
    last one, as high the greatest high among the candles and as low the
    least low; it is dated with the day and the time of the call. *)
Theorem X18_intraday_record_spans_candles (minute : minute_source) (now : Z)
    (token : Z) (max_age_sec : Z) (st : intraday_state)
    (first : candle) (more : list candle) :
  intraday_cooldown_active now (i_self st) = false ->
  market_open_of now <= now ->
  fresh_today now max_age_sec (_option_today_cache st) token = None ->
  minute (i_requests st) token (market_open_of now) now
  = HistCandles (first :: more) ->
  Forall (fun c => c_high c <> None) (first :: more) ->
  Forall (fun c => c_low c <> None) (first :: more) ->
  let out := get_current_day_option_ohlc minute now [token] max_age_sec st in
  exists rec,
    fst out = {[ token := rec ]} /\
    _option_today_cache (snd out) = <[token := rec]> (_option_today_cache st) /\
    t_day rec = date_of now /\ fetched_at rec = now /\
    t_open rec = c_open first /\
    t_close rec = c_close (List.last more first) /\
    (exists c, In c (first :: more) /\ c_high c = Some (t_high rec)) /\
    (exists c, In c (first :: more) /\ c_low c = Some (t_low rec)) /\
    (forall c, In c (first :: more) ->
       exists h l, c_high c = Some h /\ c_low c = Some l /\
                   (h <= t_high rec)%Q /\ (t_low rec <= l)%Q).
Proof.
  intros Hcool Hopen Hfresh Hans Hh Hl out. subst out.
  rewrite intraday_open by (assumption || (simpl; lia)).
  destruct (today_record_facts now first more Hh Hl) as [rec [Hrec Hfacts]].
  exists rec. cbn [today_loop]. rewrite Hfresh. cbv zeta. rewrite Hans, Hrec.
  cbn [fst snd store_today log_minute_request _option_today_cache].
  split; [apply insert_empty |]. split; [reflexivity | exact Hfacts].
Qed.

(** *** Reuse within the time to live *)

Lemma same_day_delta (now now2 : Z) :
  date_of now2 = date_of now -> now <= now2 ->
  td_seconds (now2 - now) = (now2 - now) / 1000000.
Proof.
  unfold date_of, td_seconds, us_per_day. intros Hd Hle.
  pose proof (Z.div_mod now (86400 * 1000000) ltac:(lia)) as E1.
  pose proof (Z.div_mod now2 (86400 * 1000000) ltac:(lia)) as E2.
  pose proof (Z.mod_pos_bound now (86400 * 1000000) ltac:(lia)) as B1.
  pose proof (Z.mod_pos_bound now2 (86400 * 1000000) ltac:(lia)) as B2.
  rewrite Z.mod_small; [reflexivity |]. rewrite Hd in E2. lia.
Qed.

Lemma same_day_open (now now2 : Z) :
  date_of now2 = date_of now -> market_open_of now2 = market_open_of now.
Proof. unfold market_open_of. intros ->. reflexivity. Qed.

(** X19. A record that a call fetches for a token is served again from the
    cache: a later call for that token on the same day, less than
    [max_age_sec] seconds after the first and with no cooldown active,
    returns the same record without a request and changes nothing. *)
Theorem X19_intraday_record_is_reused (minute minute2 : minute_source)
    (now now2 : Z) (tokens : list Z) (max_age_sec max_age_sec2 : Z)
    (st : intraday_state) (token : Z) (rec : today_rec) :
  let out := get_current_day_option_ohlc minute now tokens max_age_sec st in
  _option_today_cache st !! token = None ->
  fst out !! token = Some rec ->
  date_of now2 = date_of now ->
  now <= now2 < now + timedelta_seconds max_age_sec2 ->
  intraday_cooldown_active now2 (i_self (snd out)) = false ->
  get_current_day_option_ohlc minute2 now2 [token] max_age_sec2 (snd out)
  = ({[ token := rec ]}, snd out).
Proof.
  intros out Hmiss Hres Hday [Hle Hlt] Hcool.
  destruct (intraday_effect minute now tokens max_age_sec st)
    as [_ [_ [_ [Hr Hc]]]]. fold out in Hr, Hc.
  assert (Hopen : market_open_of now <= now).
  { destruct (Z.lt_ge_cases now (market_open_of now)) as [H | H]; [| lia].
    assert (E : out = (∅, st))
      by (apply intraday_guarded; right; right; left; exact H).
    rewrite E in Hres. cbn [fst] in Hres. rewrite lookup_empty in Hres.
    discriminate Hres. }
  assert (Hcached : _option_today_cache (snd out) !! token = Some rec
                    /\ t_day rec = date_of now /\ fetched_at rec = now).
  { destruct (Hc token) as [H | [_ [rec' [Hr' [Hc' [Hd' Hf']]]]]].
    - destruct (Hr token) as [H' | [_ [rec' [Hr' [Hc' _]]]]].
      + rewrite Hres, lookup_empty in H'. discriminate H'.
      + rewrite Hc', Hmiss in H. discriminate H.
    - assert (rec' = rec) by congruence. subst rec'. auto. }
  destruct Hcached as [Hc1 [Hd1 Hf1]].
  rewrite intraday_open;
    [| exact Hcool | rewrite (same_day_open now now2 Hday); lia | simpl; lia].
  cbn [today_loop]. unfold fresh_today. rewrite Hc1, Hf1, Hd1.
  rewrite (same_day_delta now now2 Hday Hle).
  assert (Hage : (now2 - now) / 1000000 < max_age_sec2).
  { apply Z.div_lt_upper_bound; [lia |]. unfold timedelta_seconds in Hlt. lia. }
  apply Z.ltb_lt in Hage. rewrite Hage, Hday, Z.eqb_refl. cbn [andb].
  rewrite insert_empty. reflexivity.
Qed.

(** ** Analysis fields *)

Lemma round_half_even_bounds (x : Q) :
  Qfloor x <= round_half_even x <= Qfloor x + 1.
Proof.
  unfold round_half_even. cbv zeta.
  destruct (Qltb _ _); [lia |]. destruct (Qltb _ _); [lia |].
  destruct (Z.even _); lia.
Qed.

Lemma round_half_even_mono (x y : Q) :
  (x <= y)%Q -> round_half_even x <= round_half_even y.
Proof.
  intros Hxy. pose proof (Qfloor_resp_le x y Hxy) as Hf.
  destruct (Z.eq_dec (Qfloor x) (Qfloor y)) as [E | N].
  - unfold round_half_even. cbv zeta. rewrite E.
    destruct (Qltb (x - inject_Z (Qfloor y)) (1 # 2)) eqn:E1;
      destruct (Qltb (y - inject_Z (Qfloor y)) (1 # 2)) eqn:E2;
      destruct (Qltb (1 # 2) (x - inject_Z (Qfloor y))) eqn:E3;
      destruct (Qltb (1 # 2) (y - inject_Z (Qfloor y))) eqn:E4;
      try (apply Qltb_true in E1); try (apply Qltb_false in E1);
      try (apply Qltb_true in E2); try (apply Qltb_false in E2);
      try (apply Qltb_true in E3); try (apply Qltb_false in E3);
      try (apply Qltb_true in E4); try (apply Qltb_false in E4);
      revert E1 E2 E3 E4 Hxy; generalize (inject_Z (Qfloor y)); intros q;
      intros; destruct (Z.even (Qfloor y)); try lia; exfalso; lra.
  - pose proof (round_half_even_bounds x). pose proof (round_half_even_bounds y).
    lia.
Qed.

Lemma round_half_even_int (n : Z) : round_half_even (inject_Z n) = n.
Proof.
  unfold round_half_even. cbv zeta. rewrite Qfloor_Z.
  assert (H : Qltb (inject_Z n - inject_Z n) (1 # 2) = true)
    by (apply Qltb_true; lra).
  rewrite H. reflexivity.
Qed.

Lemma round2_mono (x y : Q) : (x <= y)%Q -> (round2 x <= round2 y)%Q.
Proof.
  intros Hxy. unfold round2.
  assert (H : round_half_even (x * 100) <= round_half_even (y * 100))
    by (apply round_half_even_mono; lra).
  rewrite Zle_Qle in H. revert H.
  generalize (inject_Z (round_half_even (x * 100))),
             (inject_Z (round_half_even (y * 100))).
  intros a b H. apply Qmult_le_compat_r; [exact H | discriminate].
Qed.

Lemma round_half_even_comp (x y : Q) :
  (x == y)%Q -> round_half_even x = round_half_even y.
Proof.
  intros E.
  pose proof (round_half_even_mono x y ltac:(rewrite E; apply Qle_refl)).
  pose proof (round_half_even_mono y x ltac:(rewrite E; apply Qle_refl)).
  lia.
Qed.

Lemma round2_hundredths (n : Z) : (round2 (inject_Z n) == inject_Z n)%Q.
Proof.
  unfold round2.
  rewrite (round_half_even_comp (inject_Z n * 100) (inject_Z (n * 100)))
    by (rewrite inject_Z_mult; reflexivity).
  rewrite round_half_even_int, inject_Z_mult. field.
Qed.

Lemma analysis_signal (option_type : string)
    (ltp spot_price strike delta gamma theta vega time_to_expiry : Q) :
  let a := _calculate_analysis_fields option_type ltp spot_price strike delta
             gamma theta vega time_to_expiry in
  let s := decay_adjusted theta (greeks_signal option_type delta theta) in
  signal_type a = fst s /\
  signal_strength a = Z.max 1 (Z.min 5 (snd s)) /\
  (signal_quality a, signal_confidence a) = greeks_quality gamma vega.
Proof.
  unfold _calculate_analysis_fields. cbv zeta.
  destruct (String.eqb option_type "CE");
    destruct (greeks_quality gamma vega);
    destruct (decay_adjusted theta (greeks_signal option_type delta theta));
    repeat split.
Qed.

Lemma bullishb_spec (option_type : string) (delta : Q) :
  bullishb option_type delta = true <-> bullish option_type delta.
Proof.
  unfold bullishb, bullish.
  rewrite orb_true_iff, !andb_true_iff, !Qltb_true, !String.eqb_eq.
  reflexivity.
Qed.

Lemma Qabs_cases (x : Q) :
  (Qabs x == x /\ 0 <= x)%Q \/ (Qabs x == - x /\ x <= 0)%Q.
Proof.
  destruct (Qlt_le_dec x 0) as [H | H].
  - right. split; [apply Qabs_neg; lra | lra].
  - left. split; [apply Qabs_pos; exact H | exact H].
Qed.

(** The branches of the signal logic, folded into one table. *)
Lemma signal_folded (option_type : string) (delta theta : Q) :
  decay_adjusted theta (greeks_signal option_type delta theta)
  = if bullishb option_type delta then
      ("BUY"%string,
       (if Qltb (7 # 10) (Qabs delta) then 5 else 4)
       - (if Qltb (5 # 100) (Qabs theta) then 1 else 0))
    else if Qltb (5 # 100) (Qabs theta) then
      ("SELL"%string, if Qltb (3 # 10) (Qabs delta) then 2 else 1)
    else ("HOLD"%string, 3).
Proof.
  unfold decay_adjusted, greeks_signal, bullishb. cbv zeta.
  pose proof (Qabs_cases delta) as Habs. revert Habs.
  generalize (Qabs delta) as ad, (Qabs theta) as at0. intros ad at0 Habs.
  destruct (String.eqb_spec option_type "CE") as [Hce | Hce];
    destruct (String.eqb_spec option_type "PE") as [Hpe | Hpe];
    try (rewrite Hce in Hpe; discriminate Hpe);
    destruct (Qltb (7 # 10) ad) eqn:E1;
    destruct (Qltb (7 # 10) delta) eqn:E2;
    destruct (Qltb (5 # 10) ad) eqn:E3;
    destruct (Qltb (5 # 10) delta) eqn:E4;
    destruct (Qltb (1 # 2) ad) eqn:E3';
    destruct (Qltb (1 # 2) delta) eqn:E4';
    destruct (Qltb (3 # 10) ad) eqn:E5;
    destruct (Qltb (3 # 10) delta) eqn:E6;
    destruct (Qltb (5 # 100) at0) eqn:E7;
    try reflexivity; exfalso;
    try (apply Qltb_true in E1); try (apply Qltb_false in E1);
    try (apply Qltb_true in E2); try (apply Qltb_false in E2);
    try (apply Qltb_true in E3); try (apply Qltb_false in E3);
    try (apply Qltb_true in E4); try (apply Qltb_false in E4);
    try (apply Qltb_true in E3'); try (apply Qltb_false in E3');
    try (apply Qltb_true in E4'); try (apply Qltb_false in E4');
    try (apply Qltb_true in E5); try (apply Qltb_false in E5);
    destruct Habs as [[Ha Hs] | [Ha Hs]]; lra.
Qed.

Lemma signal_table (option_type : string) (delta theta : Q) :
  let s := decay_adjusted theta (greeks_signal option_type delta theta) in
  (fst s = "BUY"%string <-> bullish option_type delta) /\
  (fst s = "SELL"%string <-> ~ bullish option_type delta /\ decaying theta) /\
  (fst s = "HOLD"%string <-> ~ bullish option_type delta /\ ~ decaying theta) /\
  1 <= snd s <= 5 /\
  (snd s = 5 <-> bullish option_type delta /\ (7 # 10 < Qabs delta)%Q
                 /\ ~ decaying theta) /\
  (snd s = 1 <-> (Qabs delta <= 3 # 10)%Q /\ decaying theta).
Proof.
  cbv zeta. rewrite signal_folded. unfold decaying.
  rewrite <- (bullishb_spec option_type delta).
  pose proof (Qabs_cases delta) as Habs.
  assert (Hb : bullishb option_type delta = true -> (1 # 2 < Qabs delta)%Q).
  { intros H. apply bullishb_spec in H.
    destruct H as [[_ H] | [_ H]]; [| exact H].
    destruct Habs as [[Ha Hs] | [Ha Hs]]; lra. }
  destruct (bullishb option_type delta);
    destruct (Qltb (7 # 10) (Qabs delta)) eqn:E1;
    destruct (Qltb (3 # 10) (Qabs delta)) eqn:E2;
    destruct (Qltb (5 # 100) (Qabs theta)) eqn:E3;
    try (apply Qltb_true in E1); try (apply Qltb_false in E1);
    try (apply Qltb_true in E2); try (apply Qltb_false in E2);
    try (apply Qltb_true in E3); try (apply Qltb_false in E3);
    try (specialize (Hb eq_refl)); cbn [fst snd Z.sub Z.add Z.opp Z.pos_sub];
    repeat split; try lia; try discriminate;
    try (intros [? ?]; try discriminate; try lra; try contradiction);
    try (intros H; exfalso; try discriminate H; lra);
    try (intros; exfalso; lra);
    try (intros ?; discriminate);
    try (intros (? & ? & ?); exfalso; try discriminate; lra);
    try lra.
Qed.

(** X20. The signal of [_calculate_analysis_fields] follows one table. It
    is BUY exactly when the option leans its own way by more than a half (a
    call with delta above 0.5, a put with |delta| above 0.5); otherwise it is
    SELL when |theta| is above 0.05 and HOLD when it is not. The strength is
    always between 1 and 5: it is 5 exactly for a BUY with |delta| above 0.7
    and no high decay, and 1 exactly when |delta| is at most 0.3 and the
    decay is high. *)
Theorem X20_signal_decision_table (option_type : string)
    (ltp spot_price strike delta gamma theta vega time_to_expiry : Q) :
  let a := _calculate_analysis_fields option_type ltp spot_price strike delta
             gamma theta vega time_to_expiry in
  (signal_type a = "BUY"%string <-> bullish option_type delta) /\
  (signal_type a = "SELL"%string
   <-> ~ bullish option_type delta /\ decaying theta) /\
  (signal_type a = "HOLD"%string
   <-> ~ bullish option_type delta /\ ~ decaying theta) /\
  1 <= signal_strength a <= 5 /\
  (signal_strength a = 5
   <-> bullish option_type delta /\ (7 # 10 < Qabs delta)%Q /\ ~ decaying theta) /\
  (signal_strength a = 1 <-> (Qabs delta <= 3 # 10)%Q /\ decaying theta).
Proof.
  intros a.
  destruct (analysis_signal option_type ltp spot_price strike delta gamma theta
              vega time_to_expiry) as [Ht [Hs _]].
  fold a in Ht, Hs.
  destruct (signal_table option_type delta theta) as [T1 [T2 [T3 [T4 [T5 T6]]]]].
  cbv zeta in T1, T2, T3, T4, T5, T6.
  assert (Hs' : signal_strength a
                = snd (decay_adjusted theta (greeks_signal option_type delta theta)))
    by lia.
  rewrite Ht, Hs'. repeat split; try lia; try tauto.
Qed.

Lemma X20_signal_decision_table_witness :
  signal_type (_calculate_analysis_fields "CE" 100 24500 24000 (8 # 10)
                 (1 # 1000) (- (2 # 100)) (12 # 1) (2 # 100)) = "BUY"%string.
Proof.
  apply (proj2 (proj1 (X20_signal_decision_table "CE" 100 24500 24000 (8 # 10)
                         (1 # 1000) (- (2 # 100)) (12 # 1) (2 # 100)))).
  left. split; [reflexivity | reflexivity].
Defined.

Lemma max0_nonneg (x : Q) : (0 <= max0 x)%Q.
Proof.
  unfold max0. destruct (Qltb 0 x) eqn:E; [| apply Qle_refl].
  apply Qltb_true in E. lra.
Qed.

Lemma max0_le (x y : Q) : (x <= y)%Q -> (0 <= y)%Q -> (max0 x <= y)%Q.
Proof. unfold max0. destruct (Qltb 0 x); auto. Qed.

Lemma min100_range (x : Q) : (0 <= x)%Q -> (0 <= min100 x <= 100)%Q.
Proof.
  unfold min100. intros H. destruct (Qltb x 100) eqn:E.
  - apply Qltb_true in E. lra.
  - lra.
Qed.

Lemma round2_range (x : Q) (lo hi : Z) :
  (inject_Z lo <= x <= inject_Z hi)%Q ->
  (inject_Z lo <= round2 x <= inject_Z hi)%Q.
Proof.
  intros [H1 H2]. split.
  - rewrite <- (round2_hundredths lo). apply round2_mono, H1.
  - rewrite <- (round2_hundredths hi). apply round2_mono, H2.
Qed.

Lemma round2_nonneg (x : Q) : (0 <= x)%Q -> (0 <= round2 x)%Q.
Proof.
  intros H. change 0%Q with (inject_Z 0).
  rewrite <- (round2_hundredths 0). apply round2_mono, H.
Qed.

(** X21. The amounts of [_calculate_analysis_fields] keep their ranges
    whatever the inputs: intrinsic value, time value and stop loss are never
    negative, and the buy and sell percentages lie between 0 and 100. For a
    price that is not negative the stop loss is not above the rounded price;
    and with a spot price and a gamma that are not negative, and a call
    delta that is not negative, the three targets are in order above the
    rounded price. *)
Theorem X21_analysis_amounts_in_range (option_type : string)
    (ltp spot_price strike delta gamma theta vega time_to_expiry : Q) :
  let a := _calculate_analysis_fields option_type ltp spot_price strike delta
             gamma theta vega time_to_expiry in
  ((0 <= intrinsic a)%Q /\ (0 <= time_val a)%Q /\ (0 <= stop_loss a)%Q /\
   (0 <= buy_percent a <= 100)%Q /\ (0 <= sell_percent a <= 100)%Q) /\
  ((0 <= ltp)%Q -> (stop_loss a <= round2 ltp)%Q) /\
  ((0 <= spot_price)%Q -> (0 <= gamma)%Q ->
   (option_type = "CE"%string -> (0 <= delta)%Q) ->
   (round2 ltp <= tp1 a)%Q /\ (tp1 a <= tp2 a)%Q /\ (tp2 a <= tp3 a)%Q).
Proof.
  intros a. subst a. unfold _calculate_analysis_fields. cbv zeta.
  destruct (greeks_quality gamma vega) as [quality confidence].
  destruct (decay_adjusted theta (greeks_signal option_type delta theta))
    as [type strength].
  pose proof (Qabs_nonneg delta) as Had. pose proof (Qabs_nonneg theta) as Hat.
  assert (Hbuy : forall v, (0 <= min100 (max0 v) <= 100)%Q)
    by (intros v; apply min100_range, max0_nonneg).
  split; [| split].
  - destruct (String.eqb option_type "CE");
      cbn [intrinsic time_val stop_loss buy_percent sell_percent];
      (split; [apply round2_nonneg, max0_nonneg |]);
      (split; [apply round2_nonneg, max0_nonneg |]);
      (split; [apply round2_nonneg, max0_nonneg |]);
      (split; [apply (round2_range _ 0 100), Hbuy |]);
      apply (round2_range _ 0 100);
      match goal with |- context [min100 (max0 ?v)] => specialize (Hbuy v) end;
      unfold inject_Z; lra.
  - intros Hltp.
    destruct (String.eqb option_type "CE"); cbn [stop_loss];
      apply round2_mono, max0_le; [lra | exact Hltp | lra | exact Hltp].
  - intros Hspot Hgamma Hdelta.
    assert (Hg : (0 <= gamma * spot_price * spot_price)%Q).
    { rewrite <- Qmult_assoc. apply Qmult_le_0_compat; [exact Hgamma |].
      apply Qmult_le_0_compat; exact Hspot. }
    destruct (String.eqb_spec option_type "CE") as [Hce | Hce]; cbn [tp1 tp2 tp3].
    + assert (Hp : (0 <= delta * spot_price)%Q)
        by (apply Qmult_le_0_compat; [apply Hdelta, Hce | exact Hspot]).
      split; [| split]; apply round2_mono; nra.
    + assert (Hp : (0 <= Qabs delta * spot_price)%Q)
        by (apply Qmult_le_0_compat; [exact Had | exact Hspot]).
      revert Hp. generalize (Qabs delta) as ad. intros ad Hp.
      split; [| split]; apply round2_mono; nra.
Qed.

Lemma X21_analysis_amounts_in_range_witness :
  let a := _calculate_analysis_fields "PE" 100 24500 24000 (- (3 # 10))
             (1 # 1000) (- (2 # 100)) (12 # 1) (2 # 100) in
  (stop_loss a <= round2 100)%Q /\
  (round2 100 <= tp1 a)%Q /\ (tp1 a <= tp2 a)%Q /\ (tp2 a <= tp3 a)%Q.
Proof.
  pose proof (X21_analysis_amounts_in_range "PE" 100 24500 24000 (- (3 # 10))
                (1 # 1000) (- (2 # 100)) (12 # 1) (2 # 100)) as [_ [H1 H2]].
  split.
  - apply H1. discriminate.
  - apply H2; [discriminate | discriminate | intros E; discriminate E].
Defined.

(** ** Signs and the report of the Greeks *)

Section GreeksMore.

Import GreeksCalculator.
Local Open Scope R_scope.

Lemma norm_pdf_nonneg (x : R) : 0 <= norm_pdf x.
Proof.
  unfold norm_pdf. left. apply Rdiv_lt_0_compat; [apply exp_pos |].
  apply sqrt_lt_R0. pose proof PI_RGT_0. lra.
Qed.

Lemma Rdiv_nonneg (a b : R) : 0 <= a -> 0 < b -> 0 <= a / b.
Proof.
  intros Ha Hb. apply Rmult_le_pos; [exact Ha |].
  left. apply Rinv_0_lt_compat, Hb.
Qed.

(** X22. For a positive spot, strike, time and volatility and a rate that is
    not negative, no Greek has the wrong sign: gamma and vega are never
    negative, the rho of a call is never negative and that of a put never
    positive, and the theta of a call is never positive. *)
Theorem X22_greeks_signs (S K T r sigma : R) :
  0 < S -> 0 < K -> 0 < T -> 0 < sigma -> 0 <= r ->
  0 <= calculate_gamma S K T r sigma /\
  0 <= calculate_vega S K T r sigma /\
  0 <= calculate_rho S K T r sigma CE /\
  calculate_rho S K T r sigma PE <= 0 /\
  calculate_theta S K T r sigma CE <= 0.
Proof.
  intros HS HK HT Hs Hr.
  unfold calculate_gamma, calculate_vega, calculate_rho, calculate_theta.
  rewrite (Rleb_false _ _ HT), (Rleb_false _ _ Hs). cbn [orb]. cbv zeta.
  pose proof (norm_pdf_nonneg (_d1 S K T r sigma)) as Hpdf.
  pose proof (norm_cdf_range (_d2 S K T r sigma)) as Hc2.
  pose proof (norm_cdf_range (- _d2 S K T r sigma)) as Hc2'.
  pose proof (sqrt_lt_R0 T HT) as Hsq.
  pose proof (exp_pos (- r * T)) as He.
  assert (Hke : 0 < K * T * exp (- r * T))
    by (apply Rmult_lt_0_compat; [apply Rmult_lt_0_compat |]; assumption).
  split; [| split; [| split; [| split]]].
  - apply Rdiv_nonneg; [exact Hpdf |].
    apply Rmult_lt_0_compat; [apply Rmult_lt_0_compat |]; assumption.
  - apply Rdiv_nonneg; [| lra].
    apply Rmult_le_pos; [apply Rmult_le_pos |]; lra.
  - apply Rmult_le_pos; [| lra]. apply Rmult_le_pos; lra.
  - assert (0 <= K * T * exp (- r * T) * norm_cdf (- _d2 S K T r sigma))
      by (apply Rmult_le_pos; lra).
    lra.
  - assert (H1 : 0 <= S * norm_pdf (_d1 S K T r sigma) * sigma / (2 * sqrt T)).
    { apply Rdiv_nonneg; [| lra].
      apply Rmult_le_pos; [apply Rmult_le_pos |]; lra. }
    assert (H2 : 0 <= r * K * exp (- r * T) * norm_cdf (_d2 S K T r sigma)).
    { apply Rmult_le_pos; [| lra]. apply Rmult_le_pos; [| lra].
      apply Rmult_le_pos; lra. }
    unfold Rdiv in *. lra.
Qed.

Lemma X22_greeks_signs_witness :
  0 <= calculate_gamma 100 100 1 0.05 0.2 /\
  0 <= calculate_vega 100 100 1 0.05 0.2 /\
  0 <= calculate_rho 100 100 1 0.05 0.2 CE /\
  calculate_rho 100 100 1 0.05 0.2 PE <= 0 /\
  calculate_theta 100 100 1 0.05 0.2 CE <= 0.
Proof.
  exact (X22_greeks_signs 100 100 1 0.05 0.2
           ltac:(lra) ltac:(lra) ltac:(lra) ltac:(lra) ltac:(lra)).
Defined.

Import GreeksReport.

Lemma newton_rounds_floor (n : nat) (option_price S K T r : R)
    (option_type : option_type) :
  forall sigma, 0.01 <= sigma ->
  0.01 <= newton_rounds n option_price S K T r option_type sigma.
Proof.
  induction n as [| n IH]; intros sigma Hs; [exact Hs |].
  cbn [newton_rounds]. cbv zeta.
  destruct (Rltb _ _ || Rltb _ _); [exact Hs |].
  apply IH, Rmax_r.
Qed.

Lemma iv_estimate_floor (option_price S K T r : R) (option_type : option_type) :
  0.01 <= calculate_implied_volatility_estimate option_price S K T r option_type.
Proof.
  unfold calculate_implied_volatility_estimate.
  destruct (_ || _); [lra | apply Rmax_r].
Qed.

(** X24. [calculate_all_greeks] returns six zeros when the spot, the strike
    or the time is not positive. Otherwise the volatility it reports is
    positive: the one given when that is positive, else an estimate of at
    least 0.01; gamma and vega are never negative, and the delta lies between
    0 and 1 for a call and between -1 and 0 for a put. *)
Theorem X24_report_has_positive_volatility (S K T r sigma : R)
    (option_type : option_type) (option_price : R) :
  let g := calculate_all_greeks S K T r sigma option_type option_price in
  (S <= 0 \/ K <= 0 \/ T <= 0 ->
   g = {| delta := 0; gamma := 0; vega := 0; theta := 0; rho := 0; iv := 0 |}) /\
  (0 < S -> 0 < K -> 0 < T ->
   (0 < sigma -> iv g = sigma) /\
   (sigma <= 0 -> 0.01 <= iv g) /\
   0 < iv g /\ 0 <= gamma g /\ 0 <= vega g /\
   delta g = calculate_delta S K T r (iv g) option_type /\
   match option_type with
   | CE => 0 <= delta g <= 1
   | PE => -1 <= delta g <= 0
   end).
Proof.
  intros g. subst g. unfold calculate_all_greeks. split.
  - intros H.
    assert (E : Rleb S 0 || Rleb K 0 || Rleb T 0 = true).
    { destruct H as [H | [H | H]]; rewrite (Rleb_true _ _ H);
        repeat rewrite orb_true_r; reflexivity. }
    rewrite E. reflexivity.
  - intros HS HK HT.
    rewrite (Rleb_false _ _ HS), (Rleb_false _ _ HK), (Rleb_false _ _ HT).
    cbn [orb]. cbv zeta.
    set (used := if Rleb sigma 0
                 then if Rltb 0 option_price
                      then calculate_implied_volatility_estimate option_price
                             S K T r option_type
                      else 0.2
                 else sigma).
    cbn [iv gamma vega delta].
    assert (Hgiven : 0 < sigma -> used = sigma)
      by (intros H; unfold used; rewrite (Rleb_false _ _ H); reflexivity).
    assert (Hest : sigma <= 0 -> 0.01 <= used).
    { intros H. unfold used. rewrite (Rleb_true _ _ H).
      destruct (Rltb 0 option_price); [apply iv_estimate_floor | lra]. }
    assert (Hpos : 0 < used).
    { destruct (Rle_lt_dec sigma 0) as [H | H].
      - specialize (Hest H). lra.
      - rewrite (Hgiven H). exact H. }
    split; [exact Hgiven |]. split; [exact Hest |]. split; [exact Hpos |].
    pose proof (norm_pdf_nonneg (_d1 S K T r used)) as Hpdf.
    pose proof (sqrt_lt_R0 T HT) as Hsq.
    split; [| split; [| split; [reflexivity |]]].
    + unfold calculate_gamma.
      rewrite (Rleb_false _ _ HT), (Rleb_false _ _ Hpos). cbn [orb]. cbv zeta.
      apply Rdiv_nonneg; [exact Hpdf |].
      apply Rmult_lt_0_compat; [apply Rmult_lt_0_compat |]; assumption.
    + unfold calculate_vega. rewrite (Rleb_false _ _ HT). cbv zeta.
      apply Rdiv_nonneg; [| lra].
      apply Rmult_le_pos; [apply Rmult_le_pos |]; lra.
    + unfold calculate_delta. rewrite (Rleb_false _ _ HT). cbv zeta.
      pose proof (norm_cdf_range (_d1 S K T r used)).
      destruct option_type; lra.
Qed.

Lemma X24_report_has_positive_volatility_witness :
  let g := calculate_all_greeks 100 100 1 0.05 0 CE 0 in
  0.01 <= iv g /\ 0 < iv g /\ 0 <= gamma g /\ 0 <= vega g /\ 0 <= delta g <= 1.
Proof.
  destruct (proj2 (X24_report_has_positive_volatility 100 100 1 0.05 0 CE 0)
              ltac:(lra) ltac:(lra) ltac:(lra))
    as [_ [H1 [H2 [H3 [H4 [_ H5]]]]]].
  split; [apply H1; lra |]. split; [exact H2 |]. split; [exact H3 |].
  split; [exact H4 | exact H5].
Defined.

(** X25. In [calculate_analytics] the intrinsic and the time value are never
    negative. For a positive price at or above the intrinsic value each of
    the two percentages lies between 0 and 100; for a positive price below
    it the first is above 100 and the second is 0; for an option out of the
    money with a positive price the first is 0 and the second is 100; and for
    a price that is not positive both are 0. *)
Theorem X25_analytics_percentages (S K option_price : R)
    (option_type : option_type) :
  let a := calculate_analytics S K option_price option_type in
  0 <= intrinsic a /\ 0 <= time_value a /\
  (0 < option_price -> intrinsic a <= option_price ->
   0 <= wtb_percent a <= 100 /\ 0 <= wtt_percent a <= 100) /\
  (0 < option_price -> option_price < intrinsic a ->
   100 < wtb_percent a /\ wtt_percent a = 0) /\
  (0 < option_price ->
   match option_type with CE => S <= K | PE => K <= S end ->
   intrinsic a = 0 /\ wtb_percent a = 0 /\ wtt_percent a = 100) /\
  (option_price <= 0 -> wtb_percent a = 0 /\ wtt_percent a = 0).
Proof.
  intros a. subst a. unfold calculate_analytics. cbv zeta.
  cbn [intrinsic time_value wtb_percent wtt_percent].
  set (i := match option_type with
            | CE => Rmax 0 (S - K)
            | PE => Rmax 0 (K - S)
            end).
  assert (Hi : 0 <= i) by (unfold i; destruct option_type; apply Rmax_l).
  assert (Hshare : forall x, 0 < option_price -> 0 <= x <= option_price ->
                             0 <= x / option_price * 100 <= 100).
  { intros x Hp [Hx0 Hx1].
    assert (H0 : 0 <= x / option_price) by (apply Rdiv_nonneg; assumption).
    assert (H1 : x / option_price <= 1).
    { apply Rmult_le_reg_r with option_price; [exact Hp |].
      unfold Rdiv. rewrite Rmult_assoc, Rinv_l by lra. lra. }
    lra. }
  split; [exact Hi |]. split; [apply Rmax_l |].
  split; [| split; [| split]].
  - intros Hp Hle. rewrite (Rltb_true _ _ Hp).
    rewrite (Rmax_right 0 (option_price - i)) by lra.
    split; apply Hshare; try exact Hp; lra.
  - intros Hp Hlt. rewrite (Rltb_true _ _ Hp).
    rewrite (Rmax_left 0 (option_price - i)) by lra.
    split; [| unfold Rdiv; lra].
    assert (H1 : 1 < i / option_price).
    { apply Rmult_lt_reg_r with option_price; [exact Hp |].
      unfold Rdiv. rewrite Rmult_assoc, Rinv_l by lra. lra. }
    lra.
  - intros Hp Hotm. rewrite (Rltb_true _ _ Hp).
    assert (E : i = 0)
      by (unfold i; destruct option_type; apply Rmax_left; lra).
    rewrite E. rewrite Rminus_0_r, (Rmax_right 0 option_price) by lra.
    split; [reflexivity |]. split; [unfold Rdiv; lra | field; lra].
  - intros Hp. rewrite (Rltb_false _ _ Hp). split; reflexivity.
Qed.

Lemma X25_analytics_percentages_witness :
  let a := calculate_analytics 24500 24400 150 CE in
  0 <= wtb_percent a <= 100 /\ 0 <= wtt_percent a <= 100.
Proof.
  apply (proj1 (proj2 (proj2 (X25_analytics_percentages 24500 24400 150 CE)))).
  - lra.
  - cbn [intrinsic calculate_analytics]. unfold Rmax.
    destruct (Rle_dec 0 (24500 - 24400)); lra.
Defined.

Lemma Rltb_inv (a b : R) : Rltb a b = true -> a < b.
Proof. unfold Rltb. destruct (Rlt_dec a b); [auto | discriminate]. Qed.

(** X26. An entry signal computed from the percentages of
    [calculate_analytics] is BUY only for an option in the money whose
    positive price is less than twice its intrinsic value, with |delta|
    above 0.6 and a volatility below 0.3; it is SELL only when the intrinsic
    share of the price is below 20% and |delta| is below 0.3. *)
Theorem X26_entry_signal_buys_in_the_money (S K option_price delta iv : R)
    (option_type : option_type) :
  let a := calculate_analytics S K option_price option_type in
  let signal := calculate_entry_signal delta iv (wtb_percent a) in
  (signal = "BUY"%string ->
   0 < option_price /\ option_price < 2 * intrinsic a /\
   match option_type with CE => K < S | PE => S < K end /\
   0.6 < Rabs delta /\ iv < 0.3) /\
  (signal = "SELL"%string ->
   wtb_percent a < 20 /\ Rabs delta < 0.3).
Proof.
  intros a signal. subst signal. unfold calculate_entry_signal.
  assert (Hw : 50 < wtb_percent a ->
               0 < option_price /\ option_price < 2 * intrinsic a /\
               match option_type with CE => K < S | PE => S < K end).
  { subst a. unfold calculate_analytics. cbv zeta. cbn [wtb_percent intrinsic].
    set (i := match option_type with
              | CE => Rmax 0 (S - K)
              | PE => Rmax 0 (K - S)
              end).
    unfold Rltb. destruct (Rlt_dec 0 option_price) as [Hp | Hp]; [| lra].
    intros H. split; [exact Hp |].
    assert (H1 : / 2 < i / option_price) by lra.
    assert (H2 : option_price < 2 * i).
    { apply Rmult_lt_compat_r with (r := option_price) in H1; [| exact Hp].
      unfold Rdiv in H1. rewrite Rmult_assoc, Rinv_l in H1 by lra. lra. }
    split; [exact H2 |].
    unfold i in H2. destruct option_type; unfold Rmax in H2;
      destruct (Rle_dec 0 _); lra. }
  destruct (Rltb 50 (wtb_percent a) && Rltb 0.6 (Rabs delta) && Rltb iv 0.3)
    eqn:Ebuy.
  - apply andb_true_iff in Ebuy as [Ebuy E3].
    apply andb_true_iff in Ebuy as [E1 E2].
    apply Rltb_inv in E1, E2, E3.
    split; [| intros E; discriminate E].
    intros _. destruct (Hw E1) as [H1 [H2 H3]]. auto.
  - destruct (Rltb (wtb_percent a) 20 && Rltb (Rabs delta) 0.3) eqn:Esell;
      (split; [intros E; discriminate E |]); [| intros E; discriminate E].
    apply andb_true_iff in Esell as [E1 E2]. apply Rltb_inv in E1, E2.
    intros _. split; assumption.
Qed.

Lemma X26_entry_signal_buys_in_the_money_witness :
  calculate_entry_signal 0.2 0.25
    (wtb_percent (calculate_analytics 24500 24600 40 CE)) = "SELL"%string /\
  wtb_percent (calculate_analytics 24500 24600 40 CE) < 20.
Proof.
  assert (W : wtb_percent (calculate_analytics 24500 24600 40 CE) = 0).
  { cbn [calculate_analytics wtb_percent]. rewrite (Rltb_true 0 40) by lra.
    rewrite Rmax_left by lra. unfold Rdiv. lra. }
  assert (E : calculate_entry_signal 0.2 0.25
                (wtb_percent (calculate_analytics 24500 24600 40 CE))
              = "SELL"%string).
  { rewrite W. unfold calculate_entry_signal.
    rewrite (Rltb_false 50 0) by lra. cbn [andb].
    rewrite (Rltb_true 0 20) by lra.
    rewrite (Rltb_true (Rabs 0.2) 0.3) by (rewrite Rabs_pos_eq; lra).
    reflexivity. }
  split; [exact E |].
  apply (proj2 (X26_entry_signal_buys_in_the_money 24500 24600 40 0.2 0.25 CE)
           E).
Defined.

(** X27. The time to expiry is never below 0.001 of a year: it is the number
    of days over 365 for an expiry after today and 0.001 for an expiry today
    or in the past. The Greeks computed with it therefore never take their
    branch for an expired option: delta and vega are the smooth formulas. *)
Theorem X27_time_to_expiry_is_positive (expiry_date today : Z)
    (S K r sigma : R) (option_type : option_type) :
  let T := calculate_time_to_expiry expiry_date today in
  0.001 <= T /\
  ((expiry_date <= today)%Z -> T = 0.001) /\
  ((today < expiry_date)%Z -> T = IZR (expiry_date - today) / 365) /\
  calculate_delta S K T r sigma option_type
  = match option_type with
    | CE => norm_cdf (_d1 S K T r sigma)
    | PE => norm_cdf (_d1 S K T r sigma) - 1
    end /\
  calculate_vega S K T r sigma
  = S * norm_pdf (_d1 S K T r sigma) * sqrt T / 100.
Proof.
  intros T. subst T. unfold calculate_time_to_expiry. cbv zeta.
  set (days := (expiry_date - today)%Z).
  assert (Hfloor : 0.001 <= Rmax (IZR days / 365) 0.001) by apply Rmax_r.
  split; [exact Hfloor |]. split; [| split; [| split]].
  - intros Hle. apply Rmax_right.
    assert (H : IZR days <= 0) by (apply (IZR_le days 0); unfold days; lia).
    lra.
  - intros Hlt. apply Rmax_left.
    assert (H : 1 <= IZR days) by (apply (IZR_le 1 days); unfold days; lia).
    lra.
  - unfold calculate_delta. rewrite Rleb_false by lra. reflexivity.
  - unfold calculate_vega. rewrite Rleb_false by lra. reflexivity.
Qed.

Lemma X27_time_to_expiry_is_positive_witness :
  calculate_time_to_expiry 739558 739565 = 0.001 /\
  calculate_time_to_expiry 739565 739558 = IZR (739565 - 739558) / 365.
Proof.
  split.
  - apply (proj1 (proj2 (X27_time_to_expiry_is_positive 739558 739565
                           100 100 0.05 0.2 CE))). lia.
  - apply (proj1 (proj2 (proj2 (X27_time_to_expiry_is_positive 739565 739558
                                  100 100 0.05 0.2 CE)))). lia.
Defined.

End GreeksMore.

(** ** The tokens nearest to the spot *)

Lemma insert_by_key_perm {A : Type} (key : A -> Q) (x : A) (l : list A) :
  insert_by_key key x l ≡ₚ x :: l.
Proof.
  induction l as [| y rest IH]; [reflexivity |].
  cbn [insert_by_key]. destruct (Qle_bool (key x) (key y)); [reflexivity |].
  rewrite IH. apply Permutation_swap.
Qed.

Lemma sorted_by_key_perm {A : Type} (key : A -> Q) (l : list A) :
  sorted_by_key key l ≡ₚ l.
Proof.
  induction l as [| x rest IH]; [reflexivity |].
  cbn [sorted_by_key fold_right]. rewrite insert_by_key_perm.
  apply Permutation_skip, IH.
Qed.

Lemma insert_by_key_sorted {A : Type} (key : A -> Q) (x : A) (l : list A) :
  StronglySorted (fun a b => (key a <= key b)%Q) l ->
  StronglySorted (fun a b => (key a <= key b)%Q) (insert_by_key key x l).
Proof.
  induction l as [| y rest IH]; intros Hs.
  - constructor; [constructor | constructor].
  - cbn [insert_by_key]. apply StronglySorted_inv in Hs as [Hrest Hy].
    destruct (Qle_bool (key x) (key y)) eqn:E.
    + apply Qle_bool_iff in E. constructor.
      * constructor; assumption.
      * constructor; [exact E |].
        eapply Forall_impl; [exact Hy |]. intros z Hz. cbn in Hz |- *.
        apply Qle_trans with (key y); assumption.
    + assert (Hyx : (key y <= key x)%Q).
      { destruct (Qlt_le_dec (key y) (key x)) as [H | H];
          [apply Qlt_le_weak, H |].
        apply Qle_bool_iff in H. rewrite H in E. discriminate E. }
      constructor; [apply IH, Hrest |].
      apply Forall_forall. intros z Hz.
      apply (elem_of_Permutation_proper z _ _ (insert_by_key_perm key x rest)) in Hz.
      apply elem_of_cons in Hz as [-> | Hz]; [exact Hyx |].
      rewrite Forall_forall in Hy. apply Hy, Hz.
Qed.

Lemma sorted_by_key_sorted {A : Type} (key : A -> Q) (l : list A) :
  StronglySorted (fun a b => (key a <= key b)%Q) (sorted_by_key key l).
Proof.
  induction l as [| x rest IH]; [constructor |].
  cbn [sorted_by_key fold_right]. apply insert_by_key_sorted, IH.
Qed.

Lemma sorted_split {A : Type} (R : A -> A -> Prop) (l1 l2 : list A) :
  StronglySorted R (l1 ++ l2) ->
  forall a b, In a l1 -> In b l2 -> R a b.
Proof.
  induction l1 as [| x rest IH]; intros Hs a b Ha Hb; [destruct Ha |].
  cbn [app] in Hs. apply StronglySorted_inv in Hs as [Hrest Hx].
  destruct Ha as [<- | Ha]; [| apply (IH Hrest a b Ha Hb)].
  rewrite Forall_forall in Hx. apply Hx, list_elem_of_In, in_or_app.
  right. exact Hb.
Qed.

(** X28. For the intraday step [get_option_chain] picks at most 150 tokens,
    those nearest to the spot: no token left out is nearer than a token
    picked, and picked and left-out tokens together are all the tokens. So
    the step sends at most 150 minute-candle requests, each for a picked
    token, and the guard for more than 400 tokens never stops it. *)
Theorem X28_intraday_takes_nearest_tokens (minute : minute_source) (now : Z)
    (token_strike_map : gmap Z Q) (spot_price : Q) (all_tokens : list Z)
    (st : intraday_state) :
  let distance := distance_to_spot token_strike_map spot_price in
  let picked := prioritized_today_tokens token_strike_map spot_price all_tokens in
  let left_out := skipn MAX_TODAY_TOKENS (sorted_by_key distance all_tokens) in
  let out := today_intraday_map minute now token_strike_map spot_price
               all_tokens st in
  (length picked <= 150)%nat /\
  picked ++ left_out ≡ₚ all_tokens /\
  (forall t u, In t picked -> In u left_out -> (distance t <= distance u)%Q) /\
  (exists ext,
     i_requests (snd out) = i_requests st ++ ext /\
     (length ext <= 150)%nat /\
     Forall (fun r => In (fst (fst r)) picked) ext) /\
  (intraday_cooldown_active now (i_self st) = false ->
   market_open_of now <= now ->
   out = today_loop minute now (market_open_of now) 180 picked ∅ st).
Proof.
  intros distance picked left_out out.
  assert (Hlen : (length picked <= 150)%nat).
  { unfold picked, prioritized_today_tokens, MAX_TODAY_TOKENS.
    rewrite length_firstn. lia. }
  split; [exact Hlen |]. split; [| split; [| split]].
  - unfold picked, left_out, prioritized_today_tokens.
    fold distance. rewrite firstn_skipn. apply sorted_by_key_perm.
  - intros t u Ht Hu.
    apply (sorted_split (fun a b => (distance a <= distance b)%Q)
             picked left_out); [| exact Ht | exact Hu].
    unfold picked, left_out, prioritized_today_tokens. fold distance.
    rewrite firstn_skipn. apply sorted_by_key_sorted.
  - destruct (intraday_effect minute now picked 180 st)
      as [_ [_ [[ext [Hlog [Hn Hall]]] _]]].
    exists ext. split; [exact Hlog |]. split; [lia |].
    eapply Forall_impl; [exact Hall |]. intros r [Hr _]. exact Hr.
  - intros Hc Ho. apply intraday_open; [exact Hc | exact Ho | lia].
Qed.

(** ** Sample instances *)

(** A quote with last price 11 and nothing else known about the token. *)
Lemma X2_positive_ltp_fills_row_witness :
  let quotes : gmap Z quote :=
    {[ 7 := {| q_last_price := Some (11 # 1)%Q; q_ohlc := None; q_oi := 40 |} ]} in
  let ce := snd (merge_ce 739558 7 quotes ∅ init_service) in
  exists o h l c,
    f_open ce = Some o /\ f_high ce = Some h /\ f_low ce = Some l /\
    f_close ce = Some c /\ (0 < o)%Q /\ (0 < h)%Q /\ (0 < l)%Q /\ (0 < c)%Q.
Proof.
  apply (X2_positive_ltp_fills_row 739558 7
           {[ 7 := {| q_last_price := Some (11 # 1)%Q; q_ohlc := None;
                      q_oi := 40 |} ]} ∅ init_service (11 # 1)%Q).
  - reflexivity.
  - reflexivity.
Defined.

(** Five updates on one day, three of them positive prices of token 7. *)
Lemma X3_session_record_sums_up_the_day_witness :
  let obs : list observation :=
    [(739558, 7, Some (10 # 1)%Q); (739558, 8, Some (3 # 1)%Q);
     (739558, 7, Some (12 # 1)%Q); (739558, 7, Some (0 # 1)%Q);
     (739558, 7, Some (11 # 1)%Q)] in
  match _session_ohlc (fold_left observe obs init_service) !! 7 with
  | Some rec => summarises rec (prices_for 7 obs)
  | None => prices_for 7 obs = []
  end.
Proof.
  apply (X3_session_record_sums_up_the_day 739558 7).
  repeat constructor.
Defined.

(** Monday 3 November 2025: the record of token 1 is Friday's. *)
Lemma X5_returned_records_are_of_the_day_witness :
  let out := get_previous_day_option_ohlc patchy_kite 739558 0 [1; 2] 60
               fresh_world in
  In 1 [1; 2] /\ for_day friday_rec = _get_previous_trading_day 739558 /\
  cache_of (snd out) !! 1 = Some friday_rec.
Proof.
  apply (X5_returned_records_are_of_the_day patchy_kite 739558 0 [1; 2] 60
           fresh_world 1 friday_rec).
  reflexivity.
Defined.

(** A cap of 0: nothing is requested. *)
Lemma X6_fetch_cap_witness :
  w_log (snd (get_previous_day_option_ohlc patchy_kite 739558 0 [1; 2] 0
                fresh_world)) = w_log fresh_world.
Proof.
  apply (proj2 (X6_fetch_cap patchy_kite 739558 0 [1; 2] 0 fresh_world)).
  lia.
Defined.

(** Token 1 cached for Friday, asked for on Monday. *)
Lemma X7_warm_cache_needs_no_request_witness :
  let w := stored 1 friday_rec fresh_world in
  let out := get_previous_day_option_ohlc patchy_kite 739558 0 [1] 60 w in
  snd out = w /\
  (forall t, In t [1] -> fst out !! t = cache_of w !! t) /\
  (forall t, ~ In t [1] -> fst out !! t = None).
Proof.
  apply (X7_warm_cache_needs_no_request patchy_kite 739558 0 [1] 60
           (stored 1 friday_rec fresh_world)).
  - reflexivity.
  - intros t [<- | []]. exists friday_rec. reflexivity.
Defined.

(** A list whose only token is cached is covered in full. *)
Lemma X10_coverage_is_a_share_witness :
  Qeq (_prevday_cache_coverage 739558 [1]
         (w_self (stored 1 friday_rec fresh_world))) 1%Q.
Proof.
  apply (proj2 (X10_coverage_is_a_share 739558 [1]
                  (w_self (stored 1 friday_rec fresh_world)))).
  intros t [<- | []]. exists friday_rec. reflexivity.
Defined.

(** After the fetch of token 1 the list [1] is covered in full. *)
Lemma X11_fetch_raises_coverage_witness :
  Qeq (_prevday_cache_coverage 739558 [1]
         (w_self (snd (get_previous_day_option_ohlc patchy_kite 739558 0 [1] 60
                         fresh_world)))) 1%Q.
Proof.
  apply (proj2 (X11_fetch_raises_coverage patchy_kite 739558 0 [1] 60
                  fresh_world)).
  intros t [<- | []]. exists friday_rec. reflexivity.
Defined.

(** Four uncached tokens and an empty job table: the first shard is started. *)
Lemma X13_warm_starts_idle_shards_only_witness :
  let out := _ensure_prevday_warm 739558 5 "NIFTY" None [11; 12; 13; 14]
               init_service ∅ in
  In [11; 14] (shard [11; 12; 13; 14] 3) /\ [11; 14] <> [] /\
  (forall job, (∅ : gmap string warm_job) !! "NIFTY:nearest:4#0"%string = Some job ->
               running job = false) /\
  fst out !! "NIFTY:nearest:4#0"%string
  = Some {| running := true; started_at := 5 |}.
Proof.
  apply (proj1 (proj2 (proj2 (proj2
           (X13_warm_starts_idle_shards_only 739558 5 "NIFTY" None
              [11; 12; 13; 14] init_service ∅))))).
  left. reflexivity.
Defined.

(** Spot 24510: 24500 and 24520 are equally near and the earlier one is taken. *)
Lemma X14_atm_strike_is_first_nearest_witness :
  exists before after,
    [24400 # 1; 24500 # 1; 24600 # 1; 24520 # 1]%Q = before ++ (24500 # 1)%Q :: after /\
    (forall x, In x before ->
       (Qabs ((24500 # 1) - (24510 # 1)) < Qabs (x - (24510 # 1)))%Q) /\
    (forall x, In x after ->
       (Qabs ((24500 # 1) - (24510 # 1)) <= Qabs (x - (24510 # 1)))%Q).
Proof.
  exact (X14_atm_strike_is_first_nearest
           [24400 # 1; 24500 # 1; 24600 # 1; 24520 # 1]%Q (24510 # 1)%Q).
Defined.

(** At 09:00 nothing is requested. *)
Lemma X16_intraday_call_is_bounded_witness :
  i_requests (snd (get_current_day_option_ohlc minute_feed monday_9am [1; 2; 3]
                     180 fresh_intraday)) = [].
Proof.
  destruct (proj1 (proj2 (X16_intraday_call_is_bounded minute_feed monday_9am
                            [1; 2; 3] 180 fresh_intraday)))
    as [ext [Hlog [_ [_ [_ Hguard]]]]].
  rewrite Hlog, Hguard; [reflexivity |].
  right. left. reflexivity.
Defined.

(** Token 2 is rate-limited: token 3 is not requested, and a call one minute
    later is turned away. *)
Lemma X17_intraday_rate_limit_cools_down_witness :
  let out := get_current_day_option_ohlc minute_feed monday_10am [1; 2; 3] 180
               fresh_intraday in
  i_requests (snd out)
  = [(1, market_open_of monday_10am, monday_10am);
     (2, market_open_of monday_10am, monday_10am)] /\
  _rate_limit_intraday_cooldown_until (i_self (snd out))
  = Some (monday_10am + timedelta_seconds 90) /\
  get_current_day_option_ohlc minute_feed (monday_10am + timedelta_seconds 60)
    [3] 180 (snd out) = (∅, snd out).
Proof.
  intros out.
  destruct (X17_intraday_rate_limit_cools_down minute_feed monday_10am
              [1; 2; 3] 180 fresh_intraday) as [ext [Hlog Hlast]].
  fold out in Hlog, Hlast.
  assert (Hreq : i_requests (snd out)
                 = [(1, market_open_of monday_10am, monday_10am);
                    (2, market_open_of monday_10am, monday_10am)])
    by reflexivity.
  assert (Hext : ext = [(1, market_open_of monday_10am, monday_10am)]
                       ++ (2, market_open_of monday_10am, monday_10am) :: [])
    by (rewrite Hreq in Hlog; symmetry; exact Hlog).
  destruct (Hlast _ _ _ _ _ "Too many requests"%string Hext eq_refl eq_refl)
    as [_ [Hcool Hnext]].
  split; [exact Hreq |]. split; [exact Hcool |].
  apply Hnext. unfold timedelta_seconds. lia.
Defined.

(** Three minute candles of token 1. *)
Lemma X18_intraday_record_spans_candles_witness :
  exists rec,
    fst (get_current_day_option_ohlc minute_feed monday_10am [1] 180
           fresh_intraday) = {[ 1 := rec ]} /\
    t_open rec = Some (10 # 1)%Q /\ t_close rec = Some (13 # 1)%Q /\
    (t_low rec <= 8 # 1)%Q /\ (15 # 1 <= t_high rec)%Q.
Proof.
  destruct (X18_intraday_record_spans_candles minute_feed monday_10am 1 180
              fresh_intraday
              (minute_candle (10 # 1) (12 # 1) (9 # 1) (11 # 1))
              [minute_candle (11 # 1) (15 # 1) (11 # 1) (14 # 1);
               minute_candle (14 # 1) (14 # 1) (8 # 1) (13 # 1)])
    as [rec [Hres [_ [_ [_ [Ho [Hc [_ [_ Hall]]]]]]]]].
  - reflexivity.
  - unfold monday_10am, market_open_of, date_of, us_per_day, timedelta_seconds.
    apply Z.leb_le. reflexivity.
  - reflexivity.
  - reflexivity.
  - repeat constructor; discriminate.
  - repeat constructor; discriminate.
  - exists rec. split; [exact Hres |]. split; [exact Ho |]. split; [exact Hc |].
    destruct (Hall (minute_candle (11 # 1) (15 # 1) (11 # 1) (14 # 1)))
      as [h [l [Hh [Hl [Hhi _]]]]]; [right; left; reflexivity |].
    destruct (Hall (minute_candle (14 # 1) (14 # 1) (8 # 1) (13 # 1)))
      as [h' [l' [Hh' [Hl' [_ Hlo]]]]]; [right; right; left; reflexivity |].
    injection Hh as <-. injection Hl' as <-. split; assumption.
Defined.

(** Two minutes after the fetch, with three minutes to live. *)
Lemma X19_intraday_record_is_reused_witness :
  let out := get_current_day_option_ohlc minute_feed monday_10am [1] 180
               fresh_intraday in
  let rec := {| t_day := 739558; t_open := Some (10 # 1)%Q;
                t_high := (15 # 1)%Q; t_low := (8 # 1)%Q;
                t_close := Some (13 # 1)%Q; fetched_at := monday_10am |} in
  get_current_day_option_ohlc minute_feed (monday_10am + timedelta_seconds 120)
    [1] 180 (snd out) = ({[ 1 := rec ]}, snd out).
Proof.
  intros out rec.
  apply (X19_intraday_record_is_reused minute_feed minute_feed monday_10am
           (monday_10am + timedelta_seconds 120) [1] 180 180 fresh_intraday
           1 rec).
  - reflexivity.
  - reflexivity.
  - reflexivity.
  - unfold timedelta_seconds. lia.
  - reflexivity.
Defined.

(** Three tokens, all picked, at 10:00 with no cooldown. *)
Lemma X28_intraday_takes_nearest_tokens_witness :
  let strikes : gmap Z Q :=
    {[ 1 := (24400 # 1)%Q; 2 := (24500 # 1)%Q; 3 := (24600 # 1)%Q ]} in
  today_intraday_map minute_feed monday_10am strikes (24510 # 1)%Q [1; 2; 3]
    fresh_intraday
  = today_loop minute_feed monday_10am (market_open_of monday_10am) 180
      (prioritized_today_tokens strikes (24510 # 1)%Q [1; 2; 3]) ∅
      fresh_intraday.
Proof.
  intros strikes.
  apply (proj2 (proj2 (proj2 (proj2
           (X28_intraday_takes_nearest_tokens minute_feed monday_10am strikes
              (24510 # 1)%Q [1; 2; 3] fresh_intraday))))).
  - reflexivity.
  - apply Z.leb_le. reflexivity.
Defined.
